(** * qibo.core.circuit: state-vector and density-matrix circuit execution

    A shallow embedding of [src/qibo/core/circuit.py] (classes [Circuit] and
    [DensityMatrixCircuit]) together with the parts of the numeric backend
    [K] ([src/qibo/backends/tensorflow.py]) that the circuit code calls.

    Python objects that are shared and mutated (gates, parameter tensors,
    callbacks) live in an explicit object store; methods are state-passing
    functions in a state-and-exception monad whose state survives a raise. *)

From stdpp Require Import gmap strings list fin_maps.
From Stdlib Require Import ZArith Lia.

Local Open Scope Z_scope.
Local Open Scope nat_scope.

(** ** Python exceptions and results *)

Inductive exn : Type :=
| RuntimeError (msg : string)
| TypeError (msg : string)
| ValueError (msg : string)
| AttributeError (msg : string)
| IndexError (msg : string)
| KeyError (msg : string)
| ResourceExhaustedError (msg : string)   (* [K.oom_error] *)
| BackendError (msg : string).            (* any other error of the backend *)

Inductive result (A : Type) : Type :=
| Ok (a : A)
| Raise (e : exn).
Arguments Ok {A} a.
Arguments Raise {A} e.

(** [qibo.config.raise_error]: logs the message and raises; logging is not
    observable here. *)
Definition raise_error {A} (e : exn) : result A := Raise e.

Definition is_oom_error (e : exn) : bool :=
  match e with ResourceExhaustedError _ => true | _ => false end.

(** ** Tensors

    A backend tensor is a dtype, a shape and its entries in row-major order.
    Amplitudes are exact complex numbers with integer real and imaginary
    parts. *)

Definition Cplx : Type := (Z * Z)%type.

Definition c0 : Cplx := (0%Z, 0%Z).
Definition c1 : Cplx := (1%Z, 0%Z).
Definition cadd (a b : Cplx) : Cplx := ((a.1 + b.1)%Z, (a.2 + b.2)%Z).
Definition cmul (a b : Cplx) : Cplx :=
  ((a.1 * b.1 - a.2 * b.2)%Z, (a.1 * b.2 + a.2 * b.1)%Z).
Definition cconj (a : Cplx) : Cplx := (a.1, (- a.2)%Z).

Inductive Dtype : Type := DTYPECPX | DTYPE | DTYPEINT.

Record tensor : Type := Tensor {
  dtype : Dtype;
  shape : list nat;
  data : list Cplx
}.

Definition numel (sh : list nat) : nat := foldr Nat.mul 1 sh.

Module K.

(** The backend attributes that differ between backends and that the circuit
    code reads: [K.custom_gates], and what [K.stack] does with an empty list
    (tensorflow returns an empty tensor, numpy raises). *)
Record Backend : Type := {
  custom_gates : bool;
  stack_empty : result tensor
}.

Definition cast_entry (d : Dtype) (a : Cplx) : Cplx :=
  match d with DTYPECPX => a | _ => (a.1, 0%Z) end.

(** [cast(x, dtype='DTYPECPX')] *)
Definition cast (x : tensor) (d : Dtype) : tensor :=
  {| dtype := d; shape := shape x; data := cast_entry d <$> data x |}.

Definition reshape (x : tensor) (sh : list nat) : result tensor :=
  if decide (numel sh = length (data x))
  then Ok {| dtype := dtype x; shape := sh; data := data x |}
  else Raise (BackendError "reshape: number of elements does not match").

Definition zeros_like (x : tensor) : tensor :=
  {| dtype := dtype x; shape := shape x; data := (λ _, c0) <$> data x |}.

Definition add (x y : tensor) : tensor :=
  {| dtype := dtype x; shape := shape x;
     data := zip_with cadd (data x) (data y) |}.

(** [copy(x) = x + zeros_like(x)] *)
Definition copy (x : tensor) : tensor := add x (zeros_like x).

Definition conj (x : tensor) : tensor :=
  {| dtype := dtype x; shape := shape x; data := cconj <$> data x |}.

(** [outer(x, y) = tensordot(x, y, axes=0)] *)
Definition outer (x y : tensor) : tensor :=
  {| dtype := dtype x; shape := shape x ++ shape y;
     data := a ← data x; cmul a <$> data y |}.

(** [initial_state(nqubits, is_matrix)]: the state |00...0>, as a vector or
    as a density matrix. *)
Definition initial_state (nqubits : nat) (is_matrix : bool) : tensor :=
  let sh := if is_matrix then [2 ^ nqubits; 2 ^ nqubits] else [2 ^ nqubits] in
  {| dtype := DTYPECPX; shape := sh;
     data := c1 :: replicate (numel sh - 1) c0 |}.

(** [stack(xs, axis=0)] *)
Definition stack (B : Backend) (xs : list tensor) : result tensor :=
  match xs with
  | [] => stack_empty B
  | x :: _ =>
      if forallb (λ y, bool_decide (shape y = shape x)) xs
      then Ok {| dtype := dtype x; shape := length xs :: shape x;
                 data := concat (data <$> xs) |}
      else Raise (BackendError "stack: shapes of all inputs must match")
  end.

End K.

(** The tensorflow backend of [backends/tensorflow.py]; [tf.stack([])] is the
    empty float tensor of shape [(0,)]. *)
Definition TensorflowBackend (custom : bool) : K.Backend :=
  {| K.custom_gates := custom;
     K.stack_empty := Ok {| dtype := DTYPE; shape := [0]; data := [] |} |}.

(** A numpy-like backend: [np.stack([])] raises. *)
Definition NumpyBackend (custom : bool) : K.Backend :=
  {| K.custom_gates := custom;
     K.stack_empty := Raise (ValueError "need at least one array to stack") |}.


(** ** The object store

    Gates, parameter tensors and callbacks are Python objects: a circuit's
    queue holds references, and the same gate object can sit in several
    queues. *)

Abbreviation addr := positive.

(** What a gate call can read and write outside the circuit: the random
    source channels and measurements draw from, and the histories of the
    callback objects. *)
Record Env : Type := {
  rng : N;
  callbacks : gmap addr (list tensor)
}.

(** A gate's matrix is represented by the linear map it denotes on state
    tensors, so that the product of two matrices is the composition of their
    maps. *)
Definition Matrix : Type := tensor → tensor.

Module Gate.

Record t : Type := {
  is_parametrized : bool;            (* isinstance(gate, ParametrizedGate) *)
  trainable : bool;
  parameters : option addr;          (* the parameter tensor object *)
  is_prepared : bool;
  nqubits : option nat;
  qubits : list nat;
  matrix : option Matrix;            (* known for unitary gates *)
  is_callback_gate : bool;           (* isinstance(gate, gates.CallbackGate) *)
  callback : option addr;            (* hasattr(gate, "callback") *)
  observe : tensor → tensor;         (* gate.callback(state) *)
  unitaries : list addr;             (* of a variational layer *)
  additional_unitary : option addr;
  call : tensor → Env → Env * result tensor;            (* gate(state) *)
  sample : tensor → Z → Env → Env * result tensor       (* gate(state, nshots) *)
}.

Definition set_nqubits (n : nat) (g : t) : t :=
  {| is_parametrized := is_parametrized g; trainable := trainable g;
     parameters := parameters g; is_prepared := is_prepared g;
     nqubits := Some n; qubits := qubits g; matrix := matrix g;
     is_callback_gate := is_callback_gate g; callback := callback g;
     observe := observe g; unitaries := unitaries g;
     additional_unitary := additional_unitary g; call := call g;
     sample := sample g |}.

(** [gate.prepare()] *)
Definition prepare (g : t) : t :=
  {| is_parametrized := is_parametrized g; trainable := trainable g;
     parameters := parameters g; is_prepared := true;
     nqubits := nqubits g; qubits := qubits g; matrix := matrix g;
     is_callback_gate := is_callback_gate g; callback := callback g;
     observe := observe g; unitaries := unitaries g;
     additional_unitary := additional_unitary g; call := call g;
     sample := sample g |}.

End Gate.

Record World : Type := {
  gates : gmap addr Gate.t;
  tensors : gmap addr tensor;        (* parameter tensors *)
  env : Env
}.

Definition with_gates (gs : gmap addr Gate.t) (w : World) : World :=
  {| gates := gs; tensors := tensors w; env := env w |}.
Definition with_tensors (ts : gmap addr tensor) (w : World) : World :=
  {| gates := gates w; tensors := ts; env := env w |}.
Definition with_env (e : Env) (w : World) : World :=
  {| gates := gates w; tensors := tensors w; env := e |}.

(** ** Results of measurements ([qibo.core.measurements]) *)

Record GateResult : Type := {
  gr_qubits : list nat;
  decimal_samples : tensor
}.

Record CircuitResult : Type := {
  register_qubits : gmap string (list nat);
  measurement_gate_result : GateResult
}.

(** What [execute] returns: a state tensor or a result record. *)
Inductive ExecResult : Type :=
| RState (state : tensor)
| RResult (r : CircuitResult).

(** ** Circuits *)

Inductive CircuitClass : Type := ClsCircuit | ClsDensityMatrixCircuit.

Record FusionGroup : Type := {
  fg_absorbed : list addr;         (* the original gates absorbed *)
  fg_qubits : list nat;
  fg_gates : list addr             (* [group.gates] *)
}.

Record Circuit : Type := {
  cls : CircuitClass;
  nqubits : nat;
  queue : list addr;
  parametrized_gates : list addr;
  trainable_gates : list addr;
  measurement_gate : option addr;
  measurement_tuples : gmap string (list nat);
  repeated_execution : bool;
  density_matrix : bool;
  fusion_groups : list FusionGroup;
  _compiled_execute : option unit;
  check_initial_state_shape : bool;
  shapes : gmap string (list nat);
  _final_state : option tensor
}.

Definition with_queue (q : list addr) (c : Circuit) : Circuit :=
  {| cls := cls c; nqubits := nqubits c; queue := q;
     parametrized_gates := parametrized_gates c;
     trainable_gates := trainable_gates c;
     measurement_gate := measurement_gate c;
     measurement_tuples := measurement_tuples c;
     repeated_execution := repeated_execution c;
     density_matrix := density_matrix c; fusion_groups := fusion_groups c;
     _compiled_execute := _compiled_execute c;
     check_initial_state_shape := check_initial_state_shape c;
     shapes := shapes c; _final_state := _final_state c |}.

Definition with_parametrized_gates (l : list addr) (c : Circuit) : Circuit :=
  {| cls := cls c; nqubits := nqubits c; queue := queue c;
     parametrized_gates := l;
     trainable_gates := trainable_gates c;
     measurement_gate := measurement_gate c;
     measurement_tuples := measurement_tuples c;
     repeated_execution := repeated_execution c;
     density_matrix := density_matrix c; fusion_groups := fusion_groups c;
     _compiled_execute := _compiled_execute c;
     check_initial_state_shape := check_initial_state_shape c;
     shapes := shapes c; _final_state := _final_state c |}.

Definition with_trainable_gates (l : list addr) (c : Circuit) : Circuit :=
  {| cls := cls c; nqubits := nqubits c; queue := queue c;
     parametrized_gates := parametrized_gates c;
     trainable_gates := l;
     measurement_gate := measurement_gate c;
     measurement_tuples := measurement_tuples c;
     repeated_execution := repeated_execution c;
     density_matrix := density_matrix c; fusion_groups := fusion_groups c;
     _compiled_execute := _compiled_execute c;
     check_initial_state_shape := check_initial_state_shape c;
     shapes := shapes c; _final_state := _final_state c |}.

Definition with_measurement (m : option addr) (mt : gmap string (list nat))
    (c : Circuit) : Circuit :=
  {| cls := cls c; nqubits := nqubits c; queue := queue c;
     parametrized_gates := parametrized_gates c;
     trainable_gates := trainable_gates c;
     measurement_gate := m;
     measurement_tuples := mt;
     repeated_execution := repeated_execution c;
     density_matrix := density_matrix c; fusion_groups := fusion_groups c;
     _compiled_execute := _compiled_execute c;
     check_initial_state_shape := check_initial_state_shape c;
     shapes := shapes c; _final_state := _final_state c |}.

Definition with_fusion_groups (l : list FusionGroup) (c : Circuit) : Circuit :=
  {| cls := cls c; nqubits := nqubits c; queue := queue c;
     parametrized_gates := parametrized_gates c;
     trainable_gates := trainable_gates c;
     measurement_gate := measurement_gate c;
     measurement_tuples := measurement_tuples c;
     repeated_execution := repeated_execution c;
     density_matrix := density_matrix c; fusion_groups := l;
     _compiled_execute := _compiled_execute c;
     check_initial_state_shape := check_initial_state_shape c;
     shapes := shapes c; _final_state := _final_state c |}.

Definition with_compiled_execute (h : option unit) (c : Circuit) : Circuit :=
  {| cls := cls c; nqubits := nqubits c; queue := queue c;
     parametrized_gates := parametrized_gates c;
     trainable_gates := trainable_gates c;
     measurement_gate := measurement_gate c;
     measurement_tuples := measurement_tuples c;
     repeated_execution := repeated_execution c;
     density_matrix := density_matrix c; fusion_groups := fusion_groups c;
     _compiled_execute := h;
     check_initial_state_shape := check_initial_state_shape c;
     shapes := shapes c; _final_state := _final_state c |}.

Definition with_final_state (s : option tensor) (c : Circuit) : Circuit :=
  {| cls := cls c; nqubits := nqubits c; queue := queue c;
     parametrized_gates := parametrized_gates c;
     trainable_gates := trainable_gates c;
     measurement_gate := measurement_gate c;
     measurement_tuples := measurement_tuples c;
     repeated_execution := repeated_execution c;
     density_matrix := density_matrix c; fusion_groups := fusion_groups c;
     _compiled_execute := _compiled_execute c;
     check_initial_state_shape := check_initial_state_shape c;
     shapes := shapes c; _final_state := s |}.

(** ** The method monad: the receiver [self] and the object store are the
    state, and they keep the writes made before a raise. *)

Record St : Type := { self : Circuit; world : World }.

Definition M (A : Type) : Type := St → St * result A.

Definition ret {A} (a : A) : M A := λ s, (s, Ok a).
Definition raise {A} (e : exn) : M A := λ s, (s, raise_error e).
Definition bind {A B} (m : M A) (k : A → M B) : M B :=
  λ s, match m s with
       | (s', Ok a) => k a s'
       | (s', Raise e) => (s', Raise e)
       end.

Notation "'let*' x ':=' m 'in' k" := (bind m (λ x, k))
  (at level 10, x name, m at level 100, k at level 200, only parsing).
Notation "m1 ;;; m2" := (bind m1 (λ _, m2))
  (at level 100, m2 at level 200, right associativity, only parsing).

Definition get_self : M Circuit := λ s, (s, Ok (self s)).
Definition get_world : M World := λ s, (s, Ok (world s)).
Definition modify_self (f : Circuit → Circuit) : M unit :=
  λ s, ({| self := f (self s); world := world s |}, Ok tt).
Definition modify_world (f : World → World) : M unit :=
  λ s, ({| self := self s; world := f (world s) |}, Ok tt).
Definition lift {A} (r : result A) : M A := λ s, (s, r).

(** Dereferencing a gate; a reference to no object cannot be built in Python
    and is reported as an [AttributeError]. *)
Definition deref (a : addr) : M Gate.t :=
  λ s, match gates (world s) !! a with
       | Some g => (s, Ok g)
       | None => (s, Raise (AttributeError "no such object"))
       end.

Definition store (a : addr) (g : Gate.t) : M unit :=
  modify_world (λ w, with_gates (<[a := g]> (gates w)) w).

(** Creating a gate object at a fresh address. *)
Definition alloc (g : Gate.t) : M addr :=
  λ s, let a := fresh (dom (gates (world s))) in
       ({| self := self s;
           world := with_gates (<[a := g]> (gates (world s))) (world s) |},
        Ok a).

(** [for x in xs: body(x)] *)
Fixpoint for_each {A} (xs : list A) (body : A → M unit) : M unit :=
  match xs with
  | [] => ret tt
  | x :: xs' => body x ;;; for_each xs' body
  end.

(** [acc = f(acc, x) for x in xs], for a local variable [acc]. *)
Fixpoint fold_m {A B} (f : B → A → M B) (xs : list A) (acc : B) : M B :=
  match xs with
  | [] => ret acc
  | x :: xs' => let* acc' := f acc x in fold_m f xs' acc'
  end.

(** ** Values passed as [initial_state] *)

Inductive pyval : Type :=
| PyNone
| PyTensor (x : tensor)                (* of one of [K.tensor_types] *)
| PyObject (shape_attr : option (list nat)) (as_tensor : option tensor).
  (* any other object: its [.shape] attribute if it has one, and the tensor
     the backend converts it to if it can *)

(** ** Construction *)

(** Modelled from the spec: [AbstractCircuit.__init__] is not in the sources;
    the spec's data model gives a circuit a fixed qubit count, an empty queue,
    no measurement gate, no compiled handle and no final state. *)
Definition AbstractCircuit_init (cl : CircuitClass) (n : nat) : Circuit :=
  {| cls := cl; nqubits := n; queue := [];
     parametrized_gates := []; trainable_gates := [];
     measurement_gate := None; measurement_tuples := ∅;
     repeated_execution := false; density_matrix := false;
     fusion_groups := [];
     _compiled_execute := None; check_initial_state_shape := false;
     shapes := ∅; _final_state := None |}.

(** [Circuit.__init__]; the class is the one being instantiated. *)
Definition Circuit_init_as (cl : CircuitClass) (n : nat) : Circuit :=
  let c := AbstractCircuit_init cl n in
  let flat := [2 ^ n] in
  {| cls := cls c; nqubits := nqubits c; queue := queue c;
     parametrized_gates := parametrized_gates c;
     trainable_gates := trainable_gates c;
     measurement_gate := measurement_gate c;
     measurement_tuples := measurement_tuples c;
     repeated_execution := repeated_execution c;
     density_matrix := density_matrix c; fusion_groups := fusion_groups c;
     _compiled_execute := None;
     check_initial_state_shape := true;
     shapes := <["TENSOR_FLAT" := flat]>
                 (<["FLAT" := flat]> {["TENSOR" := replicate n 2]});
     _final_state := _final_state c |}.

Definition Circuit_init (n : nat) : Circuit := Circuit_init_as ClsCircuit n.

(** [DensityMatrixCircuit.__init__] *)
Definition DensityMatrixCircuit_init (n : nat) : Circuit :=
  let c := Circuit_init_as ClsDensityMatrixCircuit n in
  let flat := [2 ^ n; 2 ^ n] in
  {| cls := cls c; nqubits := nqubits c; queue := queue c;
     parametrized_gates := parametrized_gates c;
     trainable_gates := trainable_gates c;
     measurement_gate := measurement_gate c;
     measurement_tuples := measurement_tuples c;
     repeated_execution := repeated_execution c;
     density_matrix := true; fusion_groups := fusion_groups c;
     _compiled_execute := _compiled_execute c;
     check_initial_state_shape := check_initial_state_shape c;
     shapes := <["TENSOR_FLAT" := flat]>
                 (<["FLAT" := flat]>
                    (<["VECTOR" := [2 ^ n]]>
                       {["TENSOR" := replicate (2 * n) 2]}));
     _final_state := _final_state c |}.

(** A new circuit of the class of [self], built from its [init_kwargs]. *)
Definition new_of_class (cl : CircuitClass) (n : nat) : Circuit :=
  match cl with
  | ClsCircuit => Circuit_init n
  | ClsDensityMatrixCircuit => DensityMatrixCircuit_init n
  end.

(** ** Queue management *)

Definition set_nqubits (gate : addr) : M unit :=
  let* c := get_self in
  let* g := deref gate in
  if Gate.is_prepared g && negb (bool_decide (Gate.nqubits g = Some (nqubits c)))
  then raise (RuntimeError
         "Cannot add gate {} that acts on {} qubits to circuit that contains {}qubits.")
  else store gate (Gate.prepare (Gate.set_nqubits (nqubits c) g)).

Definition queue_append (gate : addr) : M unit :=
  modify_self (λ c, with_queue (queue c ++ [gate]) c).

Definition _add_layer (gate : addr) : M unit :=
  let* g := deref gate in
  store gate (Gate.prepare g) ;;;
  let* g := deref gate in
  for_each (Gate.unitaries g)
    (λ unitary, set_nqubits unitary ;;; queue_append unitary) ;;;
  let* g := deref gate in
  match Gate.additional_unitary g with
  | Some u => set_nqubits u ;;; queue_append u
  | None => ret tt
  end.

(** Modelled from the spec: [AbstractCircuit.add] is not in the sources; for a
    plain gate the spec has it fix the gate's qubit count to the circuit's
    (failing on a gate prepared for another count) and then append the gate,
    which is what [_add_layer] does for each unitary of a layer. *)
Definition add (gate : addr) : M unit :=
  set_nqubits gate ;;; queue_append gate.

(** [copy.copy(gate)]: a new object with the same attribute values. *)
Definition copy_copy (gate : addr) : M addr :=
  let* g := deref gate in alloc g.

(** The body of the loop of [_fuse_copy], for one gate of the queue. *)
Definition _fuse_copy_gate (new_circuit : Circuit) (gate : addr) : M Circuit :=
  let* g := deref gate in
  if Gate.is_parametrized g then
    if Gate.trainable g then
      let* new_gate := copy_copy gate in
      ret (with_trainable_gates (trainable_gates new_circuit ++ [new_gate])
             (with_parametrized_gates
                (parametrized_gates new_circuit ++ [new_gate])
                (with_queue (queue new_circuit ++ [new_gate]) new_circuit)))
    else
      ret (with_parametrized_gates
             (parametrized_gates new_circuit ++ [gate])
             (with_queue (queue new_circuit ++ [gate]) new_circuit))
  else
    ret (with_queue (queue new_circuit ++ [gate]) new_circuit).

Definition _fuse_copy : M Circuit :=
  let* c := get_self in
  let new_circuit := new_of_class (cls c) (nqubits c) in
  let* new_circuit := fold_m _fuse_copy_gate (queue c) new_circuit in
  let* m :=
    match measurement_gate c with
    | Some m => let* m' := copy_copy m in ret (Some m')
    | None => ret None
    end in
  ret (with_measurement m (measurement_tuples c) new_circuit).

(** ** Execution *)

(** [gate(state)] *)
Definition call_gate (gate : addr) (state : tensor) : M tensor :=
  let* g := deref gate in
  λ s, let '(e, r) := Gate.call g state (env (world s)) in
       ({| self := self s; world := with_env e (world s) |}, r).

(** [gate(state, nshots)] for a measurement gate: a [GateResult]. *)
Definition call_measurement (gate : addr) (state : tensor) (nshots : Z)
    : M GateResult :=
  let* g := deref gate in
  λ s, let '(e, r) := Gate.sample g state nshots (env (world s)) in
       ({| self := self s; world := with_env e (world s) |},
        match r with
        | Ok samples =>
            Ok {| gr_qubits := Gate.qubits g; decimal_samples := samples |}
        | Raise e => Raise e
        end).

(** [result[0]]: the first sample, a scalar. *)
Definition getitem0 (r : GateResult) : result tensor :=
  match data (decimal_samples r) with
  | x :: _ => Ok {| dtype := dtype (decimal_samples r); shape := []; data := [x] |}
  | [] => Raise (IndexError "index 0 is out of bounds")
  end.

Definition _eager_execute (state : tensor) : M tensor :=
  let* c := get_self in
  fold_m (λ state gate, call_gate gate state) (queue c) state.

(** The body of the loop of [_execute_for_compile], for one gate. *)
Definition _execute_for_compile_gate
    (acc : tensor * gmap addr (list tensor)) (gate : addr)
    : M (tensor * gmap addr (list tensor)) :=
  let '(state, callback_results) := acc in
  let* g := deref gate in
  if Gate.is_callback_gate g then
    match Gate.callback g with
    | Some cb =>
        let value := Gate.observe g state in
        match callback_results !! cb with
        | Some l => ret (state, <[cb := l ++ [value]]> callback_results)
        | None => raise (KeyError "callback")
        end
    | None => raise (AttributeError "callback")
    end
  else
    let* state' := call_gate gate state in
    ret (state', callback_results).

(** One step of the comprehension that builds [callback_results]: an empty
    list for the callback of every gate that has one. *)
Definition _callback_results_gate (d : gmap addr (list tensor)) (gate : addr)
    : M (gmap addr (list tensor)) :=
  let* g := deref gate in
  match Gate.callback g with
  | Some cb => ret (<[cb := []]> d)
  | None => ret d
  end.

Definition _execute_for_compile (state : tensor)
    : M (tensor * gmap addr (list tensor)) :=
  let* c := get_self in
  let* callback_results := fold_m _callback_results_gate (queue c) ∅ in
  fold_m _execute_for_compile_gate (queue c) (state, callback_results).

Definition compile (B : K.Backend) : M unit :=
  let* c := get_self in
  if bool_decide (_compiled_execute c ≠ None)
  then raise (RuntimeError "Circuit is already compiled.")
  else if bool_decide (queue c = [])
  then raise (RuntimeError "Cannot compile circuit without gates.")
  else if K.custom_gates B
  then raise (RuntimeError "Cannot compile circuit that uses custom operators.")
  else modify_self (with_compiled_execute (Some tt)).

(** [K.reshape(state, self.shapes.get(key))] *)
Definition reshape_to (key : string) (state : tensor) : M tensor :=
  let* c := get_self in
  match shapes c !! key with
  | Some sh => lift (K.reshape state sh)
  | None => raise (TypeError "shape must not be None")
  end.

(** [callback.extend(results)] for every item of [callback_results] *)
Definition extend_callbacks (callback_results : gmap addr (list tensor))
    : M unit :=
  modify_world (λ w,
    with_env {| rng := rng (env w);
                callbacks := union_with (λ old new, Some (old ++ new))
                               (callbacks (env w)) callback_results |} w).

Definition Circuit_cast_initial_state (state : pyval) : M tensor :=
  match state with
  | PyTensor x => ret (K.cast x DTYPECPX)
  | _ => raise (TypeError "Initial state type {} is not recognized.")
  end.

Definition DensityMatrixCircuit_cast_initial_state (state : pyval) : M tensor :=
  let* sh :=
    match state with
    | PyTensor x => ret (shape x)
    | PyObject (Some sh) _ => ret sh
    | PyObject None _ => raise (AttributeError "object has no attribute 'shape'")
    | PyNone => raise (AttributeError "'NoneType' object has no attribute 'shape'")
    end in
  let* c := get_self in
  let* vector :=
    match shapes c !! "VECTOR" with
    | Some v => ret v
    | None => raise (KeyError "VECTOR")
    end in
  if bool_decide (sh = vector) then
    match state with
    | PyTensor x | PyObject _ (Some x) =>
        Circuit_cast_initial_state (PyTensor (K.outer x (K.conj x)))
    | _ => raise (TypeError "cannot convert to a tensor")
    end
  else Circuit_cast_initial_state state.

(** [self._cast_initial_state(state)], dispatched on the class of [self]. *)
Definition _cast_initial_state (state : pyval) : M tensor :=
  let* c := get_self in
  match cls c with
  | ClsCircuit => Circuit_cast_initial_state state
  | ClsDensityMatrixCircuit => DensityMatrixCircuit_cast_initial_state state
  end.

Definition is_DensityMatrixCircuit (c : Circuit) : bool :=
  match cls c with ClsDensityMatrixCircuit => true | ClsCircuit => false end.

Definition get_initial_state (state : pyval) : M tensor :=
  let* c := get_self in
  match state with
  | PyNone =>
      let is_matrix := is_DensityMatrixCircuit c in
      ret (K.initial_state (nqubits c) is_matrix)
  | _ =>
      let* state := _cast_initial_state state in
      let* c := get_self in
      if check_initial_state_shape c then
        if bool_decide (Some (shape state) ≠ shapes c !! "FLAT")
        then raise (ValueError
               "Invalid initial state shape {} for circuit with {} qubits.")
        else ret state
      else ret state
  end.

Definition _execute (B : K.Backend) (initial_state : pyval) : M tensor :=
  modify_self (with_final_state None) ;;;
  let* state := get_initial_state initial_state in
  let* state :=
    if negb (K.custom_gates B) then reshape_to "TENSOR" state else ret state in
  let* c := get_self in
  let* state :=
    match _compiled_execute c with
    | None => _eager_execute state
    | Some _ =>
        let* r := _execute_for_compile state in
        extend_callbacks r.2 ;;;
        ret r.1
    end in
  let* state :=
    if negb (K.custom_gates B) then reshape_to "TENSOR_FLAT" state
    else ret state in
  modify_self (with_final_state (Some state)) ;;;
  ret state.

(** [try: body except K.oom_error: handler] *)
Definition except_oom {A} (body : M A) (handler : M A) : M A :=
  λ s, match body s with
       | (s', Raise e) => if is_oom_error e then handler s' else (s', Raise e)
       | r => r
       end.

Definition _device_execute (B : K.Backend) (initial_state : pyval) : M tensor :=
  except_oom (_execute B initial_state)
    (raise (RuntimeError
       "State does not fit in {device} memory.Please switch the execution device to a different one using ``qibo.set_device``.")).

(** The loop of [_repeated_execute]: [for _ in range(nreps)]. *)
Fixpoint repeated_shots (B : K.Backend) (nreps : nat) (initial_state : pyval)
    (results : list tensor) : M (list tensor) :=
  match nreps with
  | O => ret results
  | S n =>
      let* state := _device_execute B initial_state in
      let* c := get_self in
      let* r :=
        match measurement_gate c with
        | Some m =>
            let* res := call_measurement m state 1 in
            lift (getitem0 res)
        | None => ret (K.copy state)
        end in
      repeated_shots B n initial_state (results ++ [r])
  end.

Definition _repeated_execute (B : K.Backend) (nreps : Z) (initial_state : pyval)
    : M ExecResult :=
  let* results := repeated_shots B (Z.to_nat nreps) initial_state [] in
  let* results := lift (K.stack B results) in
  let* c := get_self in
  match measurement_gate c with
  | None => ret (RState results)
  | Some m =>
      let* g := deref m in
      let mgate_result :=
        {| gr_qubits := Gate.qubits g; decimal_samples := results |} in
      ret (RResult {| register_qubits := measurement_tuples c;
                      measurement_gate_result := mgate_result |})
  end.

Definition execute (B : K.Backend) (initial_state : pyval) (nshots : option Z)
    : M ExecResult :=
  let standard : M ExecResult :=
    let* state := _device_execute B initial_state in
    let* c := get_self in
    match measurement_gate c, nshots with
    | Some m, Some n =>
        let* mgate_result := call_measurement m state n in
        let* c := get_self in
        ret (RResult {| register_qubits := measurement_tuples c;
                        measurement_gate_result := mgate_result |})
    | _, _ => ret (RState state)
    end in
  let* c := get_self in
  match nshots with
  | Some n =>
      if repeated_execution c then
        modify_self (with_final_state None) ;;;
        _repeated_execute B n initial_state
      else standard
  | None => standard
  end.

(** The [final_state] property. *)
Definition final_state : M tensor :=
  let* c := get_self in
  match _final_state c with
  | None => raise (RuntimeError
              "Cannot access final state before the circuit is executed.")
  | Some state => ret state
  end.

(** ** Fusion *)

Fixpoint map_m {A B} (f : A → M B) (xs : list A) : M (list B) :=
  match xs with
  | [] => ret []
  | x :: xs' => let* y := f x in let* ys := map_m f xs' in ret (y :: ys)
  end.

(** A gate that fusion can absorb: its matrix form is known and it touches at
    most two qubits; callback gates are never absorbed. *)
Definition fusable (g : Gate.t) : bool :=
  match Gate.matrix g with
  | Some _ => negb (Gate.is_callback_gate g)
              && bool_decide (length (Gate.qubits g) ≤ 2)
  | None => false
  end.

(** A run of the scan: either gates to fuse, with the qubits they touch, or a
    gate kept as it is. *)
Inductive Run : Type :=
| Fuse (members : list (addr * Gate.t)) (qs : list nat)
| Keep (member : addr * Gate.t).

Definition close_run (cur : list (addr * Gate.t)) (qs : list nat) : list Run :=
  match cur with [] => [] | _ => [Fuse cur qs] end.

(** Modelled from the spec: [FusionGroup.from_queue] ([qibo.core.fusion]) is
    not in the sources. The spec's scan is greedy and left to right: the
    current group is extended with the next gate while the union of the qubits
    touched stays within two qubits, and is closed, a new one starting, once
    the next gate would exceed two qubits; a gate that cannot be absorbed
    closes the current group. *)
Fixpoint scan (cur : list (addr * Gate.t)) (qs : list nat)
    (rest : list (addr * Gate.t)) : list Run :=
  match rest with
  | [] => close_run cur qs
  | ag :: rest' =>
      if fusable ag.2 then
        let qs' := list_union qs (Gate.qubits ag.2) in
        if bool_decide (length qs' ≤ 2)
        then scan (cur ++ [ag]) qs' rest'
        else close_run cur qs ++ scan [ag] (Gate.qubits ag.2) rest'
      else close_run cur qs ++ Keep ag :: scan [] [] rest'
  end.

(** Modelled from the spec: a group's dense action is the composition of its
    gates' matrices in application order. *)
Definition compose_matrices (ms : list Matrix) : Matrix :=
  foldl (λ (acc : Matrix) (m : Matrix), λ state, m (acc state)) (λ state, state) ms.

Definition matrix_or_id (g : Gate.t) : Matrix :=
  match Gate.matrix g with Some m => m | None => λ state, state end.

(** Modelled from the spec: the synthetic unitary gate that replaces a group;
    it acts on the group's qubits with the group's dense action. *)
Definition Unitary (m : Matrix) (qs : list nat) (n : option nat) : Gate.t :=
  {| Gate.is_parametrized := false; Gate.trainable := false;
     Gate.parameters := None; Gate.is_prepared := true;
     Gate.nqubits := n; Gate.qubits := qs; Gate.matrix := Some m;
     Gate.is_callback_gate := false; Gate.callback := None;
     Gate.observe := λ state, state; Gate.unitaries := [];
     Gate.additional_unitary := None;
     Gate.call := λ state e, (e, Ok (m state));
     Gate.sample := λ _ _ e, (e, Raise (TypeError "not a measurement gate")) |}.

Definition build_group (r : Run) : M FusionGroup :=
  match r with
  | Fuse members qs =>
      let m := compose_matrices (matrix_or_id <$> members.*2) in
      let n := head members ≫= (λ ag, Gate.nqubits ag.2) in
      let* u := alloc (Unitary m qs n) in
      ret {| fg_absorbed := members.*1; fg_qubits := qs; fg_gates := [u] |}
  | Keep ag =>
      ret {| fg_absorbed := [ag.1]; fg_qubits := Gate.qubits ag.2;
             fg_gates := [ag.1] |}
  end.

Definition from_queue (queue : list addr) : M (list FusionGroup) :=
  let* gs := map_m deref queue in
  map_m build_group (scan [] [] (zip queue gs)).

Definition fuse : M Circuit :=
  let* new_circuit := _fuse_copy in
  let* groups := from_queue (queue new_circuit) in
  let new_circuit := with_fusion_groups groups new_circuit in
  let new_circuit := with_queue [] new_circuit in
  ret (foldl (λ nc group,
               foldl (λ nc gate, with_queue (queue nc ++ [gate]) nc)
                     nc (fg_gates group))
             new_circuit groups).

(** ** Predicates used in the statements *)

(** The attributes the constructors fix and no method changes: the shape
    descriptors of the class and the shape check. *)
Definition well_formed (c : Circuit) : Prop :=
  shapes c = shapes (new_of_class (cls c) (nqubits c))
  ∧ check_initial_state_shape c = true.

(** The part of [_execute] between the reset of [_final_state] and its final
    assignment: resolving the initial state and applying the queue. *)
Definition apply_queue (B : K.Backend) (initial_state : pyval) : M tensor :=
  let* state := get_initial_state initial_state in
  let* state :=
    if negb (K.custom_gates B) then reshape_to "TENSOR" state else ret state in
  let* c := get_self in
  let* state :=
    match _compiled_execute c with
    | None => _eager_execute state
    | Some _ =>
        let* r := _execute_for_compile state in
        extend_callbacks r.2 ;;;
        ret r.1
    end in
  if negb (K.custom_gates B) then reshape_to "TENSOR_FLAT" state
  else ret state.

(** [keeps proj m]: running [m] does not change the part [proj] of the
    state, whether it returns or raises. *)
Definition keeps {A X} (proj : St → X) (m : M A) : Prop :=
  ∀ st, proj (m st).1 = proj st.

Abbreviation keeps_self := (keeps self).
Abbreviation keeps_gates := (keeps (λ st, gates (world st))).
Abbreviation keeps_final := (keeps (λ st, _final_state (self st))).

(** A state-vector circuit, and a density-matrix circuit. *)
Definition state_vector_circuit (c : Circuit) : Prop :=
  cls c = ClsCircuit ∧ well_formed c.
Definition density_matrix_circuit (c : Circuit) : Prop :=
  cls c = ClsDensityMatrixCircuit ∧ well_formed c.

(** The queue invariant: every gate in the queue of [c] is an object of the
    store, prepared, with the qubit count of [c]. *)
Definition queue_prepared (c : Circuit) (w : World) : Prop :=
  ∀ a, a ∈ queue c →
    ∃ g, gates w !! a = Some g
         ∧ Gate.is_prepared g = true
         ∧ Gate.nqubits g = Some (nqubits c).

(** A change of the store under which every circuit keeps its queue
    invariant. *)
Definition store_ok (w w' : World) : Prop :=
  ∀ c, queue_prepared c w → queue_prepared c w'.

(** The store only grows: every object of [w] is in [w'] unchanged, and
    nothing else of the world differs. *)
Definition extends (w w' : World) : Prop :=
  gates w ⊆ gates w' ∧ tensors w' = tensors w ∧ env w' = env w.

(** Every reference held by the circuit is to an object of the store. *)
Definition live (c : Circuit) (w : World) : Prop :=
  (∀ a, a ∈ queue c → is_Some (gates w !! a))
  ∧ (∀ m, measurement_gate c = Some m → is_Some (gates w !! m)).

(** How [_fuse_copy] relates a gate [a] of the original queue to the gate
    [a'] at the same place in the copy's queue: a trainable parametrized gate
    is a new object with the attribute values of [a]; any other gate is [a]
    itself. *)
Definition copied_gate (w w' : World) (a a' : addr) : Prop :=
  ∃ g, gates w !! a = Some g
       ∧ if Gate.is_parametrized g && Gate.trainable g
         then (a' ∉ dom (gates w)) ∧ gates w' !! a' = Some g
         else a' = a.

(** The parameter tensor seen through the gate at [a]. *)
Definition parameter_tensor (w : World) (a : addr) : option tensor :=
  g ← gates w !! a; p ← Gate.parameters g; tensors w !! p.

(** Assigning in place to the parameter tensor of the gate at [a], as
    [gate.parameters.assign(x)] does for a tensorflow variable. *)
Definition assign_in_place (a : addr) (x : tensor) (w : World) : World :=
  match (gates w !! a) ≫= Gate.parameters with
  | Some p => with_tensors (<[p := x]> (tensors w)) w
  | None => w
  end.

(** The gate application contract of the backend: a gate returns a state of
    the shape it was given. *)
Definition shape_preserving (w : World) (q : list addr) : Prop :=
  ∀ a g, a ∈ q → gates w !! a = Some g →
    ∀ s e s' e', Gate.call g s e = (e', Ok s') → shape s' = shape s.

(** Gates that always return, with a state of the shape and size given. *)
Definition gates_total (w : World) (q : list addr) : Prop :=
  ∀ a, a ∈ q →
    ∃ g, gates w !! a = Some g
         ∧ (Gate.is_callback_gate g = true → is_Some (Gate.callback g))
         ∧ ∀ s e, ∃ e' s', Gate.call g s e = (e', Ok s')
                           ∧ shape s' = shape s
                           ∧ length (data s') = length (data s).

(** A measurement gate that always returns at least one sample when asked
    for one shot. *)
Definition measurement_total (w : World) (c : Circuit) : Prop :=
  ∀ m, measurement_gate c = Some m →
    ∃ g, gates w !! m = Some g
         ∧ ∀ s e, ∃ e' t, Gate.sample g s 1 e = (e', Ok t) ∧ data t ≠ [].

(** A valid initial state of a state-vector circuit: none, or a tensor of
    [2^n] amplitudes of shape [(2^n,)]. *)
Definition valid_initial_state (c : Circuit) (i : pyval) : Prop :=
  i = PyNone
  ∨ ∃ x, i = PyTensor x ∧ shape x = [2 ^ nqubits c]
         ∧ length (data x) = 2 ^ nqubits c.

(** A state-vector circuit in the repeated-execution mode whose gates and
    measurement gate always return, given a valid initial state. *)
Definition ready (i : pyval) (st : St) : Prop :=
  state_vector_circuit (self st)
  ∧ valid_initial_state (self st) i
  ∧ gates_total (world st) (queue (self st))
  ∧ measurement_total (world st) (self st).

(** What one shot of [_repeated_execute] appends to [results]. *)
Definition record_shot (state : tensor) : M tensor :=
  let* c := get_self in
  match measurement_gate c with
  | Some m =>
      let* res := call_measurement m state 1 in
      lift (getitem0 res)
  | None => ret (K.copy state)
  end.

(** [shots B i st ss rs st']: from [st], one complete execution of the queue
    after the other, each started from the initial state [i], gives the final
    states [ss] and the recorded results [rs], and ends in [st']. *)
Inductive shots (B : K.Backend) (i : pyval)
    : St → list tensor → list tensor → St → Prop :=
| shots_nil st : shots B i st [] [] st
| shots_cons st st1 st2 st3 s r ss rs :
    _device_execute B i st = (st1, Ok s) →
    record_shot s st1 = (st2, Ok r) →
    shots B i st2 ss rs st3 →
    shots B i st (s :: ss) (r :: rs) st3.

(** The number of runs of the queue that [execute(initial_state, nshots)]
    asks for: [nshots] of them in the repeated-execution mode, none when
    [nshots] is not positive since [range(nshots)] is then empty; a single
    one otherwise. *)
Definition requested_runs (nshots : option Z) (c : Circuit) : nat :=
  match nshots with
  | Some n => if repeated_execution c then Z.to_nat n else 1
  | None => 1
  end.

(** [nth_run B i st k st1 r]: starting from [st], after [k] complete
    executions of the queue, each on the initial state [i] and each followed
    by the recording of its shot, the next run of the queue on [i] has the
    outcome [r] and leaves the state [st1]. *)
Definition nth_run (B : K.Backend) (i : pyval) (st : St) (k : nat)
    (st1 : St) (r : result tensor) : Prop :=
  ∃ ss rs st0, length ss = k ∧ shots B i st ss rs st0
               ∧ _device_execute B i st0 = (st1, r).

(** After the call [execute(i, nshots)] made in [st], the stored final state
    of [st'] is unset, or it is the state returned by one of the runs of
    the queue of this circuit that the call made, a run that went through
    the whole queue, and the circuit is as that run left it. *)
Definition unset_or_complete (B : K.Backend) (i : pyval) (nshots : option Z)
    (st st' : St) : Prop :=
  _final_state (self st') = None
  ∨ ∃ k st1 s, k < requested_runs nshots (self st)
               ∧ nth_run B i st k st1 (Ok s)
               ∧ self st' = self st1
               ∧ _final_state (self st') = Some s.

(** ** Sample gates and circuits *)

Module Examples.

(** A plain gate, not yet added to a circuit. *)
Definition plain_gate (qs : list nat) (m : option Matrix)
    (call : tensor → Env → Env * result tensor) : Gate.t :=
  {| Gate.is_parametrized := false; Gate.trainable := false;
     Gate.parameters := None; Gate.is_prepared := false;
     Gate.nqubits := None; Gate.qubits := qs; Gate.matrix := m;
     Gate.is_callback_gate := false; Gate.callback := None;
     Gate.observe := λ state, state; Gate.unitaries := [];
     Gate.additional_unitary := None;
     Gate.call := call;
     Gate.sample := λ _ _ e, (e, Raise (TypeError "not a measurement gate")) |}.

(** The Pauli X gate on the only qubit of a one-qubit circuit swaps the two
    amplitudes. *)
Definition flip : Matrix :=
  λ x, {| dtype := dtype x; shape := shape x; data := reverse (data x) |}.

Definition X_gate : Gate.t :=
  plain_gate [0] (Some flip) (λ state e, (e, Ok (flip state))).

(** A gate that raises on a state whose first amplitude is zero. *)
Definition picky_gate : Gate.t :=
  plain_gate [0] None
    (λ state e,
       match data state with
       | (0%Z, 0%Z) :: _ => (e, Raise (ValueError "first amplitude is zero"))
       | _ => (e, Ok state)
       end).

(** A bit-flip channel: flips when the random source says so, and advances
    it. *)
Definition noise_gate : Gate.t :=
  plain_gate [0] None
    (λ state e,
       ({| rng := rng e + 1; callbacks := callbacks e |},
        Ok (if N.even (rng e) then state else flip state))).

(** A measurement gate on qubit 0: [nshots] samples, advancing the random
    source. *)
Definition M_gate : Gate.t :=
  {| Gate.is_parametrized := false; Gate.trainable := false;
     Gate.parameters := None; Gate.is_prepared := true;
     Gate.nqubits := Some 1; Gate.qubits := [0]; Gate.matrix := None;
     Gate.is_callback_gate := false; Gate.callback := None;
     Gate.observe := λ state, state; Gate.unitaries := [];
     Gate.additional_unitary := None;
     Gate.call := λ state e, (e, Ok state);
     Gate.sample := λ state nshots e,
       ({| rng := rng e + 1; callbacks := callbacks e |},
        Ok {| dtype := DTYPEINT; shape := [Z.to_nat nshots];
              data := replicate (Z.to_nat nshots)
                        (Z.of_N (rng e `mod` 2), 0%Z) |}) |}.

(** A trainable parametrized rotation whose parameter tensor is the object
    at address 9. *)
Definition RX_gate : Gate.t :=
  {| Gate.is_parametrized := true; Gate.trainable := true;
     Gate.parameters := Some 9%positive; Gate.is_prepared := false;
     Gate.nqubits := None; Gate.qubits := [0]; Gate.matrix := Some flip;
     Gate.is_callback_gate := false; Gate.callback := None;
     Gate.observe := λ state, state; Gate.unitaries := [];
     Gate.additional_unitary := None;
     Gate.call := λ state e, (e, Ok (flip state));
     Gate.sample := λ _ _ e, (e, Raise (TypeError "not a measurement gate")) |}.

Definition theta : tensor :=
  {| dtype := DTYPE; shape := [1]; data := [(3%Z, 0%Z)] |}.

Definition env0 : Env := {| rng := 0; callbacks := ∅ |}.

(** A store with an X gate (1), a picky gate (2), a channel (3), a measurement
    gate (4) and a trainable rotation (5) with its parameter tensor (9). *)
Definition world0 : World :=
  {| gates := <[1%positive := X_gate]> (<[2%positive := picky_gate]>
              (<[3%positive := noise_gate]> (<[4%positive := M_gate]>
              {[5%positive := RX_gate]})));
     tensors := {[9%positive := theta]};
     env := env0 |}.

Definition run {A} (m : M A) (c : Circuit) (w : World) : St * result A :=
  m {| self := c; world := w |}.

(** A one-qubit circuit with the gates [X], [picky]. *)
Definition st_Xp : St :=
  (add 2%positive (add 1%positive {| self := Circuit_init 1; world := world0 |}).1).1.

(** A one-qubit circuit with the trainable rotation and the X gate. *)
Definition st_RX : St :=
  (add 1%positive (add 5%positive {| self := Circuit_init 1; world := world0 |}).1).1.

(** A one-qubit circuit with the bit-flip channel; adding a channel to a
    state-vector circuit switches [repeated_execution] on. *)
Definition noisy_circuit (m : option addr) : Circuit :=
  let c := Circuit_init 1 in
  {| cls := cls c; nqubits := nqubits c; queue := queue c;
     parametrized_gates := parametrized_gates c;
     trainable_gates := trainable_gates c;
     measurement_gate := m;
     measurement_tuples := match m with
                           | Some _ => {["register0" := [0]]}
                           | None => ∅
                           end;
     repeated_execution := true;
     density_matrix := density_matrix c; fusion_groups := fusion_groups c;
     _compiled_execute := _compiled_execute c;
     check_initial_state_shape := check_initial_state_shape c;
     shapes := shapes c; _final_state := _final_state c |}.

Definition st_noise : St :=
  (add 3%positive {| self := noisy_circuit None; world := world0 |}).1.

(** The same circuit with the measurement gate. *)
Definition st_noise_M : St :=
  (add 3%positive {| self := noisy_circuit (Some 4%positive);
                     world := world0 |}).1.

(** The amplitude vectors of |0> and |1>. *)
Definition ket0 : tensor :=
  {| dtype := DTYPECPX; shape := [2]; data := [c1; c0] |}.
Definition ket1 : tensor :=
  {| dtype := DTYPECPX; shape := [2]; data := [c0; c1] |}.

End Examples.

(** ** Further predicates *)

(** The test of [set_nqubits]: a gate already prepared for another number of
    qubits than [n] is refused. *)
Definition refused_gate (n : nat) (g : Gate.t) : bool :=
  Gate.is_prepared g && negb (bool_decide (Gate.nqubits g = Some n)).

(** The same test for a reference; a reference to no object of the store is
    refused as well. *)
Definition refused (n : nat) (w : World) (a : addr) : bool :=
  match gates w !! a with
  | Some g => refused_gate n g
  | None => true
  end.

(** [isinstance(gate, ParametrizedGate)] and [gate.trainable] for the gate
    object at a reference. *)
Definition is_parametrized_at (w : World) (a : addr) : bool :=
  match gates w !! a with
  | Some g => Gate.is_parametrized g
  | None => false
  end.

Definition is_trainable_at (w : World) (a : addr) : bool :=
  match gates w !! a with
  | Some g => Gate.is_parametrized g && Gate.trainable g
  | None => false
  end.

(** What [set_nqubits] does to the store: an object is left as it is, or was
    not refused and is now prepared for [n] qubits. *)
Definition sized (n : nat) (w w' : World) : Prop :=
  ∀ a, gates w' !! a = gates w !! a
       ∨ ∃ g, gates w !! a = Some g ∧ refused_gate n g = false
              ∧ gates w' !! a = Some (Gate.prepare (Gate.set_nqubits n g)).

(** The gates that a layer adds, in the order of [_add_layer]. *)
Definition layer_unitaries (g : Gate.t) : list addr :=
  Gate.unitaries g ++ option_list (Gate.additional_unitary g).

(** The gates of the queue are objects of the store, and none is a callback
    gate or carries a callback. *)
Definition no_callbacks (c : Circuit) (w : World) : Prop :=
  ∀ a, a ∈ queue c →
    ∃ g, gates w !! a = Some g
         ∧ Gate.is_callback_gate g = false ∧ Gate.callback g = None.

(** ** Further sample gates *)

Module MoreExamples.

Import Examples.

(** A gate whose application exhausts the memory of the device. *)
Definition oom_gate : Gate.t :=
  plain_gate [0] None
    (λ state e, (e, Raise (ResourceExhaustedError "OOM when allocating tensor"))).

(** A measurement gate whose sampling exhausts the memory of the device. *)
Definition oom_M_gate : Gate.t :=
  {| Gate.is_parametrized := false; Gate.trainable := false;
     Gate.parameters := None; Gate.is_prepared := true;
     Gate.nqubits := Some 1; Gate.qubits := [0]; Gate.matrix := None;
     Gate.is_callback_gate := false; Gate.callback := None;
     Gate.observe := λ state, state; Gate.unitaries := [];
     Gate.additional_unitary := None;
     Gate.call := λ state e, (e, Ok state);
     Gate.sample := λ _ _ e,
       (e, Raise (ResourceExhaustedError "OOM when allocating tensor")) |}.

(** A store with an X gate (1), a gate that runs out of memory (2), and a
    measurement gate that runs out of memory (3). *)
Definition world_oom : World :=
  {| gates := <[1%positive := X_gate]> (<[2%positive := oom_gate]>
              {[3%positive := oom_M_gate]});
     tensors := ∅;
     env := env0 |}.

(** The one-qubit circuit [X; oom]. *)
Definition st_oom : St :=
  (add 2%positive
     (add 1%positive {| self := Circuit_init 1; world := world_oom |}).1).1.

(** The one-qubit circuit [X] with the measurement gate that runs out of
    memory. *)
Definition st_oom_M : St :=
  (add 1%positive
     {| self := with_measurement (Some 3%positive) {["register0" := [0]]}
                  (Circuit_init 1);
        world := world_oom |}).1.

(** A layer of gates (as a variational layer is): its unitaries are the X
    gate (1), the measurement gate (4), which is prepared for one qubit, and
    the picky gate (2); it has no additional unitary. *)
Definition layer_gate : Gate.t :=
  {| Gate.is_parametrized := false; Gate.trainable := false;
     Gate.parameters := None; Gate.is_prepared := false;
     Gate.nqubits := None; Gate.qubits := [0; 1]; Gate.matrix := None;
     Gate.is_callback_gate := false; Gate.callback := None;
     Gate.observe := λ state, state;
     Gate.unitaries := [1%positive; 4%positive; 2%positive];
     Gate.additional_unitary := None;
     Gate.call := λ state e, (e, Ok state);
     Gate.sample := λ _ _ e, (e, Raise (TypeError "not a measurement gate")) |}.

(** The store [world0] with the layer (6). *)
Definition world_layer : World :=
  with_gates (<[6%positive := layer_gate]> (gates world0)) world0.

End MoreExamples.

(** * Index helpers of the tomography and of the double-bracket utilities

    A shallow embedding of the functions of
    [src/qibo/tomography/gate_set_tomography.py] and
    [src/qibo/models/dbi/utils.py] that build lists of gates, bases,
    observables and operator indices from integer indices, with the Python
    built-ins they rest on. *)

From Stdlib Require Import Ascii Sorted.

Module Py.

Definition rbind {A B} (r : result A) (k : A → result B) : result B :=
  match r with
  | Ok a => k a
  | Raise e => Raise e
  end.

(** [list(range(n))] *)
Definition range (n : Z) : list nat := seq 0 (Z.to_nat n).

(** [range(a, b)] for [0 <= a] *)
Definition range2 (a b : Z) : list nat := seq (Z.to_nat a) (Z.to_nat (b - a)).

(** [enumerate(l)] *)
Definition enumerate {A} (l : list A) : list (nat * A) := imap (λ q x, (q, x)) l.

(** [l[k]] for a list and an integer: a negative index counts from the
    end. *)
Definition getitem {A} (l : list A) (k : Z) : result A :=
  let i := if (k <? 0)%Z then (k + Z.of_nat (length l))%Z else k in
  if (i <? 0)%Z then Raise (IndexError "list index out of range")
  else match l !! Z.to_nat i with
       | Some x => Ok x
       | None => Raise (IndexError "list index out of range")
       end.

(** The tuples of [itertools.product(pool, repeat=n)] in the order they are
    produced: nested loops over the pool, the last position advancing at
    every step. *)
Fixpoint product {A} (pool : list A) (n : nat) : list (list A) :=
  match n with
  | O => [[]]
  | S n' => x ← pool; (λ t, x :: t) <$> product pool n'
  end.

(** [list(itertools.product(pool, repeat=n))] *)
Definition product_repeat {A} (pool : list A) (n : Z)
    : result (list (list A)) :=
  if (n <? 0)%Z then Raise (ValueError "repeat argument cannot be negative")
  else Ok (product pool (Z.to_nat n)).

(** The tuples of [itertools.combinations(pool, r)] in the order they are
    produced: the subsequences of length [r], in lexicographic order of the
    positions. *)
Fixpoint combinations {A} (pool : list A) (r : nat) {struct pool}
    : list (list A) :=
  match r, pool with
  | O, _ => [[]]
  | S _, [] => []
  | S r', x :: pool' =>
      ((λ t, x :: t) <$> combinations pool' r') ++ combinations pool' r
  end.

End Py.

Module GST.

(** The gate classes and symbols the tomography uses. *)
Inductive GateClass : Type :=
  gates_I | gates_X | gates_Y | gates_Z | gates_H | gates_S.

Inductive Symbol : Type := symbols_I | symbols_Z.

(** [cls(q)]: a gate of a class on a qubit. *)
Record Gate : Type := { gate_class : GateClass; gate_qubit : nat }.

(** [gates.M(q, basis=b)] *)
Record Measurement : Type := { m_qubit : nat; m_basis : GateClass }.

(** A symbolic hamiltonian: [observable] is the product of the factors
    [symbol(q)], in the order they were multiplied in. *)
Record Observable : Type := {
  factors : list (Symbol * nat);
  obs_nqubits : Z
}.

(** [SymbolicHamiltonian(observable, nqubits=nqubits)]. The class is defined
    in [qibo.hamiltonians], which is not among the sources embedded here; of
    its constructor this models what [_get_observable] depends on: the setter
    of [nqubits] refuses a number of qubits below one with a [ValueError], and
    otherwise the hamiltonian holds the form and the number of qubits it was
    given. *)
Definition SymbolicHamiltonian (observable : list (Symbol * nat))
    (nqubits : Z) : result Observable :=
  if (nqubits <? 1)%Z
  then Raise (ValueError "nqubits must be a positive integer")
  else Ok {| factors := observable; obs_nqubits := nqubits |}.

Definition _gates (nqubits : Z) : result (list (list (list GateClass))) :=
  Py.product_repeat [[gates_I]; [gates_X]; [gates_H]; [gates_H; gates_S]]
    nqubits.

Definition _measurements (nqubits : Z) : result (list (list GateClass)) :=
  Py.product_repeat [gates_Z; gates_X; gates_Y; gates_Z] nqubits.

Definition _observables (nqubits : Z) : result (list (list Symbol)) :=
  Py.product_repeat [symbols_I; symbols_Z; symbols_Z; symbols_Z] nqubits.

Definition _get_observable (j nqubits : Z) : result Observable :=
  if bool_decide (j = 0%Z ∧ nqubits = 3%Z)
  then Raise (ValueError "Invalid parameters: j=0 and nqubits=3")
  else
    Py.rbind (_observables nqubits) (λ l,
    Py.rbind (Py.getitem l j) (λ observables,
    let observable :=
      foldl (λ acc (qo : nat * Symbol),
               match qo.2 with
               | symbols_I => acc
               | obs => acc ++ [(obs, qo.1)]
               end)
            [] (Py.enumerate observables) in
    SymbolicHamiltonian observable nqubits)).

Definition _prepare_state (k nqubits : Z) : result (list Gate) :=
  if negb (bool_decide (nqubits = 1%Z ∨ nqubits = 2%Z))
  then Raise (ValueError "nqubits needs to be either 1 or 2, but is {nqubits}.")
  else
    Py.rbind (_gates nqubits) (λ l,
    Py.rbind (Py.getitem l k) (λ gates,
    Ok (q ← seq 0 (length gates);
        gate ← default [] (gates !! q);
        [{| gate_class := gate; gate_qubit := q |}]))).

Definition _measurement_basis (j nqubits : Z) : result (list Measurement) :=
  if negb (bool_decide (nqubits = 1%Z ∨ nqubits = 2%Z))
  then Raise (ValueError
         "nqubits given as {nqubits}. nqubits needs to be either 1 or 2.")
  else
    Py.rbind (_measurements nqubits) (λ l,
    Py.rbind (Py.getitem l j) (λ measurements,
    Ok (q ← seq 0 (length measurements);
        basis ← option_list (measurements !! q);
        [{| m_qubit := q; m_basis := basis |}]))).

End GST.

Module DBI.

(** An operator index: a qubit (a Python int) or a tuple of qubits. *)
Inductive PauliIndex : Type :=
| Qubit (q : nat)
| Qubits (qs : list nat).

Definition generate_pauli_index (nqubits order : Z)
    : result (list PauliIndex) :=
  if bool_decide (order = 1%Z) then Ok (Qubit <$> Py.range nqubits)
  else if bool_decide (1 < order)%Z then
    let indices := Py.range nqubits in
    Ok ((Qubit <$> indices)
        ++ (i ← Py.range2 2 (order + 1);
            Qubits <$> Py.combinations indices i))
  else Raise (ValueError "Order must be a positive integer").

(** The product of the factors [symbol(qubit)] that [str_to_symbolic]
    builds, for a name over the Pauli letters. *)
Definition symbolic : Type := list (Ascii.ascii * nat).

Definition is_pauli_letter (c : Ascii.ascii) : bool :=
  bool_decide (c ∈ ["I"%char; "X"%char; "Y"%char; "Z"%char]).

Definition str_to_symbolic (name : string) : result symbolic :=
  foldl (λ tensor_op (qc : nat * Ascii.ascii),
           Py.rbind tensor_op (λ op,
             if is_pauli_letter qc.2 then Ok (op ++ [(qc.2, qc.1)])
             else Raise (AttributeError "module 'qibo.symbols' has no attribute")))
        (Ok []) (Py.enumerate (String.list_ascii_of_string name)).

(** The loop of [generate_Z_operators]; the dictionary holds, under each
    name, the symbolic operator whose dense matrix the code stores. *)
Definition generate_Z_operators_step (output_dict : result (gmap string symbolic))
    (zi_string_combination : list Ascii.ascii) : result (gmap string symbolic) :=
  Py.rbind output_dict (λ d,
    if bool_decide ("Z"%char ∈ zi_string_combination) then
      let op_name := String.string_of_list_ascii zi_string_combination in
      Py.rbind (str_to_symbolic op_name) (λ tensor_op,
        Ok (<[op_name := tensor_op]> d))
    else Ok d).

Definition generate_Z_operators (nqubits : Z)
    : result (gmap string symbolic) :=
  Py.rbind (Py.product_repeat ["Z"%char; "I"%char] nqubits)
    (λ combination_strings,
       foldl generate_Z_operators_step (Ok ∅) combination_strings).

End DBI.

(** ** Positions in a product *)

(** The position of the tuple whose entries are the pool's entries number
    [ds], in the product of a pool of [b] entries: [ds] read as a number in
    base [b], the first entry being the most significant digit. *)
Fixpoint index_of (b : nat) (ds : list nat) : nat :=
  match ds with
  | [] => 0
  | d :: ds' => d * b ^ length ds' + index_of b ds'
  end.

(** The positions, counted from [q], of the digits of [ds] that are not
    zero. *)
Fixpoint nonzero_positions (q : nat) (ds : list nat) : list nat :=
  match ds with
  | [] => []
  | d :: ds' =>
      (if decide (d = 0) then [] else [q]) ++ nonzero_positions (S q) ds'
  end.

(** * Running the gate set tomography

    A shallow embedding of [reset_register], [_expectation_value],
    [_gate_tomography] and [GST] of
    [src/qibo/tomography/gate_set_tomography.py]. The circuits, gates,
    backends and arrays they handle are objects of other modules: the calls
    on them are the fields of a library record, over any interpreter state
    and any objects, and each may return or raise. *)

Module GSTRun.

(** How a Python call ends: with a value, or with an exception of a class. *)
Inductive outcome (A : Type) : Type :=
| Returned (a : A)
| Raised (cls msg : string).
Arguments Returned {A} a.
Arguments Raised {A} cls msg.

Definition of_exn (e : exn) : string * string :=
  match e with
  | RuntimeError m => ("RuntimeError", m)
  | TypeError m => ("TypeError", m)
  | ValueError m => ("ValueError", m)
  | AttributeError m => ("AttributeError", m)
  | IndexError m => ("IndexError", m)
  | KeyError m => ("KeyError", m)
  | ResourceExhaustedError m => ("ResourceExhaustedError", m)
  | BackendError m => ("BackendError", m)
  end.

Definition of_result {A} (r : result A) : outcome A :=
  match r with
  | Ok a => Returned a
  | Raise e => Raised (of_exn e).1 (of_exn e).2
  end.

(** The Python values that the tomography passes around. *)
Inductive value (O : Type) : Type :=
| PyNone
| PyInt (z : Z)
| PyFloat_one                        (* the float [1.0] *)
| PyTuple (zs : list Z)              (* a tuple of ints *)
| PyObj (o : O).                     (* any other object *)
Arguments PyNone {O}.
Arguments PyInt {O} z.
Arguments PyFloat_one {O}.
Arguments PyTuple {O} zs.
Arguments PyObj {O} o.

(** An entry of [circuit.raw["queue"]]. *)
Record RawGate (O : Type) : Type := {
  _class : string;
  _target_qubits : list Z;
  init_kwargs : value O          (* [data.get("init_kwargs", {})] *)
}.
Arguments _class {O} r.
Arguments _target_qubits {O} r.
Arguments init_kwargs {O} r.

(** A computation over the interpreter state. *)
Definition P (Σ A : Type) : Type := Σ → Σ * outcome A.

Definition ret {Σ A} (a : A) : P Σ A := λ s, (s, Returned a).
Definition raise {Σ A} (cls msg : string) : P Σ A := λ s, (s, Raised cls msg).
Definition bind {Σ A B} (m : P Σ A) (k : A → P Σ B) : P Σ B :=
  λ s, match m s with
       | (s', Returned a) => k a s'
       | (s', Raised cls msg) => (s', Raised cls msg)
       end.
Definition lift {Σ A} (r : outcome A) : P Σ A := λ s, (s, r).

Fixpoint for_each {Σ A} (xs : list A) (body : A → P Σ unit) : P Σ unit :=
  match xs with
  | [] => ret tt
  | x :: xs' => bind (body x) (λ _, for_each xs' body)
  end.

(** The calls on objects of other modules. *)
Record Library (Σ O : Type) : Type := {
  GlobalBackend : P Σ (value O);
  (* [backend.name != "qibolab"] *)
  backend_is_not_qibolab : value O → P Σ bool;
  (* [backend.execute_circuit(circuit, nshots=nshots)] *)
  execute_circuit : value O → value O → value O → P Σ (value O);
  (* [result.expectation_from_samples(observable)] *)
  expectation_from_samples : value O → GST.Observable → P Σ (value O);
  (* [circuit.nqubits] *)
  circuit_nqubits : value O → P Σ Z;
  (* [obj == 0] and the use of [obj] as a list index, for an object *)
  equals_zero : O → P Σ bool;
  as_index : O → P Σ Z;
  (* [len(gate.qubits)] *)
  len_gate_qubits : value O → P Σ Z;
  (* a new gate of [gate.__class__] with the qubits and [init_kwargs] of
     [gate] *)
  rebuild_gate : value O → P Σ (value O);
  (* [np.zeros((n, m))] and [matrix[j, k] = v] *)
  np_zeros : Z → Z → P Σ (value O);
  setitem : value O → Z → Z → value O → P Σ unit;
  (* [Circuit(nqubits, density_matrix=True)] and [Circuit(1)] *)
  Circuit_density_matrix : Z → P Σ (value O);
  Circuit_plain : Z → P Σ (value O);
  (* [circ.add(...)] for a list of gates, a list of measurements, and for a
     gate or circuit object *)
  add_gates : value O → list GST.Gate → P Σ unit;
  add_measurements : value O → list GST.Measurement → P Σ unit;
  add : value O → value O → P Σ unit;
  (* [circuit.copy()], [circuit.invert()], [circuit.raw["queue"]] *)
  copy : value O → P Σ (value O);
  invert : value O → P Σ (value O);
  raw_queue : value O → P Σ (list (RawGate O));
  (* the gate of the class named [cls] on qubit 0, with [init_kwargs] *)
  gate_of_class : string → Z → value O → P Σ (value O);
  (* [inverted_circuit.on_qubits] on the qubits of [invert_register] *)
  on_qubits : value O → value O → P Σ (value O);
  (* [noise_model.apply(circuit)] *)
  apply_noise : value O → value O → P Σ (value O);
  (* the names in [signature(gate).parameters] *)
  signature_parameters : value O → P Σ (list string);
  (* the gate class called on the qubits [0 .. nqubits - 1] *)
  gate_on_range : value O → Z → P Σ (value O)
}.
Arguments GlobalBackend {Σ O} l.
Arguments backend_is_not_qibolab {Σ O} l.
Arguments execute_circuit {Σ O} l.
Arguments expectation_from_samples {Σ O} l.
Arguments circuit_nqubits {Σ O} l.
Arguments equals_zero {Σ O} l.
Arguments as_index {Σ O} l.
Arguments len_gate_qubits {Σ O} l.
Arguments rebuild_gate {Σ O} l.
Arguments np_zeros {Σ O} l.
Arguments setitem {Σ O} l.
Arguments Circuit_density_matrix {Σ O} l.
Arguments Circuit_plain {Σ O} l.
Arguments add_gates {Σ O} l.
Arguments add_measurements {Σ O} l.
Arguments add {Σ O} l.
Arguments copy {Σ O} l.
Arguments invert {Σ O} l.
Arguments raw_queue {Σ O} l.
Arguments gate_of_class {Σ O} l.
Arguments on_qubits {Σ O} l.
Arguments apply_noise {Σ O} l.
Arguments signature_parameters {Σ O} l.
Arguments gate_on_range {Σ O} l.

(** ** Calling a function

    The parameters of a [def], each with its default value if it has one,
    and the binding of the arguments of a call to them: the positional
    arguments fill the parameters from the left, then every keyword argument
    goes to the parameter of its name, which must exist and must not have a
    value yet; parameters left without a value take their default. *)

Definition parameters (O : Type) : Type := list (string * option (value O)).

Fixpoint assoc {A} (name : string) (l : list (string * A)) : option A :=
  match l with
  | [] => None
  | kv :: l' => if decide (kv.1 = name) then Some kv.2 else assoc name l'
  end.

Definition bind_keyword {O} (fname : string) (params : parameters O)
    (bound : outcome (list (string * value O))) (kw : string * value O)
    : outcome (list (string * value O)) :=
  match bound with
  | Returned b =>
      match assoc kw.1 params with
      | None => Raised "TypeError"
                  (fname +:+ "() got an unexpected keyword argument")
      | Some _ =>
          match assoc kw.1 b with
          | Some _ => Raised "TypeError"
                        (fname +:+ "() got multiple values for argument")
          | None => Returned (b ++ [kw])
          end
      end
  | Raised cls msg => Raised cls msg
  end.

Definition fill_default {O} (fname : string)
    (b : list (string * value O))
    (acc : outcome (list (string * value O)))
    (p : string * option (value O)) : outcome (list (string * value O)) :=
  match acc with
  | Returned l =>
      match assoc p.1 b, p.2 with
      | Some v, _ => Returned (l ++ [(p.1, v)])
      | None, Some v => Returned (l ++ [(p.1, v)])
      | None, None => Raised "TypeError"
                        (fname +:+ "() missing a required positional argument")
      end
  | Raised cls msg => Raised cls msg
  end.

Definition bind_arguments {O} (fname : string) (params : parameters O)
    (args : list (value O)) (kwargs : list (string * value O))
    : outcome (list (string * value O)) :=
  let positional := zip (params.*1) args in
  match foldl (bind_keyword fname params) (Returned positional) kwargs with
  | Returned b =>
      if decide (length params < length args)
      then Raised "TypeError"
             (fname +:+ "() takes fewer positional arguments than were given")
      else foldl (fill_default fname b) (Returned []) params
  | Raised cls msg => Raised cls msg
  end.

(** The value bound to a parameter. *)
Definition arg {O} (name : string) (b : list (string * value O)) : value O :=
  default PyNone (assoc name b).

Definition call {Σ O} (fname : string) (params : parameters O)
    (body : list (string * value O) → P Σ (value O))
    (args : list (value O)) (kwargs : list (string * value O))
    : P Σ (value O) :=
  match bind_arguments fname params args kwargs with
  | Returned b => body b
  | Raised cls msg => raise cls msg
  end.

(** A computation that returns from no state. *)
Definition never_returns {Σ A} (m : P Σ A) : Prop :=
  ∀ s, ∃ s' cls msg, m s = (s', Raised cls msg).

(** A library all of whose calls return. *)
Definition returns {Σ A} (m : P Σ A) : Prop :=
  ∀ s, ∃ s' a, m s = (s', Returned a).

(** A computation that raises an exception of the class [cls] from every
    state. *)
Definition always_raises {Σ A} (cls : string) (m : P Σ A) : Prop :=
  ∀ s, ∃ s' msg, m s = (s', Raised cls msg).

(** The calls of the library that build and extend the circuits of a
    tomography without a gate and without a register to invert all return. *)
Definition circuits_can_be_built {Σ O} (L : Library Σ O) : Prop :=
  returns (GlobalBackend L)
  ∧ (∀ n m, returns (np_zeros L n m))
  ∧ (∀ n, returns (Circuit_density_matrix L n))
  ∧ (∀ c gs, returns (add_gates L c gs))
  ∧ (∀ c, returns (copy L c))
  ∧ (∀ c ms, returns (add_measurements L c ms))
  ∧ (∀ b, returns (backend_is_not_qibolab L b))
  ∧ (∀ noise c, returns (apply_noise L noise c)).

(** ** The functions of the module *)

Section Run.

Context {Σ O : Type}.
Variable L : Library Σ O.

Notation "'do*' x ':=' m 'in' k" := (bind m (λ x, k))
  (at level 10, x name, m at level 100, k at level 200, only parsing).
Notation "m1 >>> m2" := (bind m1 (λ _, m2))
  (at level 100, m2 at level 200, right associativity, only parsing).

Definition is_None (v : value O) : bool :=
  match v with PyNone => true | _ => false end.

(** [reset_register(circuit, invert_register)]; the local [new_circ] is
    bound in the branches only. *)
Definition reset_register (circuit invert_register : value O)
    : P Σ (value O) :=
  let valid_registers := [[0%Z]; [1%Z]; [0%Z; 1%Z]] in
  do* new_circ :=
    if is_None invert_register then ret None
    else
      match invert_register with
      | PyTuple zs =>
          if bool_decide (zs ∈ valid_registers) then
            if bool_decide (zs = [0%Z] ∨ zs = [1%Z]) then
              let register_to_reset := default 0%Z (head zs) in
              do* new_circ := Circuit_plain L 1 in
              do* queue := raw_queue L circuit in
              for_each queue (λ data,
                match _target_qubits data with
                | [] => raise "IndexError" "tuple index out of range"
                | t :: _ =>
                    if bool_decide (t = register_to_reset) then
                      do* g := gate_of_class L (_class data) 0
                                  (init_kwargs data) in
                      add L new_circ g
                    else ret tt
                end) >>>
              ret (Some new_circ)
            else
              do* new_circ := copy L circuit in ret (Some new_circ)
          else raise "NameError"
                 "Invalid register, please pick one in [(0,), (1,), (0, 1)]."
      | _ => raise "NameError"
               "Invalid register, please pick one in [(0,), (1,), (0, 1)]."
      end in
  match new_circ with
  | Some c => invert L c
  | None => raise "UnboundLocalError"
              "cannot access local variable 'new_circ'"
  end.

(** [def _expectation_value(circuit, j, nshots=int(1e4), backend=None)] *)
Definition _expectation_value_parameters : parameters O :=
  [("circuit", None); ("j", None); ("nshots", Some (PyInt 10000));
   ("backend", Some PyNone)].

Definition _expectation_value_body (b : list (string * value O))
    : P Σ (value O) :=
  let circuit := arg "circuit" b in
  let j := arg "j" b in
  let nshots := arg "nshots" b in
  let backend := arg "backend" b in
  do* nqubits := circuit_nqubits L circuit in
  if negb (bool_decide (nqubits = 1%Z ∨ nqubits = 2%Z))
  then raise "ValueError"
         "nqubits given as {nqubits}. nqubits needs to be either 1 or 2."
  else
    do* j_is_zero :=
      match j with
      | PyInt z => ret (bool_decide (z = 0%Z))
      | PyObj o => equals_zero L o
      | _ => ret false
      end in
    if j_is_zero then ret PyFloat_one
    else
      do* backend :=
        if is_None backend then GlobalBackend L else ret backend in
      do* result := execute_circuit L backend circuit nshots in
      do* j :=
        match j with
        | PyInt z => ret z
        | PyObj o => as_index L o
        | _ => raise "TypeError" "list indices must be integers or slices"
        end in
      do* observable := lift (of_result (GST._get_observable j nqubits)) in
      expectation_from_samples L result observable.

Definition _expectation_value
    (args : list (value O)) (kwargs : list (string * value O))
    : P Σ (value O) :=
  call "_expectation_value" _expectation_value_parameters
    _expectation_value_body args kwargs.

(** [_gate_tomography]; [nqubits] is [None] or an int. *)
Definition _gate_tomography (nqubits : option Z)
    (gate nshots invert_register noise_model backend : value O)
    : P Σ (value O) :=
  do* nqubits :=
    match nqubits with
    | Some n =>
        if bool_decide (n = 1%Z ∨ n = 2%Z) then ret n
        else raise "ValueError"
               "nqubits given as {nqubits}. nqubits needs to be either 1 or 2."
    | None => raise "ValueError"
                "nqubits given as {nqubits}. nqubits needs to be either 1 or 2."
    end in
  do* backend :=
    if is_None backend then GlobalBackend L else ret backend in
  do* gate :=
    if is_None gate then ret gate
    else
      do* m := len_gate_qubits L gate in
      if bool_decide (nqubits ≠ m)
      then raise "ValueError" "Mismatched inputs: nqubits given as {nqubits}."
      else rebuild_gate L gate in
  do* matrix_jk := np_zeros L (4 ^ nqubits) (4 ^ nqubits) in
  for_each (Py.range (4 ^ nqubits)) (λ k,
    do* circ := Circuit_density_matrix L nqubits in
    do* state := lift (of_result (GST._prepare_state (Z.of_nat k) nqubits)) in
    add_gates L circ state >>>
    (if is_None invert_register then ret tt
     else
       do* inverted_circuit := reset_register circ invert_register in
       do* moved := on_qubits L inverted_circuit invert_register in
       add L circ moved) >>>
    (if is_None gate then ret tt else add L circ gate) >>>
    for_each (Py.range (4 ^ nqubits)) (λ j,
      do* new_circ := copy L circ in
      do* measurements :=
        lift (of_result (GST._measurement_basis (Z.of_nat j) nqubits)) in
      add_measurements L new_circ measurements >>>
      do* new_circ :=
        if is_None noise_model then ret new_circ
        else
          do* other := backend_is_not_qibolab L backend in
          if other then apply_noise L noise_model new_circ
          else ret new_circ in
      do* expectation_val :=
        _expectation_value
          [new_circ; PyInt (Z.of_nat k); PyInt (Z.of_nat j); nshots]
          [("backend", backend)] in
      setitem L matrix_jk (Z.of_nat j) (Z.of_nat k) expectation_val)) >>>
  ret matrix_jk.

(** One round of the loop of [GST] over [gate_set]; the locals [nqubits]
    and [matrices] are carried along. *)
Definition GST_gate (nshots noise_model invert_register backend : value O)
    (locals : option Z * list (value O)) (gate : value O)
    : P Σ (option Z * list (value O)) :=
  let '(nqubits, matrices) := locals in
  do* ng :=
    if is_None gate then ret (nqubits, gate)
    else
      do* init_args := signature_parameters L gate in
      do* nqubits :=
        if bool_decide ("q" ∈ init_args) then ret 1%Z
        else if bool_decide ("q0" ∈ init_args) && bool_decide ("q1" ∈ init_args)
                && negb (bool_decide ("q2" ∈ init_args))
        then ret 2%Z
        else raise "RuntimeError"
               "Gate is not supported for `GST`, only 1- and 2-qubits gates are supported." in
      do* gate := gate_on_range L gate nqubits in
      ret (Some nqubits, gate) in
  match ng.1 with
  | None => raise "UnboundLocalError" "cannot access local variable 'nqubits'"
  | Some n =>
      do* m := _gate_tomography (Some n) ng.2 nshots invert_register
                  noise_model backend in
      ret (ng.1, matrices ++ [m])
  end.

Fixpoint fold_gates {A B} (f : B → A → P Σ B) (xs : list A) (acc : B)
    : P Σ B :=
  match xs with
  | [] => ret acc
  | x :: xs' => do* acc' := f acc x in fold_gates f xs' acc'
  end.

Definition GST (gate_set : list (value O)) (nshots noise_model : value O)
    (include_empty : bool) (invert_register backend : value O)
    : P Σ (list (value O)) :=
  do* locals :=
    if bool_decide (length gate_set = 0) || include_empty then
      fold_gates (λ (locals : option Z * list (value O)) nqubits,
                    do* m := _gate_tomography (Some (Z.of_nat nqubits)) PyNone
                                nshots invert_register noise_model backend in
                    ret (Some (Z.of_nat nqubits), locals.2 ++ [m]))
        (Py.range2 1 3) (None, [])
    else ret (None, []) in
  do* locals :=
    fold_gates (GST_gate nshots noise_model invert_register backend)
      gate_set locals in
  ret locals.2.

End Run.

(** A library without state in which every call returns [None], an empty
    list, [0] or [False]. *)
Definition quiet_library : Library unit unit :=
  {| GlobalBackend := ret PyNone;
     backend_is_not_qibolab := λ _, ret false;
     execute_circuit := λ _ _ _, ret PyNone;
     expectation_from_samples := λ _ _, ret PyNone;
     circuit_nqubits := λ _, ret 0%Z;
     equals_zero := λ _, ret false;
     as_index := λ _, ret 0%Z;
     len_gate_qubits := λ _, ret 0%Z;
     rebuild_gate := λ _, ret PyNone;
     np_zeros := λ _ _, ret PyNone;
     setitem := λ _ _ _ _, ret tt;
     Circuit_density_matrix := λ _, ret PyNone;
     Circuit_plain := λ _, ret PyNone;
     add_gates := λ _ _, ret tt;
     add_measurements := λ _ _, ret tt;
     add := λ _ _, ret tt;
     copy := λ _, ret PyNone;
     invert := λ _, ret PyNone;
     raw_queue := λ _, ret [];
     gate_of_class := λ _ _ _, ret PyNone;
     on_qubits := λ _ _, ret PyNone;
     apply_noise := λ _ _, ret PyNone;
     signature_parameters := λ _, ret [];
     gate_on_range := λ _ _, ret PyNone |}.

End GSTRun.

(** * Properties *)

Import Examples.

(** ** The monad *)

Lemma bind_ok {A B} (m : M A) (k : A → M B) st st1 a :
  m st = (st1, Ok a) → bind m k st = k a st1.
Proof. intros H. unfold bind. by rewrite H. Qed.

Lemma bind_raise {A B} (m : M A) (k : A → M B) st st1 e :
  m st = (st1, Raise e) → bind m k st = (st1, Raise e).
Proof. intros H. unfold bind. by rewrite H. Qed.

Lemma bind_inv_ok {A B} (m : M A) (k : A → M B) st st' b :
  bind m k st = (st', Ok b) →
  ∃ st1 a, m st = (st1, Ok a) ∧ k a st1 = (st', Ok b).
Proof.
  unfold bind. destruct (m st) as [st1 [a|e]]; [eauto | discriminate].
Qed.

Lemma bind_inv_raise {A B} (m : M A) (k : A → M B) st st' e :
  bind m k st = (st', Raise e) →
  m st = (st', Raise e) ∨ ∃ st1 a, m st = (st1, Ok a) ∧ k a st1 = (st', Raise e).
Proof.
  unfold bind. destruct (m st) as [st1 [a|e1]]; [eauto | intros; left; congruence].
Qed.

(** ** What a computation leaves alone *)

Lemma keeps_bind {A B X} (proj : St → X) (m : M A) (k : A → M B) :
  keeps proj m → (∀ a, keeps proj (k a)) → keeps proj (bind m k).
Proof.
  intros Hm Hk st. unfold bind. specialize (Hm st).
  destruct (m st) as [st1 [a|e]]; simpl in *; [by rewrite Hk | done].
Qed.


Lemma keeps_ret {A X} (proj : St → X) (a : A) : keeps proj (ret a).
Proof. done. Qed.
Lemma keeps_raise {A X} (proj : St → X) e : keeps proj (@raise A e).
Proof. done. Qed.
Lemma keeps_lift {A X} (proj : St → X) (r : result A) : keeps proj (lift r).
Proof. done. Qed.
Lemma keeps_get_self {X} (proj : St → X) : keeps proj get_self.
Proof. done. Qed.
Lemma keeps_deref {X} (proj : St → X) a : keeps proj (deref a).
Proof. intros st. unfold deref. by destruct (_ !! _). Qed.
Lemma keeps_self_modify_world f : keeps_self (modify_world f).
Proof. done. Qed.
Lemma keeps_self_store a g : keeps_self (store a g).
Proof. done. Qed.
Lemma keeps_self_alloc g : keeps_self (alloc g).
Proof. done. Qed.
Lemma keeps_gates_modify_self f : keeps_gates (modify_self f).
Proof. done. Qed.

Lemma keeps_fold_m {A B X} (proj : St → X) (f : B → A → M B) xs acc :
  (∀ b a, keeps proj (f b a)) → keeps proj (fold_m f xs acc).
Proof.
  intros Hf. revert acc. induction xs as [|x xs IH]; intros acc; simpl.
  - apply keeps_ret.
  - apply keeps_bind; [apply Hf | intros; apply IH].
Qed.

Lemma keeps_for_each {A X} (proj : St → X) (xs : list A) body :
  (∀ a, keeps proj (body a)) → keeps proj (for_each xs body).
Proof.
  intros Hf. induction xs as [|x xs IH]; simpl.
  - apply keeps_ret.
  - apply keeps_bind; [apply Hf | intros; apply IH].
Qed.

Lemma keeps_self_call_gate a state : keeps_self (call_gate a state).
Proof.
  intros st. unfold call_gate, bind, deref.
  destruct (_ !! _); [|done]. by destruct (Gate.call _ _ _).
Qed.

Lemma keeps_gates_call_gate a state : keeps_gates (call_gate a state).
Proof.
  intros st. unfold call_gate, bind, deref.
  destruct (_ !! _); [|done]. by destruct (Gate.call _ _ _).
Qed.

Lemma keeps_self_call_measurement a state n :
  keeps_self (call_measurement a state n).
Proof.
  intros st. unfold call_measurement, bind, deref.
  destruct (_ !! _); [|done]. by destruct (Gate.sample _ _ _ _).
Qed.

Lemma keeps_gates_call_measurement a state n :
  keeps_gates (call_measurement a state n).
Proof.
  intros st. unfold call_measurement, bind, deref.
  destruct (_ !! _); [|done]. by destruct (Gate.sample _ _ _ _).
Qed.

Create HintDb frame discriminated.
#[export] Hint Resolve keeps_ret keeps_raise keeps_lift keeps_get_self
  keeps_deref keeps_self_modify_world keeps_self_store keeps_self_alloc
  keeps_gates_modify_self keeps_self_call_gate keeps_gates_call_gate
  keeps_self_call_measurement keeps_gates_call_measurement : frame.

(** Solves [keeps proj m] by following the structure of [m]. *)
Ltac frame :=
  repeat first
    [ progress eauto 2 with frame
    | apply keeps_bind
    | apply keeps_fold_m
    | apply keeps_for_each
    | progress cbv beta
    | match goal with
      | |- ∀ _, _ => intro
      | |- keeps _ ?m =>
          match m with context [match ?x with _ => _ end] => destruct x end
      end ].

Lemma keeps_self_eager_execute state : keeps_self (_eager_execute state).
Proof. unfold _eager_execute. frame. Qed.

Lemma keeps_gates_eager_execute state : keeps_gates (_eager_execute state).
Proof. unfold _eager_execute. frame. Qed.

Lemma keeps_self_execute_for_compile_gate acc gate :
  keeps_self (_execute_for_compile_gate acc gate).
Proof. unfold _execute_for_compile_gate. destruct acc. frame. Qed.

Lemma keeps_gates_execute_for_compile_gate acc gate :
  keeps_gates (_execute_for_compile_gate acc gate).
Proof. unfold _execute_for_compile_gate. destruct acc. frame. Qed.

Lemma keeps_self_callback_results_gate d gate :
  keeps_self (_callback_results_gate d gate).
Proof. unfold _callback_results_gate. frame. Qed.

Lemma keeps_gates_callback_results_gate d gate :
  keeps_gates (_callback_results_gate d gate).
Proof. unfold _callback_results_gate. frame. Qed.

Lemma keeps_self_execute_for_compile state :
  keeps_self (_execute_for_compile state).
Proof.
  pose proof keeps_self_execute_for_compile_gate.
  pose proof keeps_self_callback_results_gate.
  unfold _execute_for_compile. frame.
Qed.

Lemma keeps_gates_execute_for_compile state :
  keeps_gates (_execute_for_compile state).
Proof.
  pose proof keeps_gates_execute_for_compile_gate.
  pose proof keeps_gates_callback_results_gate.
  unfold _execute_for_compile. frame.
Qed.

Lemma keeps_self_cast_initial_state i : keeps_self (_cast_initial_state i).
Proof.
  unfold _cast_initial_state, DensityMatrixCircuit_cast_initial_state,
    Circuit_cast_initial_state. frame.
Qed.

Lemma keeps_self_get_initial_state i : keeps_self (get_initial_state i).
Proof.
  unfold get_initial_state. pose proof keeps_self_cast_initial_state. frame.
Qed.

(** ** The shape of [_execute] *)

Lemma keeps_run {A X} (proj : St → X) (m : M A) st st' r :
  keeps proj m → m st = (st', r) → proj st' = proj st.
Proof. intros Hm H. specialize (Hm st). by rewrite H in Hm. Qed.

Lemma keeps_self_reshape_to key state : keeps_self (reshape_to key state).
Proof. unfold reshape_to. frame. Qed.

Lemma keeps_gates_reshape_to key state : keeps_gates (reshape_to key state).
Proof. unfold reshape_to. frame. Qed.

Lemma keeps_gates_get_initial_state i : keeps_gates (get_initial_state i).
Proof.
  unfold get_initial_state, _cast_initial_state,
    DensityMatrixCircuit_cast_initial_state, Circuit_cast_initial_state.
  frame.
Qed.

Lemma keeps_self_extend_callbacks r : keeps_self (extend_callbacks r).
Proof. done. Qed.

Lemma keeps_gates_extend_callbacks r : keeps_gates (extend_callbacks r).
Proof. done. Qed.

#[export] Hint Resolve keeps_self_eager_execute keeps_gates_eager_execute
  keeps_self_execute_for_compile keeps_gates_execute_for_compile
  keeps_self_get_initial_state keeps_gates_get_initial_state
  keeps_self_reshape_to keeps_gates_reshape_to
  keeps_self_extend_callbacks keeps_gates_extend_callbacks : frame.

Lemma keeps_self_apply_queue B i : keeps_self (apply_queue B i).
Proof. unfold apply_queue. frame. Qed.

Lemma keeps_gates_apply_queue B i : keeps_gates (apply_queue B i).
Proof. unfold apply_queue. frame. Qed.

(** Case analysis on the innermost scrutinee of the goal. *)
Ltac destruct_inner x :=
  lazymatch x with
  | context [match ?y with _ => _ end] => destruct_inner y
  | _ => destruct x eqn:?
  end.
Ltac case_step :=
  match goal with
  | |- context [match ?x with _ => _ end] => destruct_inner x
  end.

Lemma _execute_unfold B i st :
  _execute B i st =
  (modify_self (with_final_state None) ;;;
   let* state := apply_queue B i in
   modify_self (with_final_state (Some state)) ;;; ret state) st.
Proof.
  unfold _execute, apply_queue, bind. simpl.
  destruct (K.custom_gates B); simpl; repeat (case_step; simpl; try done).
Qed.

(** A run that raises leaves [_final_state] unset. *)
Lemma _execute_raise B i st st' e :
  _execute B i st = (st', Raise e) →
  self st' = with_final_state None (self st).
Proof.
  rewrite _execute_unfold. unfold bind at 1. simpl.
  unfold bind.
  destruct (apply_queue B i _) as [st1 [s1|e1]] eqn:H; simpl; [done|].
  intros [= <- <-].
  by apply (keeps_run _ _ _ _ _ (keeps_self_apply_queue B i)) in H.
Qed.

(** A run that returns has stored what it returns. *)
Lemma _execute_ok B i st st' s :
  _execute B i st = (st', Ok s) →
  self st' = with_final_state (Some s) (self st)
  ∧ gates (world st') = gates (world st).
Proof.
  rewrite _execute_unfold. unfold bind at 1. simpl.
  unfold bind.
  destruct (apply_queue B i _) as [st1 [s1|e1]] eqn:H; simpl; [|done].
  intros [= <- <-]. simpl.
  pose proof (keeps_run _ _ _ _ _ (keeps_gates_apply_queue B i) H) as Hg.
  apply (keeps_run _ _ _ _ _ (keeps_self_apply_queue B i)) in H.
  simpl in *. by rewrite H.
Qed.

Lemma _device_execute_raise B i st st' e :
  _device_execute B i st = (st', Raise e) →
  self st' = with_final_state None (self st).
Proof.
  unfold _device_execute, except_oom.
  destruct (_execute B i st) as [st1 [s1|e1]] eqn:H; [done|].
  apply _execute_raise in H.
  destruct (is_oom_error e1); unfold raise; simpl; by intros [= <- <-].
Qed.

Lemma _device_execute_ok B i st st' s :
  _device_execute B i st = (st', Ok s) → _execute B i st = (st', Ok s).
Proof.
  unfold _device_execute, except_oom.
  destruct (_execute B i st) as [st1 [s1|e1]] eqn:H; [done|].
  destruct (is_oom_error e1); unfold raise; simpl; discriminate.
Qed.

Lemma _device_execute_ignores_final_state B i c w x :
  _device_execute B i {| self := with_final_state x c; world := w |}
  = _device_execute B i {| self := c; world := w |}.
Proof.
  unfold _device_execute, except_oom. by rewrite !_execute_unfold.
Qed.

Lemma bind_inv {A B} (m : M A) (k : A → M B) st st' r :
  bind m k st = (st', r) →
  (∃ e, m st = (st', Raise e) ∧ r = Raise e)
  ∨ ∃ st1 a, m st = (st1, Ok a) ∧ k a st1 = (st', r).
Proof.
  unfold bind. destruct (m st) as [st1 [a|e1]]; [eauto |].
  intros [= <- <-]. eauto.
Qed.

(** ** compile *)

Lemma compile_already_compiled B st :
  _compiled_execute (self st) ≠ None →
  compile B st = (st, Raise (RuntimeError "Circuit is already compiled.")).
Proof.
  intros H. unfold compile, bind, get_self, raise. simpl.
  by rewrite bool_decide_true.
Qed.

Lemma compile_empty_queue B st :
  _compiled_execute (self st) = None → queue (self st) = [] →
  compile B st
  = (st, Raise (RuntimeError "Cannot compile circuit without gates.")).
Proof.
  intros H1 H2. unfold compile, bind, get_self, raise. simpl.
  rewrite bool_decide_false; [|by rewrite H1; intros []].
  by rewrite bool_decide_true.
Qed.

Lemma compile_custom_gates B st :
  _compiled_execute (self st) = None → queue (self st) ≠ [] →
  K.custom_gates B = true →
  compile B st
  = (st, Raise (RuntimeError
                  "Cannot compile circuit that uses custom operators.")).
Proof.
  intros H1 H2 H3. unfold compile, bind, get_self, raise. simpl.
  rewrite bool_decide_false; [|by rewrite H1; intros []].
  rewrite bool_decide_false; [|done]. by rewrite H3.
Qed.

Lemma compile_succeeds B st :
  _compiled_execute (self st) = None → queue (self st) ≠ [] →
  K.custom_gates B = false →
  compile B st
  = ({| self := with_compiled_execute (Some tt) (self st);
        world := world st |}, Ok tt).
Proof.
  intros H1 H2 H3. unfold compile, bind, get_self, raise. simpl.
  rewrite bool_decide_false; [|by rewrite H1; intros []].
  rewrite bool_decide_false; [|done]. by rewrite H3.
Qed.

(** C7. [compile] raises a [RuntimeError] exactly when the circuit is already
    compiled, or its queue is empty, or the backend uses custom operators; in
    every other case it returns and installs the compiled handle; and once it
    has returned, another [compile] on the same circuit raises. *)
Theorem compile_once_nonempty_no_custom_gates (B : K.Backend) (st : St) :
  ((_compiled_execute (self st) ≠ None ∨ queue (self st) = []
    ∨ K.custom_gates B = true) →
   ∃ msg, compile B st = (st, Raise (RuntimeError msg)))
  ∧ (¬ (_compiled_execute (self st) ≠ None ∨ queue (self st) = []
        ∨ K.custom_gates B = true) →
     ∃ st', compile B st = (st', Ok tt)
            ∧ _compiled_execute (self st') = Some tt
            ∧ st' = {| self := with_compiled_execute (Some tt) (self st);
                       world := world st |})
  ∧ (∀ st', compile B st = (st', Ok tt) →
     ∃ msg, compile B st' = (st', Raise (RuntimeError msg))).
Proof.
  destruct (decide (_compiled_execute (self st) = None)) as [Hc|Hc];
    [destruct (decide (queue (self st) = [])) as [Hq|Hq];
     [|destruct (K.custom_gates B) eqn:Hk]|].
  - rewrite (compile_empty_queue B st Hc Hq). split_and!; [eauto| |done].
    intros []. auto.
  - rewrite (compile_custom_gates B st Hc Hq Hk). split_and!; [eauto| |done].
    intros []. auto.
  - rewrite (compile_succeeds B st Hc Hq Hk). split_and!.
    + intros [?|[?|?]]; done.
    + eauto.
    + intros st' [= <-]. eexists. by apply compile_already_compiled.
  - rewrite (compile_already_compiled B st Hc). split_and!; [eauto| |done].
    intros []. auto.
Qed.

(** C7, at a one-qubit circuit holding an X gate and a picky gate: the first
    [compile] installs the handle, the second raises. *)
Lemma compile_once_nonempty_no_custom_gates_witness :
  let B := TensorflowBackend false in
  (∃ st', compile B Examples.st_Xp = (st', Ok tt)
          ∧ _compiled_execute (self st') = Some tt
          ∧ st' = {| self := with_compiled_execute (Some tt)
                               (self Examples.st_Xp);
                     world := world Examples.st_Xp |})
  ∧ ∃ msg, compile B (compile B Examples.st_Xp).1
           = ((compile B Examples.st_Xp).1, Raise (RuntimeError msg)).
Proof.
  intros B.
  destruct (compile_once_nonempty_no_custom_gates B Examples.st_Xp)
    as (_ & Hok & Htwice).
  split.
  - apply Hok. intros [H|[H|H]]; [by apply H | by vm_compute in H | done].
  - apply Htwice. vm_compute. reflexivity.
Defined.

(** ** final_state *)






Lemma final_state_unset st :
  _final_state (self st) = None →
  final_state st
  = (st, Raise (RuntimeError
                  "Cannot access final state before the circuit is executed.")).
Proof. intros H. unfold final_state, bind, get_self. simpl. by rewrite H. Qed.

Lemma final_state_set st s :
  _final_state (self st) = Some s → final_state st = (st, Ok s).
Proof. intros H. unfold final_state, bind, get_self. simpl. by rewrite H. Qed.

(** ** The initial state *)

Lemma state_vector_flat c :
  state_vector_circuit c → shapes c !! "FLAT" = Some [2 ^ nqubits c].
Proof. intros [Hc [-> _]]. by rewrite Hc. Qed.

Lemma density_matrix_flat c :
  density_matrix_circuit c →
  shapes c !! "FLAT" = Some [2 ^ nqubits c; 2 ^ nqubits c]
  ∧ shapes c !! "VECTOR" = Some [2 ^ nqubits c].
Proof. intros [Hc [-> _]]. by rewrite Hc. Qed.

Lemma get_initial_state_raise_apply_queue B i st st' e :
  get_initial_state i st = (st', Raise e) →
  apply_queue B i st = (st', Raise e).
Proof. intros H. unfold apply_queue. by apply bind_raise. Qed.

Lemma get_initial_state_raise_execute B i st e :
  (∀ s, get_initial_state i
          {| self := with_final_state s (self st); world := world st |}
        = ({| self := with_final_state s (self st); world := world st |},
           Raise e)) →
  is_oom_error e = false →
  _device_execute B i st
  = ({| self := with_final_state None (self st); world := world st |},
     Raise e).
Proof.
  intros H Hoom. unfold _device_execute, except_oom.
  rewrite _execute_unfold. unfold bind at 1. simpl.
  erewrite bind_raise;
    [|apply get_initial_state_raise_apply_queue, (H None)].
  by rewrite Hoom.
Qed.

Lemma get_initial_state_object st sa conv :
  cls (self st) = ClsCircuit →
  get_initial_state (PyObject sa conv) st
  = (st, Raise (TypeError "Initial state type {} is not recognized.")).
Proof.
  intros Hc. unfold get_initial_state, _cast_initial_state, bind, get_self.
  simpl. by rewrite Hc.
Qed.

Lemma get_initial_state_tensor st x :
  state_vector_circuit (self st) →
  get_initial_state (PyTensor x) st
  = (st, if decide (shape x = [2 ^ nqubits (self st)])
         then Ok (K.cast x DTYPECPX)
         else Raise (ValueError
           "Invalid initial state shape {} for circuit with {} qubits.")).
Proof.
  intros Hsv. pose proof (state_vector_flat _ Hsv) as Hflat.
  destruct Hsv as [Hc [_ Hchk]].
  unfold get_initial_state, _cast_initial_state, bind, get_self. simpl.
  rewrite Hc. simpl. rewrite Hchk, Hflat.
  case_bool_decide as H; case_decide as H'; try done.
  - by rewrite H' in H.
  - exfalso. apply H'. congruence.
Qed.

(** C6. On a state-vector circuit of [n] qubits, an initial state that is not
    of a tensor type is refused with a [TypeError], a tensor whose shape is
    not [(2^n,)] is refused with a [ValueError], by [get_initial_state] and so
    by every run of the queue; a tensor of shape [(2^n,)] is accepted. *)
Theorem initial_state_type_and_shape_checked (B : K.Backend) (st : St) :
  state_vector_circuit (self st) →
  (∀ sa conv, ∃ msg,
     get_initial_state (PyObject sa conv) st = (st, Raise (TypeError msg))
     ∧ (_device_execute B (PyObject sa conv) st).2 = Raise (TypeError msg))
  ∧ (∀ x, shape x ≠ [2 ^ nqubits (self st)] → ∃ msg,
       get_initial_state (PyTensor x) st = (st, Raise (ValueError msg))
       ∧ (_device_execute B (PyTensor x) st).2 = Raise (ValueError msg))
  ∧ (∀ x, shape x = [2 ^ nqubits (self st)] →
       get_initial_state (PyTensor x) st = (st, Ok (K.cast x DTYPECPX))).
Proof.
  intros Hsv. split_and!.
  - intros sa conv. eexists. split.
    + apply get_initial_state_object, Hsv.
    + erewrite get_initial_state_raise_execute; [done| |done].
      intros s. apply get_initial_state_object, Hsv.
  - intros x Hx. eexists. split.
    + rewrite get_initial_state_tensor by done. by rewrite decide_False.
    + erewrite get_initial_state_raise_execute; [done| |done].
      intros s. rewrite get_initial_state_tensor by done.
      simpl. by rewrite decide_False.
  - intros x Hx. rewrite get_initial_state_tensor by done.
    by rewrite decide_True.
Qed.

(** C6, at a one-qubit circuit: a Python list is refused, and so is a vector
    of length 4. *)
Lemma initial_state_type_and_shape_checked_witness :
  let B := TensorflowBackend false in
  let x4 := {| dtype := DTYPECPX; shape := [4]; data := [c1; c0; c0; c0] |} in
  (∃ msg, get_initial_state (PyObject None None) Examples.st_Xp
          = (Examples.st_Xp, Raise (TypeError msg))
          ∧ (_device_execute B (PyObject None None) Examples.st_Xp).2
            = Raise (TypeError msg))
  ∧ (∃ msg, get_initial_state (PyTensor x4) Examples.st_Xp
            = (Examples.st_Xp, Raise (ValueError msg))
            ∧ (_device_execute B (PyTensor x4) Examples.st_Xp).2
              = Raise (ValueError msg)).
Proof.
  intros B x4.
  assert (state_vector_circuit (self Examples.st_Xp)) as Hsv.
  { split; [vm_compute; reflexivity|]. split; vm_compute; reflexivity. }
  destruct (initial_state_type_and_shape_checked B Examples.st_Xp Hsv)
    as (Hty & Hsh & _).
  split; [apply Hty|]. apply Hsh. vm_compute. discriminate.
Defined.

(** *** Promotion of a state vector by a density-matrix circuit *)

Lemma get_initial_state_promotes st v :
  density_matrix_circuit (self st) →
  shape v = [2 ^ nqubits (self st)] →
  get_initial_state (PyTensor v) st
  = (st, Ok (K.cast (K.outer v (K.conj v)) DTYPECPX)).
Proof.
  intros Hdm Hv. destruct (density_matrix_flat _ Hdm) as [Hflat Hvec].
  destruct Hdm as [Hc [_ Hchk]].
  unfold get_initial_state, _cast_initial_state,
    DensityMatrixCircuit_cast_initial_state, bind, get_self, ret. simpl.
  rewrite Hc. simpl. rewrite Hvec. simpl.
  rewrite bool_decide_true by done. simpl.
  rewrite Hchk, Hflat, Hv. simpl.
  by rewrite bool_decide_false by (intros H; by apply H).
Qed.

Lemma get_initial_state_density_matrix st rho :
  density_matrix_circuit (self st) →
  shape rho = [2 ^ nqubits (self st); 2 ^ nqubits (self st)] →
  get_initial_state (PyTensor rho) st = (st, Ok (K.cast rho DTYPECPX)).
Proof.
  intros Hdm Hv. destruct (density_matrix_flat _ Hdm) as [Hflat Hvec].
  destruct Hdm as [Hc [_ Hchk]].
  unfold get_initial_state, _cast_initial_state,
    DensityMatrixCircuit_cast_initial_state, bind, get_self, ret. simpl.
  rewrite Hc. simpl. rewrite Hvec. simpl.
  rewrite bool_decide_false by (rewrite Hv; discriminate). simpl.
  rewrite Hchk, Hflat, Hv. simpl.
  by rewrite bool_decide_false by (intros H; by apply H).
Qed.

(** Two initial states that [get_initial_state] resolves alike, whatever the
    final state stored and the store, are executed alike. *)
Lemma bind_cong {A B} (m1 m2 : M A) (k1 k2 : A → M B) st :
  m1 st = m2 st →
  (∀ a st1, m1 st = (st1, Ok a) → k1 a st1 = k2 a st1) →
  bind m1 k1 st = bind m2 k2 st.
Proof.
  intros Hm Hk. unfold bind. rewrite <- Hm.
  destruct (m1 st) as [st1 [a|e]]; [by apply Hk | done].
Qed.

Section SameInitialState.

Variable B : K.Backend.
Variables i1 i2 : pyval.
Variable P : Circuit → Prop.
Hypothesis P_final : ∀ c s, P c → P (with_final_state s c).
Hypothesis same : ∀ st, P (self st) →
  get_initial_state i1 st = get_initial_state i2 st.

Lemma apply_queue_same st :
  P (self st) → apply_queue B i1 st = apply_queue B i2 st.
Proof using same.
  intros HP. unfold apply_queue. apply bind_cong; [by apply same | done].
Qed.

Lemma _device_execute_same st :
  P (self st) → _device_execute B i1 st = _device_execute B i2 st.
Proof using P_final same.
  intros HP. unfold _device_execute, except_oom.
  rewrite !_execute_unfold.
  erewrite bind_cong; [done|done|].
  intros [] st1 [= <-]. apply bind_cong; [|done].
  apply apply_queue_same. by apply P_final.
Qed.

Lemma _device_execute_P st st' r :
  P (self st) → _device_execute B i1 st = (st', r) → P (self st').
Proof using P_final.
  intros HP H. destruct r as [s|e].
  - apply _device_execute_ok, _execute_ok in H as [-> _]. by apply P_final.
  - apply _device_execute_raise in H as ->. by apply P_final.
Qed.

Lemma repeated_shots_same n acc st :
  P (self st) →
  repeated_shots B n i1 acc st = repeated_shots B n i2 acc st.
Proof using P_final same.
  revert acc st. induction n as [|n IH]; intros acc st HP; [done|].
  simpl. apply bind_cong; [by apply _device_execute_same|].
  intros s st1 H1. apply _device_execute_P in H1; [|done].
  apply bind_cong; [done|]. intros c st2 [= <- <-].
  apply bind_cong; [done|]. intros r st3 H3.
  apply IH.
  assert (self st3 = self st1) as ->; [|done].
  revert H3. apply keeps_run. frame.
Qed.

Lemma execute_same nshots st :
  P (self st) → execute B i1 nshots st = execute B i2 nshots st.
Proof using P_final same.
  intros HP. unfold execute. cbv zeta.
  apply bind_cong; [done|]. intros c st1 [= <- <-].
  assert (∀ k : tensor → M ExecResult,
            bind (_device_execute B i1) k st
            = bind (_device_execute B i2) k st) as Hstd.
  { intros k. apply bind_cong; [by apply _device_execute_same | done]. }
  destruct nshots as [n|]; [|apply Hstd].
  destruct (repeated_execution (self st)); [|apply Hstd].
  apply bind_cong; [done|]. intros [] st1 [= <-].
  unfold _repeated_execute. apply bind_cong; [|done].
  apply repeated_shots_same. by apply P_final.
Qed.

End SameInitialState.

Lemma density_matrix_circuit_final c s :
  density_matrix_circuit c → density_matrix_circuit (with_final_state s c).
Proof. done. Qed.

(** C4. A density-matrix circuit of [n] qubits given a state vector [v] of
    shape [(2^n,)] starts from the density matrix [outer(v, conj(v))], as it
    does when given that matrix, and every execution then gives the same
    result and leaves the same state behind. *)
Theorem state_vector_promoted_to_density_matrix
    (B : K.Backend) (st : St) (v : tensor) (nshots : option Z) :
  density_matrix_circuit (self st) →
  shape v = [2 ^ nqubits (self st)] →
  let rho := K.outer v (K.conj v) in
  get_initial_state (PyTensor v) st = (st, Ok (K.cast rho DTYPECPX))
  ∧ get_initial_state (PyTensor rho) st = (st, Ok (K.cast rho DTYPECPX))
  ∧ execute B (PyTensor v) nshots st = execute B (PyTensor rho) nshots st
  ∧ final_state (execute B (PyTensor v) nshots st).1
    = final_state (execute B (PyTensor rho) nshots st).1.
Proof.
  intros Hdm Hv rho.
  assert (∀ st0, (density_matrix_circuit (self st0)
                  ∧ nqubits (self st0) = nqubits (self st)) →
            get_initial_state (PyTensor v) st0
            = get_initial_state (PyTensor rho) st0) as Hsame.
  { intros st0 [Hdm0 Hn].
    rewrite get_initial_state_promotes, get_initial_state_density_matrix;
      try done; [|by rewrite Hn].
    unfold rho, K.outer, K.conj. simpl. by rewrite Hv, Hn. }
  assert (execute B (PyTensor v) nshots st
          = execute B (PyTensor rho) nshots st) as Hex.
  { apply (execute_same B _ _
             (λ c, density_matrix_circuit c ∧ nqubits c = nqubits (self st)));
      [|done|done].
    intros c s [H1 H2]. done. }
  split_and!; [by apply get_initial_state_promotes| |done|by rewrite Hex].
  apply get_initial_state_density_matrix; [done|].
  unfold rho, K.outer, K.conj. simpl. by rewrite Hv.
Qed.

(** C4, at a one-qubit density-matrix circuit holding an X gate, run on the
    state vector |1>. *)
Lemma state_vector_promoted_to_density_matrix_witness :
  let B := TensorflowBackend false in
  let st := (add 1%positive {| self := DensityMatrixCircuit_init 1;
                               world := Examples.world0 |}).1 in
  let rho := K.outer Examples.ket1 (K.conj Examples.ket1) in
  get_initial_state (PyTensor Examples.ket1) st
    = (st, Ok (K.cast rho DTYPECPX))
  ∧ get_initial_state (PyTensor rho) st = (st, Ok (K.cast rho DTYPECPX))
  ∧ execute B (PyTensor Examples.ket1) None st
    = execute B (PyTensor rho) None st
  ∧ final_state (execute B (PyTensor Examples.ket1) None st).1
    = final_state (execute B (PyTensor rho) None st).1.
Proof.
  intros B st rho.
  apply (state_vector_promoted_to_density_matrix B st Examples.ket1 None).
  - split; [vm_compute; reflexivity|]. split; vm_compute; reflexivity.
  - vm_compute. reflexivity.
Defined.

(** ** The queue invariant *)

Lemma store_ok_refl w : store_ok w w.
Proof. by intros c. Qed.

Lemma store_ok_trans w1 w2 w3 : store_ok w1 w2 → store_ok w2 w3 → store_ok w1 w3.
Proof. intros H1 H2 c Hc. by apply H2, H1. Qed.

(** What [set_nqubits] does, case by case. *)
Lemma set_nqubits_cases gate st :
  match gates (world st) !! gate with
  | None =>
      set_nqubits gate st = (st, Raise (AttributeError "no such object"))
  | Some g =>
      if Gate.is_prepared g
         && negb (bool_decide (Gate.nqubits g = Some (nqubits (self st))))
      then set_nqubits gate st
           = (st, Raise (RuntimeError
               "Cannot add gate {} that acts on {} qubits to circuit that contains {}qubits."))
      else set_nqubits gate st
           = ({| self := self st;
                 world := with_gates
                   (<[gate := Gate.prepare
                                (Gate.set_nqubits (nqubits (self st)) g)]>
                      (gates (world st))) (world st) |}, Ok tt)
  end.
Proof.
  unfold set_nqubits, bind, get_self, deref. simpl.
  destruct (gates (world st) !! gate) as [g|]; [|done].
  by destruct (Gate.is_prepared g && _).
Qed.

Lemma set_nqubits_store_ok gate st :
  self (set_nqubits gate st).1 = self st
  ∧ store_ok (world st) (world (set_nqubits gate st).1)
  ∧ ((set_nqubits gate st).2 = Ok tt →
     ∃ g, gates (world (set_nqubits gate st).1) !! gate = Some g
          ∧ Gate.is_prepared g = true
          ∧ Gate.nqubits g = Some (nqubits (self st))).
Proof.
  pose proof (set_nqubits_cases gate st) as H.
  destruct (gates (world st) !! gate) as [g|] eqn:Hg;
    [|rewrite H; split_and!; [done|apply store_ok_refl|done]].
  destruct (Gate.is_prepared g && _) eqn:Hm;
    rewrite H; simpl; [split_and!; [done|apply store_ok_refl|done]|].
  split_and!; [done| |].
  - intros c Hc a Ha. simpl. destruct (decide (a = gate)) as [->|Hne].
    + rewrite lookup_insert_eq. eexists. split_and!; [done..|]. simpl.
      destruct (Hc gate Ha) as (g' & Hg' & Hp & Hn).
      rewrite Hg in Hg'. injection Hg' as <-.
      rewrite Hp in Hm. simpl in Hm.
      apply negb_false_iff, bool_decide_eq_true in Hm. congruence.
    + rewrite lookup_insert_ne by done. by apply Hc.
  - intros _. rewrite lookup_insert_eq. eauto.
Qed.

Lemma queue_append_prepared gate st g :
  queue_prepared (self st) (world st) →
  gates (world st) !! gate = Some g →
  Gate.is_prepared g = true →
  Gate.nqubits g = Some (nqubits (self st)) →
  queue_prepared (self (queue_append gate st).1)
                 (world (queue_append gate st).1).
Proof.
  intros Hq Hg Hp Hn a. simpl. rewrite elem_of_app, list_elem_of_singleton.
  intros [Ha| ->]; [by apply Hq | eauto].
Qed.

(** [set_nqubits(gate); self.queue.append(gate)], as in [add] and in the
    loop of [_add_layer]. *)
Lemma add_invariant gate st :
  queue_prepared (self st) (world st) →
  queue_prepared (self (add gate st).1) (world (add gate st).1)
  ∧ store_ok (world st) (world (add gate st).1)
  ∧ nqubits (self (add gate st).1) = nqubits (self st).
Proof.
  intros Hq. unfold add, bind.
  destruct (set_nqubits_store_ok gate st) as (Hs & Hw & Hg).
  destruct (set_nqubits gate st) as [st1 [[]|e]]; simpl in *.
  - destruct Hg as (g & Hg & Hp & Hn); [done|].
    split_and!; [|done|by rewrite Hs].
    assert (queue_prepared (self st1) (world st1)) as Hq1.
    { rewrite Hs. by apply Hw. }
    apply (queue_append_prepared gate st1 g Hq1 Hg Hp). by rewrite Hs.
  - split_and!; [|done|by rewrite Hs]. rewrite Hs. by apply Hw.
Qed.

Lemma for_each_add_invariant gates_ st :
  queue_prepared (self st) (world st) →
  let r := for_each gates_ (λ u, set_nqubits u ;;; queue_append u) st in
  queue_prepared (self r.1) (world r.1)
  ∧ store_ok (world st) (world r.1)
  ∧ nqubits (self r.1) = nqubits (self st).
Proof.
  revert st. induction gates_ as [|u us IH]; intros st Hq; cbv zeta; simpl.
  { split_and!; [done|apply store_ok_refl|done]. }
  destruct (add_invariant u st Hq) as (Hq1 & Hw1 & Hn1). unfold add in *.
  destruct (bind (set_nqubits u) _ st) as [st1 [[]|e]] eqn:E; simpl in *.
  - rewrite (bind_ok _ _ _ _ _ E).
    destruct (IH st1 Hq1) as (Hq2 & Hw2 & Hn2).
    split_and!; [done|by eapply store_ok_trans|congruence].
  - by rewrite (bind_raise _ _ _ _ _ E).
Qed.

Lemma prepare_store_ok gate g w :
  gates w !! gate = Some g →
  store_ok w (with_gates (<[gate := Gate.prepare g]> (gates w)) w).
Proof.
  intros Hg c Hc a Ha. simpl. destruct (decide (a = gate)) as [->|Hne].
  - rewrite lookup_insert_eq. destruct (Hc gate Ha) as (g' & Hg' & Hp & Hn).
    rewrite Hg in Hg'. injection Hg' as <-. eauto.
  - rewrite lookup_insert_ne by done. by apply Hc.
Qed.

Lemma add_layer_invariant gate st :
  queue_prepared (self st) (world st) →
  queue_prepared (self (_add_layer gate st).1) (world (_add_layer gate st).1)
  ∧ store_ok (world st) (world (_add_layer gate st).1)
  ∧ nqubits (self (_add_layer gate st).1) = nqubits (self st).
Proof.
  intros Hq. unfold _add_layer.
  destruct (gates (world st) !! gate) as [g|] eqn:Hg.
  2:{ rewrite (bind_raise _ _ st st (AttributeError "no such object"))
        by (unfold deref; by rewrite Hg).
      split_and!; [done|apply store_ok_refl|done]. }
  rewrite (bind_ok _ _ st st g) by (unfold deref; by rewrite Hg).
  set (st1 := {| self := self st;
                 world := with_gates (<[gate := Gate.prepare g]> (gates (world st)))
                            (world st) |}).
  rewrite (bind_ok _ _ st st1 tt) by done.
  assert (store_ok (world st) (world st1)) as Hw1
    by by apply prepare_store_ok.
  assert (queue_prepared (self st1) (world st1)) as Hq1 by by apply Hw1.
  rewrite (bind_ok _ _ st1 st1 (Gate.prepare g)).
  2:{ unfold deref. simpl. by rewrite lookup_insert_eq. }
  destruct (for_each_add_invariant (Gate.unitaries (Gate.prepare g)) st1 Hq1)
    as (Hq2 & Hw2 & Hn2).
  destruct (for_each _ _ st1) as [st2 [[]|e]] eqn:E2; simpl in *;
    [rewrite (bind_ok _ _ _ _ _ E2) | rewrite (bind_raise _ _ _ _ _ E2)].
  2:{ split_and!; [done|by eapply store_ok_trans|done]. }
  unfold bind, deref.
  destruct (gates (world st2) !! gate) as [g2|];
    [|split_and!; [done|by eapply store_ok_trans|done]].
  destruct (Gate.additional_unitary g2) as [u|];
    [|split_and!; [done|by eapply store_ok_trans|done]].
  destruct (add_invariant u st2 Hq2) as (Hq3 & Hw3 & Hn3).
  unfold add, bind in *.
  split_and!; [done| |congruence].
  eapply store_ok_trans; [done|]. by eapply store_ok_trans.
Qed.

Lemma new_circuit_queue_prepared cl n w : queue_prepared (new_of_class cl n) w.
Proof. intros a Ha. destruct cl; simpl in Ha; by apply elem_of_nil in Ha. Qed.

(** C8. Every gate in the queue of a circuit is prepared with the circuit's
    qubit count: this holds of a new circuit, and [add] and [_add_layer] keep
    it, for the circuit they act on and for every other circuit that shares
    gates with it, whether they return or raise; a gate already prepared for
    another qubit count is refused with a [RuntimeError] and not appended;
    any other gate of the store is given the circuit's qubit count and then
    appended. *)
Theorem queue_gates_have_circuit_nqubits (st : St) (gate : addr) :
  (∀ cl n w, queue_prepared (new_of_class cl n) w)
  ∧ (queue_prepared (self st) (world st) →
     queue_prepared (self (add gate st).1) (world (add gate st).1)
     ∧ queue_prepared (self (_add_layer gate st).1)
                      (world (_add_layer gate st).1)
     ∧ ∀ c, queue_prepared c (world st) →
            queue_prepared c (world (add gate st).1)
            ∧ queue_prepared c (world (_add_layer gate st).1))
  ∧ (∀ g, gates (world st) !! gate = Some g →
       Gate.is_prepared g = true →
       Gate.nqubits g ≠ Some (nqubits (self st)) →
       ∃ msg, add gate st = (st, Raise (RuntimeError msg)))
  ∧ (∀ g, gates (world st) !! gate = Some g →
       Gate.is_prepared g = false
       ∨ Gate.nqubits g = Some (nqubits (self st)) →
       ∃ st' g', add gate st = (st', Ok tt)
                 ∧ queue (self st') = queue (self st) ++ [gate]
                 ∧ gates (world st') !! gate = Some g'
                 ∧ Gate.nqubits g' = Some (nqubits (self st))
                 ∧ Gate.is_prepared g' = true).
Proof.
  split_and!.
  - apply new_circuit_queue_prepared.
  - intros Hq.
    destruct (add_invariant gate st Hq) as (Ha & Hwa & _).
    destruct (add_layer_invariant gate st Hq) as (Hl & Hwl & _).
    split_and!; [done..|].
    intros c Hc. split; [by apply Hwa | by apply Hwl].
  - intros g Hg Hp Hn. pose proof (set_nqubits_cases gate st) as H.
    rewrite Hg, Hp in H. simpl in H.
    rewrite bool_decide_false in H by done. simpl in H.
    eexists. unfold add. by apply bind_raise.
  - intros g Hg Hok. pose proof (set_nqubits_cases gate st) as H.
    rewrite Hg in H.
    assert (Gate.is_prepared g
            && negb (bool_decide (Gate.nqubits g = Some (nqubits (self st))))
            = false) as Hm.
    { destruct Hok as [->| ->]; [done|].
      rewrite bool_decide_true by done. apply andb_false_r. }
    rewrite Hm in H. unfold add. erewrite bind_ok by done.
    eexists _, _. split; [done|]. simpl. by rewrite lookup_insert_eq.
Qed.

(** C8, at a one-qubit circuit: it takes an unprepared X gate and gives it
    one qubit; a two-qubit circuit refuses a gate prepared for one qubit. *)
Lemma queue_gates_have_circuit_nqubits_witness :
  let st1 := {| self := Circuit_init 1; world := Examples.world0 |} in
  let st2 := {| self := Circuit_init 2; world := Examples.world0 |} in
  (∃ st' g', add 1%positive st1 = (st', Ok tt)
             ∧ queue (self st') = queue (self st1) ++ [1%positive]
             ∧ gates (world st') !! 1%positive = Some g'
             ∧ Gate.nqubits g' = Some (nqubits (self st1))
             ∧ Gate.is_prepared g' = true)
  ∧ (∃ msg, add 4%positive st2 = (st2, Raise (RuntimeError msg)))
  ∧ queue_prepared (self (add 1%positive st1).1) (world (add 1%positive st1).1).
Proof.
  intros st1 st2. split_and!.
  - destruct (queue_gates_have_circuit_nqubits st1 1%positive)
      as (_ & _ & _ & H).
    apply (H Examples.X_gate); [vm_compute; reflexivity | by left].
  - destruct (queue_gates_have_circuit_nqubits st2 4%positive)
      as (_ & _ & H & _).
    apply (H Examples.M_gate);
      [vm_compute; reflexivity | reflexivity | discriminate].
  - destruct (queue_gates_have_circuit_nqubits st1 1%positive)
      as (Hnew & H & _).
    exact (proj1 (H (Hnew ClsCircuit 1 Examples.world0))).
Defined.

(** ** Copying a circuit for fusion *)

Lemma extends_refl w : extends w w.
Proof. done. Qed.

Lemma extends_trans w1 w2 w3 : extends w1 w2 → extends w2 w3 → extends w1 w3.
Proof.
  intros (H1 & H2 & H3) (H4 & H5 & H6). split_and!; [|congruence..].
  by etrans.
Qed.

Lemma extends_lookup w w' a g :
  extends w w' → gates w !! a = Some g → gates w' !! a = Some g.
Proof. intros (H & _) Hg. by eapply lookup_weaken. Qed.

Lemma extends_dom w w' a :
  extends w w' → a ∉ dom (gates w') → a ∉ dom (gates w).
Proof.
  intros (H & _) Ha Hd. apply Ha. apply elem_of_dom in Hd as [g Hg].
  apply elem_of_dom. exists g. by eapply lookup_weaken.
Qed.

Lemma alloc_fresh g st :
  ∃ a, alloc g st
       = ({| self := self st;
             world := with_gates (<[a := g]> (gates (world st))) (world st) |},
          Ok a)
       ∧ (a ∉ dom (gates (world st)))
       ∧ extends (world st)
           (with_gates (<[a := g]> (gates (world st))) (world st)).
Proof.
  exists (fresh (dom (gates (world st)))). split; [done|].
  pose proof (is_fresh (dom (gates (world st)))) as Hf.
  split; [done|]. split_and!; [|done..]. simpl.
  apply insert_subseteq. by apply not_elem_of_dom.
Qed.

Lemma copy_copy_fresh gate g st :
  gates (world st) !! gate = Some g →
  ∃ a st', copy_copy gate st = (st', Ok a)
       ∧ self st' = self st
       ∧ (a ∉ dom (gates (world st)))
       ∧ gates (world st') !! a = Some g
       ∧ extends (world st) (world st').
Proof.
  intros Hg. unfold copy_copy.
  rewrite (bind_ok _ _ st st g) by (unfold deref; by rewrite Hg).
  destruct (alloc_fresh g st) as (a & -> & Ha & He).
  eexists _, _. split; [done|]. simpl. by rewrite lookup_insert_eq.
Qed.

Lemma _fuse_copy_gate_spec nc gate g st :
  gates (world st) !! gate = Some g →
  ∃ st' nc' a', _fuse_copy_gate nc gate st = (st', Ok nc')
    ∧ self st' = self st
    ∧ extends (world st) (world st')
    ∧ queue nc' = queue nc ++ [a']
    ∧ copied_gate (world st) (world st') gate a'
    ∧ with_queue [] (with_parametrized_gates [] (with_trainable_gates [] nc'))
      = with_queue [] (with_parametrized_gates [] (with_trainable_gates [] nc)).
Proof.
  intros Hg. unfold _fuse_copy_gate.
  rewrite (bind_ok _ _ st st g) by (unfold deref; by rewrite Hg).
  unfold copied_gate.
  destruct (Gate.is_parametrized g) eqn:Hp;
    [destruct (Gate.trainable g) eqn:Ht|].
  - destruct (copy_copy_fresh gate g st Hg) as (a & st' & Hc & Hs & Ha & Hl & He).
    rewrite (bind_ok _ _ _ _ _ Hc). eexists st', _, a. split; [done|].
    split_and!; try done. exists g. by rewrite Hp, Ht.
  - eexists st, _, gate. split; [done|]. split_and!; try done.
    exists g. by rewrite Hp, Ht.
  - eexists st, _, gate. split; [done|]. split_and!; try done.
    exists g. by rewrite Hp.
Qed.

Lemma copied_gate_mono w0 w w' a a' :
  extends w0 w →
  copied_gate w w' a a' → is_Some (gates w0 !! a) → copied_gate w0 w' a a'.
Proof.
  intros H0 (g & Hg & Hc) [g0 Hg0].
  pose proof (extends_lookup _ _ _ _ H0 Hg0) as Hg'.
  rewrite Hg in Hg'. injection Hg' as ->.
  exists g0. split; [done|].
  destruct (Gate.is_parametrized g0 && Gate.trainable g0); [|done].
  destruct Hc as [Hd Hl]. split; [|done]. by eapply extends_dom.
Qed.

Lemma copied_gate_later w0 w w' a a' :
  extends w w' → copied_gate w0 w a a' → copied_gate w0 w' a a'.
Proof.
  intros H1 (g & Hg & Hc). exists g. split; [done|].
  destruct (Gate.is_parametrized g && Gate.trainable g); [|done].
  destruct Hc as [Hd Hl]. split; [done|]. by eapply extends_lookup.
Qed.

Lemma _fuse_copy_loop w0 q : ∀ nc st,
  extends w0 (world st) →
  (∀ a, a ∈ q → is_Some (gates w0 !! a)) →
  ∃ st' nc' q', fold_m _fuse_copy_gate q nc st = (st', Ok nc')
    ∧ self st' = self st
    ∧ extends (world st) (world st')
    ∧ queue nc' = queue nc ++ q'
    ∧ Forall2 (copied_gate w0 (world st')) q q'
    ∧ with_queue [] (with_parametrized_gates [] (with_trainable_gates [] nc'))
      = with_queue [] (with_parametrized_gates [] (with_trainable_gates [] nc)).
Proof.
  induction q as [|a q IH]; intros nc st He Hlive; simpl.
  { exists st, nc, []. rewrite app_nil_r. by split_and!. }
  destruct (Hlive a) as [g Hg]; [by left|].
  pose proof (extends_lookup _ _ _ _ He Hg) as Hg'.
  destruct (_fuse_copy_gate_spec nc a g st Hg')
    as (st1 & nc1 & a' & H1 & Hs1 & He1 & Hq1 & Hc1 & Hf1).
  rewrite (bind_ok _ _ _ _ _ H1).
  destruct (IH nc1 st1) as (st2 & nc2 & q' & H2 & Hs2 & He2 & Hq2 & Hc2 & Hf2).
  { by eapply extends_trans. }
  { intros b Hb. apply Hlive. by right. }
  exists st2, nc2, (a' :: q'). split; [done|]. split_and!.
  - congruence.
  - by eapply extends_trans.
  - rewrite Hq2, Hq1. by rewrite <- app_assoc.
  - constructor; [|done]. apply (copied_gate_later _ (world st1)); [done|].
    apply (copied_gate_mono w0 (world st)); eauto.
  - congruence.
Qed.

Lemma _fuse_copy_spec st :
  live (self st) (world st) →
  ∃ st' nc, _fuse_copy st = (st', Ok nc)
    ∧ self st' = self st
    ∧ extends (world st) (world st')
    ∧ Forall2 (copied_gate (world st) (world st')) (queue (self st)) (queue nc)
    ∧ cls nc = cls (self st) ∧ nqubits nc = nqubits (self st)
    ∧ _compiled_execute nc = None
    ∧ shapes nc = shapes (new_of_class (cls (self st)) (nqubits (self st)))
    ∧ check_initial_state_shape nc = true.
Proof.
  intros [Hq Hm]. unfold _fuse_copy.
  rewrite (bind_ok _ _ st st (self st)) by done.
  destruct (_fuse_copy_loop (world st) (queue (self st))
              (new_of_class (cls (self st)) (nqubits (self st))) st)
    as (st1 & nc1 & q' & H1 & Hs1 & He1 & Hq1 & Hc1 & Hf1); [done..|].
  rewrite (bind_ok _ _ _ _ _ H1).
  assert (queue nc1 = q') as Hq1'.
  { rewrite Hq1. by destruct (cls (self st)). }
  assert (cls nc1 = cls (self st) ∧ nqubits nc1 = nqubits (self st)
          ∧ _compiled_execute nc1 = None
          ∧ shapes nc1 = shapes (new_of_class (cls (self st)) (nqubits (self st)))
          ∧ check_initial_state_shape nc1 = true) as Hfields.
  { pose proof (f_equal cls Hf1) as E1. pose proof (f_equal nqubits Hf1) as E2.
    pose proof (f_equal _compiled_execute Hf1) as E3.
    pose proof (f_equal shapes Hf1) as E4.
    pose proof (f_equal check_initial_state_shape Hf1) as E5.
    simpl in *. rewrite E1, E2, E3, E4, E5.
    by destruct (cls (self st)). }
  destruct (measurement_gate (self st)) as [m|] eqn:Em.
  - destruct (Hm m eq_refl) as [g Hg].
    destruct (copy_copy_fresh m g st1) as (a & st2 & Hc & Hs & Ha & Hl & He).
    { by eapply extends_lookup. }
    rewrite (bind_ok _ _ st1 st2 (Some a)) by by rewrite (bind_ok _ _ _ _ _ Hc).
    eexists _, _. split; [done|]. simpl. split_and!; try tauto; try congruence.
    + by eapply extends_trans.
    + rewrite Hq1'. eapply Forall2_impl; [done|].
      intros x y. by apply copied_gate_later.
  - rewrite (bind_ok _ _ st1 st1 None) by done.
    eexists _, _. split; [done|]. simpl. split_and!; try tauto; try congruence.
Qed.

(** C5. The copy made by [_fuse_copy] holds, place by place, the very gate
    object of the original queue when the gate is not a trainable parametrized
    gate, and for a trainable parametrized gate a new gate object with the
    attribute values of the original: [copy.copy] makes a shallow copy, not
    the deep copy the docstring of [_fuse_copy] announces. The original
    circuit and the objects of the store are not changed by the copy itself;
    but every gate of the copy refers to the parameter tensor object of the
    gate it was made from, so that a value assigned in place to the
    parameters of the copy's gate is the value the original gate then
    holds. *)
Theorem fuse_copy_shares_gates_and_copies_trainable (st : St) :
  live (self st) (world st) →
  ∃ st' nc, _fuse_copy st = (st', Ok nc)
    ∧ self st' = self st
    ∧ extends (world st) (world st')
    ∧ Forall2 (copied_gate (world st) (world st')) (queue (self st)) (queue nc)
    ∧ Forall2 (λ a a', ∀ p,
                 (gates (world st) !! a) ≫= Gate.parameters = Some p →
                 (gates (world st') !! a') ≫= Gate.parameters = Some p
                 ∧ ∀ x, parameter_tensor
                          (assign_in_place a' x (world st')) a = Some x)
        (queue (self st)) (queue nc).
Proof.
  intros Hlive.
  destruct (_fuse_copy_spec st Hlive) as (st' & nc & H & Hs & He & Hc & _).
  exists st', nc. split_and!; try done.
  eapply Forall2_impl; [exact Hc|].
  intros a a' (g & Hg & Hcopy) p Hp.
  pose proof (extends_lookup _ _ _ _ He Hg) as Hg'.
  rewrite Hg in Hp. simpl in Hp.
  assert (gates (world st') !! a' = Some g) as Ha'.
  { destruct (Gate.is_parametrized g && Gate.trainable g).
    - by destruct Hcopy.
    - by subst a'. }
  split; [by rewrite Ha'|].
  intros x. unfold parameter_tensor, assign_in_place.
  rewrite Ha'. simpl. rewrite Hp. simpl. rewrite Hg'. simpl. rewrite Hp. simpl.
  by rewrite lookup_insert_eq.
Qed.

(** C5, at the circuit that holds a trainable rotation and an X gate. *)
Lemma fuse_copy_shares_gates_and_copies_trainable_witness :
  ∃ st' nc, _fuse_copy st_RX = (st', Ok nc)
    ∧ self st' = self st_RX
    ∧ extends (world st_RX) (world st')
    ∧ Forall2 (copied_gate (world st_RX) (world st'))
        (queue (self st_RX)) (queue nc)
    ∧ Forall2 (λ a a', ∀ p,
                 (gates (world st_RX) !! a) ≫= Gate.parameters = Some p →
                 (gates (world st') !! a') ≫= Gate.parameters = Some p
                 ∧ ∀ x, parameter_tensor
                          (assign_in_place a' x (world st')) a = Some x)
        (queue (self st_RX)) (queue nc).
Proof.
  apply fuse_copy_shares_gates_and_copies_trainable.
  split.
  - intros a Ha. vm_compute in Ha.
    apply elem_of_cons in Ha as [->|Ha];
      [eexists; vm_compute; reflexivity|].
    apply elem_of_cons in Ha as [->|Ha];
      [eexists; vm_compute; reflexivity|].
    by apply elem_of_nil in Ha.
  - intros m Hm. by vm_compute in Hm.
Defined.

(** C5 does not hold of the code: the copy of the trainable rotation is the
    new object 6, whose parameter tensor is the object 9 that the original
    rotation 5 refers to; assigning to that tensor through the copy changes
    the parameter the original gate sees. *)
Lemma fuse_copy_independent_parameter_tensor_counterexample :
  let r := _fuse_copy st_RX in
  let w' := world r.1 in
  (queue <$> (match r.2 with Ok nc => Some nc | Raise _ => None end))
    = Some [6%positive; 1%positive]
  ∧ (gates w' !! 6%positive) ≫= Gate.parameters = Some 9%positive
  ∧ (gates w' !! 5%positive) ≫= Gate.parameters = Some 9%positive
  ∧ parameter_tensor w' 5%positive = Some theta
  ∧ parameter_tensor (assign_in_place 6%positive ket0 w') 5%positive
    = Some ket0
  ∧ ¬ (∀ (st st' : St) (nc : Circuit) (i : nat) (a a' : addr) (x : tensor),
         _fuse_copy st = (st', Ok nc) →
         queue (self st) !! i = Some a → queue nc !! i = Some a' →
         parameter_tensor (assign_in_place a' x (world st')) a
         = parameter_tensor (world st') a).
Proof.
  intros r w'. split_and!; [vm_compute; reflexivity..|].
  intros H.
  specialize (H st_RX r.1 (with_measurement None ∅
                 (with_trainable_gates [6%positive]
                    (with_parametrized_gates [6%positive]
                       (with_queue [6%positive; 1%positive] (Circuit_init 1)))))
                0 5%positive 6%positive ket0).
  assert (parameter_tensor (assign_in_place 6%positive ket0 (world r.1))
            5%positive = parameter_tensor (world r.1) 5%positive) as Hbad.
  { apply H; vm_compute; reflexivity. }
  vm_compute in Hbad. discriminate Hbad.
Qed.

(** ** Shapes of the states an execution computes *)

Lemma reshape_to_ok key state st st' s :
  reshape_to key state st = (st', Ok s) →
  st' = st ∧ shapes (self st) !! key = Some (shape s) ∧ data s = data state.
Proof.
  unfold reshape_to, bind, get_self, lift, raise, K.reshape. simpl.
  destruct (shapes (self st) !! key) as [sh|]; [|done].
  case_decide; [|done]. by intros [= <- <-].
Qed.

Lemma get_initial_state_ok_shape i st st' s :
  state_vector_circuit (self st) →
  get_initial_state i st = (st', Ok s) →
  st' = st ∧ shape s = [2 ^ nqubits (self st)].
Proof.
  intros Hsv. destruct i as [|x|sa conv].
  - unfold get_initial_state, bind, get_self, ret. simpl.
    destruct Hsv as [Hc _]. unfold is_DensityMatrixCircuit. rewrite Hc.
    by intros [= <- <-].
  - rewrite get_initial_state_tensor by done.
    case_decide; [|done]. by intros [= <- <-].
  - rewrite get_initial_state_object by apply Hsv. done.
Qed.

Lemma deref_ok a st st' g :
  deref a st = (st', Ok g) → st' = st ∧ gates (world st) !! a = Some g.
Proof.
  unfold deref. destruct (gates (world st) !! a); [|done].
  by intros [= <- <-].
Qed.

Lemma call_gate_ok a state st st' s :
  call_gate a state st = (st', Ok s) →
  ∃ g e', gates (world st) !! a = Some g
          ∧ Gate.call g state (env (world st)) = (e', Ok s)
          ∧ st' = {| self := self st; world := with_env e' (world st) |}.
Proof.
  unfold call_gate, bind, deref.
  destruct (gates (world st) !! a) as [g|]; [|done].
  destruct (Gate.call g state (env (world st))) as [e' r] eqn:E.
  intros [= <- ->]. eauto.
Qed.

Lemma eager_execute_shape q : ∀ state st st' s,
  shape_preserving (world st) q →
  fold_m (λ state gate, call_gate gate state) q state st = (st', Ok s) →
  shape s = shape state.
Proof.
  induction q as [|a q IH]; intros state st st' s Hp; simpl.
  { unfold ret. by intros [= <- <-]. }
  intros H. apply bind_inv_ok in H as (st1 & s1 & H1 & H).
  pose proof (keeps_run _ _ _ _ _ (keeps_gates_call_gate a state) H1) as Hg.
  apply call_gate_ok in H1 as (g & e' & Hl & Hcall & ->).
  apply IH in H.
  - rewrite H. eapply (Hp a g); [by left|done..].
  - intros b gb Hb Hgb. apply (Hp b gb); [by right|]. done.
Qed.

Lemma execute_for_compile_loop_shape q : ∀ acc st st' r,
  shape_preserving (world st) q →
  fold_m _execute_for_compile_gate q acc st = (st', Ok r) →
  shape r.1 = shape acc.1.
Proof.
  induction q as [|a q IH]; intros [state d] st st' r Hp; simpl.
  { unfold ret. by intros [= <- <-]. }
  intros H. apply bind_inv_ok in H as (st1 & [s1 d1] & H1 & H).
  assert (shape s1 = shape state ∧ gates (world st1) = gates (world st))
    as [Hs Hg].
  { unfold _execute_for_compile_gate in H1.
    apply bind_inv_ok in H1 as (st0 & g & Hd & H1).
    apply deref_ok in Hd as [-> Hl].
    destruct (Gate.is_callback_gate g).
    - destruct (Gate.callback g) as [cb|]; [|done].
      destruct (d !! cb); [|done]. by injection H1 as <- <- <-.
    - apply bind_inv_ok in H1 as (st2 & s2 & H2 & H1).
      injection H1 as <- <- <-.
      pose proof (keeps_run _ _ _ _ _ (keeps_gates_call_gate a state) H2).
      apply call_gate_ok in H2 as (g' & e' & Hl' & Hcall & _).
      split; [|done]. eapply (Hp a g'); [by left|done..]. }
  apply IH in H.
  - simpl in *. congruence.
  - intros b gb Hb Hgb. rewrite Hg in Hgb. apply (Hp b gb); [by right|].
    done.
Qed.

Lemma apply_queue_shape B i st st' s :
  state_vector_circuit (self st) →
  K.custom_gates B = false ∨ shape_preserving (world st) (queue (self st)) →
  apply_queue B i st = (st', Ok s) →
  shape s = [2 ^ nqubits (self st)].
Proof.
  intros Hsv Hmode H.
  pose proof (keeps_run _ _ _ _ _ (keeps_self_apply_queue B i) H) as Hself.
  unfold apply_queue in H.
  apply bind_inv_ok in H as (st1 & s1 & H1 & H).
  apply get_initial_state_ok_shape in H1 as [-> Hs1]; [|done].
  apply bind_inv_ok in H as (st2 & s2 & H2 & H).
  apply bind_inv_ok in H as (st3 & c & H3 & H).
  injection H3 as <- <-.
  apply bind_inv_ok in H as (st4 & s4 & H4 & H).
  destruct (K.custom_gates B) eqn:Hk; simpl in *.
  - destruct Hmode as [|Hp]; [done|].
    injection H2 as <- <-. injection H as <- <-.
    rewrite <- Hs1.
    destruct (_compiled_execute (self st)).
    + apply bind_inv_ok in H4 as (st5 & r & H5 & H4).
      apply bind_inv_ok in H4 as (st6 & [] & _ & H4).
      injection H4 as <- <-.
      unfold _execute_for_compile in H5.
      apply bind_inv_ok in H5 as (st7 & c & H7 & H5). injection H7 as <- <-.
      apply bind_inv_ok in H5 as (st8 & d & H8 & H5).
      assert (gates (world st8) = gates (world st)) as Hg.
      { revert H8. apply (keeps_run (λ st, gates (world st))).
        apply keeps_fold_m. apply keeps_gates_callback_results_gate. }
      apply execute_for_compile_loop_shape in H5; [done|].
      intros b gb Hb Hgb. rewrite Hg in Hgb. by apply (Hp b gb).
    + unfold _eager_execute in H4.
      apply bind_inv_ok in H4 as (st5 & c & H5 & H4). injection H5 as <- <-.
      by apply eager_execute_shape in H4.
  - apply reshape_to_ok in H as (-> & Hsh & _).
    assert (self st4 = self st) as Hs4 by congruence.
    rewrite Hs4 in Hsh. destruct Hsv as [Hc [Hshapes _]].
    rewrite Hshapes, Hc in Hsh. by injection Hsh as <-.
Qed.

Lemma _device_execute_shape B i st st' s :
  state_vector_circuit (self st) →
  K.custom_gates B = false ∨ shape_preserving (world st) (queue (self st)) →
  _device_execute B i st = (st', Ok s) →
  shape s = [2 ^ nqubits (self st)].
Proof.
  intros Hsv Hmode H. apply _device_execute_ok in H.
  rewrite _execute_unfold in H.
  apply bind_inv_ok in H as (st1 & [] & H1 & H). injection H1 as <-.
  apply bind_inv_ok in H as (st2 & s2 & H2 & H).
  apply bind_inv_ok in H as (st3 & [] & _ & H). injection H as <- <-.
  by apply apply_queue_shape in H2.
Qed.

(** ** Repeated execution *)

Lemma copy_id x : K.copy x = x.
Proof.
  destruct x as [d sh l]. unfold K.copy, K.add, K.zeros_like. simpl. f_equal.
  induction l as [|[a b] l IH]; simpl; [done|].
  f_equal; [|done]. unfold cadd, c0. simpl. by rewrite !Z.add_0_r.
Qed.

Lemma record_shot_keeps_self s : keeps_self (record_shot s).
Proof. unfold record_shot. frame. Qed.

Lemma record_shot_keeps_gates s : keeps_gates (record_shot s).
Proof. unfold record_shot. frame. Qed.

Lemma repeated_shots_shots B i k : ∀ acc st st' res,
  repeated_shots B k i acc st = (st', Ok res) →
  ∃ ss rs, shots B i st ss rs st' ∧ length ss = k ∧ res = acc ++ rs.
Proof.
  induction k as [|k IH]; intros acc st st' res; simpl.
  - unfold ret. intros [= <- <-]. exists [], []. rewrite app_nil_r.
    split_and!; [constructor|done..].
  - intros H. apply bind_inv_ok in H as (st1 & s & H1 & H).
    apply bind_inv_ok in H as (st2 & c & H2 & H). injection H2 as <- <-.
    apply bind_inv_ok in H as (st3 & r & H3 & H).
    apply IH in H as (ss & rs & Hs & Hl & ->).
    exists (s :: ss), (r :: rs). split_and!.
    + by econstructor.
    + simpl. by rewrite Hl.
    + by rewrite <- app_assoc.
Qed.

Lemma shots_repeated_shots B i st ss rs st' :
  shots B i st ss rs st' →
  ∀ acc, repeated_shots B (length ss) i acc st = (st', Ok (acc ++ rs)).
Proof.
  induction 1 as [st|st st1 st2 st3 s r ss rs H1 H2 _ IH]; intros acc; simpl.
  - by rewrite app_nil_r.
  - rewrite (bind_ok _ _ _ _ _ H1).
    rewrite (bind_ok _ _ st1 st1 (self st1)) by done.
    rewrite (bind_ok _ _ st1 st2 r) by done.
    rewrite IH. by rewrite <- app_assoc.
Qed.

(** Along the shots only the stored final state and the environment of the
    gates change. *)
Lemma shots_frame B i st ss rs st' :
  shots B i st ss rs st' →
  with_final_state None (self st') = with_final_state None (self st)
  ∧ gates (world st') = gates (world st).
Proof.
  induction 1 as [st|st st1 st2 st3 s r ss rs H1 H2 _ [IH1 IH2]]; [done|].
  apply _device_execute_ok, _execute_ok in H1 as [Hs1 Hg1].
  pose proof (keeps_run _ _ _ _ _ (record_shot_keeps_self s) H2) as Hs2.
  pose proof (keeps_run _ _ _ _ _ (record_shot_keeps_gates s) H2) as Hg2.
  simpl in *. rewrite IH1, IH2, Hs2, Hg2, Hs1, Hg1. done.
Qed.

(** After at least one shot the stored final state is that of the last
    shot. *)
Lemma shots_final_state B i st ss rs st' :
  shots B i st ss rs st' → ss ≠ [] → _final_state (self st') = last ss.
Proof.
  induction 1 as [st|st st1 st2 st3 s r ss rs H1 H2 H3 IH]; [done|].
  intros _. destruct ss as [|s' ss].
  - inversion H3; subst.
    apply _device_execute_ok, _execute_ok in H1 as [Hs1 _].
    rewrite (keeps_run _ _ _ _ _ (record_shot_keeps_self s) H2), Hs1. done.
  - rewrite IH by done. done.
Qed.

(** ** The runs of the queue that a call of execute makes *)

Lemma nth_run_ignores_final_state B i c w x k st1 r :
  nth_run B i {| self := with_final_state x c; world := w |} k st1 r →
  nth_run B i {| self := c; world := w |} k st1 r.
Proof.
  intros (ss & rs & st0 & Hk & Hs & Hr).
  inversion Hs as [st Ha Hb Hc Hd|st sa sb sc s r0 ss' rs' H1 H2 H3]; subst.
  - rewrite _device_execute_ignores_final_state in Hr.
    exists [], [], {| self := c; world := w |}. split_and!; [done|constructor|done].
  - rewrite _device_execute_ignores_final_state in H1.
    exists (s :: ss'), (r0 :: rs'), st0.
    split_and!; [done| |done]. by econstructor.
Qed.

(** The loop of [_repeated_execute], whether it returns or raises: when it
    raises, after some complete shots a run of the queue failed, or it
    completed and recording its shot failed. *)
Lemma repeated_shots_runs B i k : ∀ acc st st' res,
  repeated_shots B k i acc st = (st', res) →
  match res with
  | Ok l => ∃ ss rs, shots B i st ss rs st' ∧ length ss = k ∧ l = acc ++ rs
  | Raise e =>
      ∃ j st1 r1, j < k ∧ nth_run B i st j st1 r1 ∧ self st' = self st1
                  ∧ ∀ e1, r1 = Raise e1 → e1 = e
  end.
Proof.
  induction k as [|k IH]; intros acc st st' res; simpl.
  - unfold ret. intros [= <- <-]. exists [], []. rewrite app_nil_r.
    split_and!; [constructor|done..].
  - intros H. apply bind_inv in H as [(e & H & ->)|(st1 & s & H1 & H)].
    { exists 0, st', (Raise e). split_and!; [lia| |done|by intros ? [= ->]].
      exists [], [], st. split_and!; [done|constructor|done]. }
    apply bind_inv in H as [(e & H & ->)|(st2 & c & H2 & H)]; [done|].
    injection H2 as <- <-.
    change (bind (record_shot s) (λ r, repeated_shots B k i (acc ++ [r])) st1
            = (st', res)) in H.
    apply bind_inv in H as [(e & H & ->)|(st3 & r & H3 & H)].
    { exists 0, st1, (Ok s). split_and!; [lia| | |done].
      - exists [], [], st. split_and!; [done|constructor|done].
      - revert H. apply keeps_run, record_shot_keeps_self. }
    apply IH in H. destruct res as [l|e].
    + destruct H as (ss & rs & Hs & Hl & ->).
      exists (s :: ss), (r :: rs). split_and!.
      * by econstructor.
      * simpl. by rewrite Hl.
      * by rewrite <- app_assoc.
    + destruct H as (j & sa & r1 & Hj & (ss & rs & st0 & Hl & Hs & Hr) & Hself & He).
      exists (S j), sa, r1. split_and!; [lia| |done..].
      exists (s :: ss), (r :: rs), st0. split_and!; [simpl; by rewrite Hl| |done].
      by econstructor.
Qed.

(** The last of a sequence of complete shots. *)
Lemma shots_last_run B i st ss rs st' :
  shots B i st ss rs st' → ss ≠ [] →
  ∃ k st1 s, length ss = S k ∧ nth_run B i st k st1 (Ok s)
             ∧ self st' = self st1.
Proof.
  induction 1 as [st|st st1 st2 st3 s r ss rs H1 H2 H3 IH]; [done|].
  intros _. destruct ss as [|s' ss].
  - inversion H3; subst. exists 0, st1, s. split_and!; [done| |].
    + exists [], [], st. split_and!; [done|constructor|done].
    + revert H2. apply keeps_run, record_shot_keeps_self.
  - destruct IH as (k & sa & s0 & Hk & (ss0 & rs0 & st0 & Hl & Hs & Hr) & Hself);
      [done|].
    exists (S k), sa, s0. split_and!; [simpl in *; lia| |done].
    exists (s :: ss0), (r :: rs0), st0. split_and!; [simpl; by rewrite Hl| |done].
    by econstructor.
Qed.

(** After a call of [execute], whether it returned or raised, the circuit
    object is as the last run of the queue that the call made left it; a call
    that asked for no run has only unset the final state. *)
Lemma execute_last_run B i nshots st st' r :
  execute B i nshots st = (st', r) →
  (requested_runs nshots (self st) = 0
   ∧ self st' = with_final_state None (self st))
  ∨ ∃ k st1 r1, k < requested_runs nshots (self st)
                ∧ nth_run B i st k st1 r1
                ∧ self st' = self st1
                ∧ (∀ e, r1 = Raise e → r = Raise e)
                ∧ (∀ x, r = Ok x → S k = requested_runs nshots (self st)).
Proof.
  intros H.
  assert (∀ r, (let* state := _device_execute B i in
              let* c := get_self in
              match measurement_gate c, nshots with
              | Some m, Some n =>
                  let* mgate_result := call_measurement m state n in
                  let* c := get_self in
                  ret (RResult {| register_qubits := measurement_tuples c;
                                  measurement_gate_result := mgate_result |})
              | _, _ => ret (RState state)
              end) st = (st', r) →
            ∃ st1 r1, nth_run B i st 0 st1 r1 ∧ self st' = self st1
                      ∧ ∀ e, r1 = Raise e → r = Raise e) as Hstd.
  { intros r0 H0.
    apply bind_inv in H0 as [(e0 & H0 & ->)|(st1 & s & H1 & H0)].
    - exists st', (Raise e0). split_and!; [|done|by intros ? [= ->]].
      exists [], [], st. split_and!; [done|constructor|done].
    - exists st1, (Ok s). split_and!; [| |done].
      + exists [], [], st. split_and!; [done|constructor|done].
      + revert H0. apply keeps_run. frame. }
  unfold execute in H. simpl in H. unfold bind at 1 in H. simpl in H.
  unfold requested_runs.
  destruct nshots as [n|].
  2:{ right. apply Hstd in H as (st1 & r1 & Hr & Hs & He).
      exists 0, st1, r1. split_and!; [lia|done..]. }
  destruct (repeated_execution (self st)).
  2:{ right. apply Hstd in H as (st1 & r1 & Hr & Hs & He).
      exists 0, st1, r1. split_and!; [lia|done..]. }
  unfold bind at 1 in H. simpl in H. unfold _repeated_execute in H.
  destruct st as [c w]. simpl in *.
  apply bind_inv in H as [(e0 & H & ->)|(st1 & l & H1 & H)].
  - right. apply repeated_shots_runs in H as (j & st1 & r1 & Hj & Hr & Hs & He).
    apply nth_run_ignores_final_state in Hr.
    exists j, st1, r1. split_and!; [done..| |done].
    intros e ->. by rewrite (He e eq_refl).
  - apply repeated_shots_runs in H1 as (ss & rs & Hsh & Hl & _).
    assert (self st' = self st1) as Hs.
    { revert H. apply keeps_run. frame. }
    destruct ss as [|s ss].
    + left. inversion Hsh; subst. split; [done|]. by rewrite Hs.
    + right. destruct (shots_last_run _ _ _ _ _ _ Hsh) as (k & sa & s0 & Hk & Hr & Hself);
        [done|].
      apply nth_run_ignores_final_state in Hr.
      exists k, sa, (Ok s0). split_and!; [lia|done|congruence|done|lia].
Qed.

Lemma nth_run_final_state B i st k st1 r :
  nth_run B i st k st1 r →
  _final_state (self st1)
  = match r with Ok s => Some s | Raise _ => None end.
Proof.
  intros (ss & rs & st0 & _ & _ & H). destruct r as [s|e].
  - apply _device_execute_ok, _execute_ok in H as [-> _]. done.
  - by rewrite (_device_execute_raise _ _ _ _ _ H).
Qed.

(** ** final_state after a call of execute *)




(** ** A failed execution *)

(** C3 (as amended). A run of the queue that fails, while the initial state
    is resolved or while a gate is applied, leaves [_final_state] unset,
    whatever it held before; and when [execute] raises, the final state is
    unset or is the state returned by a run of this circuit's queue that the
    call made and that went through the whole queue, never a state on which
    only part of the queue was applied. *)
Theorem failed_execution_unsets_final_state (B : K.Backend) (i : pyval) :
  (∀ st st' e, _device_execute B i st = (st', Raise e) →
     _final_state (self st') = None
     ∧ ∃ msg, final_state st' = (st', Raise (RuntimeError msg)))
  ∧ (∀ nshots st st' e, execute B i nshots st = (st', Raise e) →
       unset_or_complete B i nshots st st').
Proof.
  split.
  - intros st st' e H. apply _device_execute_raise in H.
    assert (_final_state (self st') = None) as Hn by by rewrite H.
    split; [done|]. eexists. by apply final_state_unset.
  - intros nshots st st' e H.
    apply execute_last_run in H
      as [[Hn Hs]|(k & st1 & r1 & Hk & Hr & Hs & He & Hall)].
    + left. by rewrite Hs.
    + pose proof (nth_run_final_state _ _ _ _ _ _ Hr) as Hf.
      rewrite <- Hs in Hf. destruct r1 as [s|e1]; [|by left].
      right. by exists k, st1, s.
Qed.

(** C3, at the circuit [X; picky]: after a run on |1> has completed, a run on
    |0> fails in the second gate and the final state is unset. At the circuit
    [X] whose measurement gate runs out of memory, the call raises and the
    final state is the state of the one run of the queue, which went
    through. *)
Lemma failed_execution_unsets_final_state_witness :
  let B := TensorflowBackend false in
  let st1 := (execute B (PyTensor Examples.ket1) None Examples.st_Xp).1 in
  let st2 := (_device_execute B (PyTensor Examples.ket0) st1).1 in
  (_final_state (self st2) = None
   ∧ ∃ msg, final_state st2 = (st2, Raise (RuntimeError msg)))
  ∧ unset_or_complete B PyNone (Some 10%Z) MoreExamples.st_oom_M
      (execute B PyNone (Some 10%Z) MoreExamples.st_oom_M).1.
Proof.
  intros B st1 st2. split.
  - apply (proj1 (failed_execution_unsets_final_state B
                    (PyTensor Examples.ket0))
             st1 st2 (ValueError "first amplitude is zero")).
    vm_compute. reflexivity.
  - apply (proj2 (failed_execution_unsets_final_state B PyNone)
             (Some 10%Z) MoreExamples.st_oom_M
             (execute B PyNone (Some 10%Z) MoreExamples.st_oom_M).1
             (ResourceExhaustedError "OOM when allocating tensor")).
    vm_compute. reflexivity.
Defined.

(** C3 as stated fails: on the circuit [X; picky] the run on |1> completes
    and stores its final state; the next call, on |0>, raises in the second
    gate, and the final state is then unset, not the stored one. *)
Lemma failed_execution_keeps_prior_final_state_counterexample :
  let B := TensorflowBackend false in
  let st1 := (execute B (PyTensor Examples.ket1) None Examples.st_Xp).1 in
  let r := execute B (PyTensor Examples.ket0) None st1 in
  _final_state (self st1) = Some Examples.ket0
  ∧ r.2 = Raise (ValueError "first amplitude is zero")
  ∧ _final_state (self r.1) = None
  ∧ ¬ (∀ (i : pyval) (nshots : option Z) (st st' : St) (e : exn),
         execute B i nshots st = (st', Raise e) →
         _final_state (self st') = _final_state (self st)).
Proof.
  intros B st1 r. split_and!; [vm_compute; reflexivity..|].
  intros H.
  assert (execute B (PyTensor Examples.ket0) None st1
          = (r.1, Raise (ValueError "first amplitude is zero"))) as Hr
    by (vm_compute; reflexivity).
  apply H in Hr. vm_compute in Hr. discriminate Hr.
Qed.

(** The predicate tells a completed run from an interrupted one: on the
    circuit [X; picky] called on |0>, whose only run fails in the second
    gate, a state holding |1>, the state after the first gate, is not a
    possible outcome. *)
Lemma half_applied_state_is_not_complete :
  let B := TensorflowBackend false in
  ¬ unset_or_complete B (PyTensor ket0) None st_Xp
      {| self := with_final_state (Some ket1) (self st_Xp);
         world := world st_Xp |}.
Proof.
  intros B [H|(k & st1 & s & Hk & (ss & rs & st0 & Hl & Hs & Hr) & _)];
    [discriminate H|].
  simpl in Hk. assert (ss = []) as -> by (destruct ss; [done|simpl in Hl; lia]).
  inversion Hs; subst. vm_compute in Hr. discriminate Hr.
Qed.

Lemma shots_shapes B i st ss rs st' :
  shots B i st ss rs st' →
  state_vector_circuit (self st) →
  K.custom_gates B = false ∨ shape_preserving (world st) (queue (self st)) →
  Forall (λ s, shape s = [2 ^ nqubits (self st)]) ss.
Proof.
  induction 1 as [st|st st1 st2 st3 s r ss rs H1 H2 _ IH]; intros Hsv Hmode;
    [done|].
  constructor; [by eapply _device_execute_shape|].
  apply _device_execute_ok, _execute_ok in H1 as [Hs1 Hg1].
  pose proof (keeps_run _ _ _ _ _ (record_shot_keeps_self s) H2) as Hs2.
  pose proof (keeps_run _ _ _ _ _ (record_shot_keeps_gates s) H2) as Hg2.
  simpl in *.
  assert (nqubits (self st2) = nqubits (self st)) as Hn
    by by rewrite Hs2, Hs1.
  rewrite <- Hn. apply IH.
  - rewrite Hs2, Hs1. done.
  - destruct Hmode as [|Hp]; [by left|right].
    unfold shape_preserving. rewrite Hg2, Hg1, Hs2, Hs1. done.
Qed.

(** What the shots record: without a measurement gate, the states
    themselves; with one, scalars. *)
Lemma shots_results B i st ss rs st' :
  shots B i st ss rs st' →
  match measurement_gate (self st) with
  | None => rs = ss
  | Some _ => Forall (λ r, shape r = [] ∧ length (data r) = 1) rs
  end ∧ length rs = length ss.
Proof.
  induction 1 as [st|st st1 st2 st3 s r ss rs H1 H2 _ [IH IHl]].
  { by destruct (measurement_gate (self st)). }
  apply _device_execute_ok, _execute_ok in H1 as [Hs1 Hg1].
  pose proof (keeps_run _ _ _ _ _ (record_shot_keeps_self s) H2) as Hs2.
  rewrite Hs2, Hs1 in IH. simpl in IH.
  split; [|simpl; by rewrite IHl].
  unfold record_shot in H2.
  apply bind_inv_ok in H2 as (st0 & c & H0 & H2). injection H0 as <- <-.
  rewrite Hs1 in H2. simpl in H2.
  destruct (measurement_gate (self st)) as [m|].
  - constructor; [|done].
    apply bind_inv_ok in H2 as (st4 & res & _ & H2).
    unfold lift, getitem0 in H2. destruct (data (decimal_samples res)); [done|].
    by injection H2 as <- <-.
  - injection H2 as <- <-. by rewrite copy_id, IH.
Qed.

Lemma stack_ok B rs sh :
  rs ≠ [] → Forall (λ r, shape r = sh) rs →
  ∃ t, K.stack B rs = Ok t ∧ shape t = length rs :: sh
       ∧ data t = concat (data <$> rs).
Proof.
  intros Hne Hall. destruct rs as [|r rs]; [done|]. unfold K.stack.
  assert (forallb (λ y, bool_decide (shape y = shape r)) (r :: rs) = true)
    as ->.
  { apply forallb_forall. intros y Hy. apply bool_decide_eq_true.
    rewrite Forall_forall in Hall.
    rewrite (Hall y) by by apply list_elem_of_In.
    symmetry. apply Hall. by left. }
  eexists. split; [done|]. simpl. split; [|done].
  f_equal. by inversion Hall.
Qed.

(** What [execute] does in the repeated-execution mode, once it returns. *)
Lemma execute_repeated_ok B i n st st' r :
  repeated_execution (self st) = true →
  execute B i (Some n) st = (st', Ok r) →
  let st0 := {| self := with_final_state None (self st); world := world st |} in
  ∃ ss rs t,
    shots B i st0 ss rs st' ∧ length ss = Z.to_nat n
    ∧ K.stack B rs = Ok t
    ∧ match measurement_gate (self st) with
      | None => r = RState t
      | Some m =>
          ∃ g, gates (world st) !! m = Some g
               ∧ r = RResult
                       {| register_qubits := measurement_tuples (self st);
                          measurement_gate_result :=
                            {| gr_qubits := Gate.qubits g;
                               decimal_samples := t |} |}
      end.
Proof.
  intros Hrep H st0. unfold execute in H. cbv zeta in H.
  apply bind_inv_ok in H as (st1 & c & H1 & H). injection H1 as <- <-.
  rewrite Hrep in H.
  apply bind_inv_ok in H as (st1 & [] & H1 & H). injection H1 as <-.
  fold st0 in H. unfold _repeated_execute in H.
  apply bind_inv_ok in H as (st2 & res & H2 & H).
  apply repeated_shots_shots in H2 as (ss & rs & Hs & Hl & ->). simpl in H.
  apply bind_inv_ok in H as (st3 & t & H3 & H).
  unfold lift in H3. injection H3 as <- Ht.
  apply bind_inv_ok in H as (st4 & c & H4 & H). injection H4 as <- <-.
  destruct (shots_frame _ _ _ _ _ _ Hs) as [Hf Hg].
  assert (measurement_gate (self st2) = measurement_gate (self st)
          ∧ measurement_tuples (self st2) = measurement_tuples (self st))
    as [Hm Hmt].
  { pose proof (f_equal measurement_gate Hf).
    pose proof (f_equal measurement_tuples Hf). done. }
  rewrite Hm in H. destruct (measurement_gate (self st)) as [m|].
  - apply bind_inv_ok in H as (st5 & g & H5 & H).
    apply deref_ok in H5 as [-> H5]. injection H as <- <-.
    exists ss, rs, t. split_and!; [done..|].
    exists g. rewrite Hg in H5. by rewrite Hmt.
  - injection H as <- <-. by exists ss, rs, t.
Qed.

(** C10 (as amended). In the repeated-execution mode, after [execute] with
    at least one shot has returned, [final_state] does not raise: it returns
    the state of the last shot, one state of shape [(2^n,)], which is neither
    the stacked tensor nor the result record that [execute] returned. *)
Theorem repeated_execution_final_state_is_last_shot
    (B : K.Backend) (i : pyval) (n : Z) (st st' : St) (r : ExecResult) :
  state_vector_circuit (self st) →
  repeated_execution (self st) = true →
  K.custom_gates B = false ∨ shape_preserving (world st) (queue (self st)) →
  (0 < n)%Z →
  execute B i (Some n) st = (st', Ok r) →
  ∃ ss rs s,
    shots B i {| self := with_final_state None (self st); world := world st |}
      ss rs st'
    ∧ length ss = Z.to_nat n
    ∧ last ss = Some s
    ∧ final_state st' = (st', Ok s)
    ∧ shape s = [2 ^ nqubits (self st)]
    ∧ r ≠ RState s
    ∧ ∀ t, r = RState t → shape t = [Z.to_nat n; 2 ^ nqubits (self st)].
Proof.
  intros Hsv Hrep Hmode Hn H.
  apply execute_repeated_ok in H as (ss & rs & t & Hs & Hl & Ht & Hr);
    [|done].
  assert (ss ≠ []) as Hne.
  { intros ->. simpl in Hl. lia. }
  destruct (last ss) as [s|] eqn:Hlast;
    [|by apply last_None in Hlast].
  pose proof (shots_final_state _ _ _ _ _ _ Hs Hne) as Hfin.
  pose proof (shots_shapes _ _ _ _ _ _ Hs Hsv Hmode) as Hsh. simpl in Hsh.
  pose proof (shots_results _ _ _ _ _ _ Hs) as [Hres Hlen]. simpl in Hres.
  assert (shape s = [2 ^ nqubits (self st)]) as Hshape.
  { rewrite Forall_forall in Hsh. apply Hsh.
    apply last_Some in Hlast as [l' ->].
    rewrite elem_of_app, list_elem_of_singleton. by right. }
  assert (∀ t', r = RState t' →
            shape t' = [Z.to_nat n; 2 ^ nqubits (self st)]) as Hstack.
  { intros t' ->. destruct (measurement_gate (self st)) as [m|].
    - by destruct Hr as (g & _ & Hr).
    - injection Hr as ->. subst rs.
      destruct (stack_ok B ss _ Hne Hsh) as (t2 & Ht2 & Hsh2 & _).
      rewrite Ht in Ht2. injection Ht2 as <-. by rewrite Hsh2, Hl. }
  exists ss, rs, s. split_and!; try done.
  - apply final_state_set. by rewrite Hfin.
  - intros ->. specialize (Hstack s eq_refl). by rewrite Hshape in Hstack.
Qed.

(** C10, at the noisy one-qubit circuit run for three shots. *)
Lemma repeated_execution_final_state_is_last_shot_witness :
  let B := TensorflowBackend false in
  let r := execute B PyNone (Some 3%Z) st_noise in
  ∃ ss rs s,
    shots B PyNone
      {| self := with_final_state None (self st_noise);
         world := world st_noise |} ss rs r.1
    ∧ length ss = Z.to_nat 3
    ∧ last ss = Some s
    ∧ final_state r.1 = (r.1, Ok s)
    ∧ shape s = [2 ^ nqubits (self st_noise)]
    ∧ RState {| dtype := DTYPECPX; shape := [3; 2];
                data := [c1; c0; c0; c1; c1; c0] |} ≠ RState s
    ∧ ∀ t, RState {| dtype := DTYPECPX; shape := [3; 2];
                     data := [c1; c0; c0; c1; c1; c0] |} = RState t →
           shape t = [Z.to_nat 3; 2 ^ nqubits (self st_noise)].
Proof.
  intros B r.
  apply (repeated_execution_final_state_is_last_shot B PyNone 3 st_noise r.1).
  - split; [vm_compute; reflexivity|]. split; vm_compute; reflexivity.
  - vm_compute. reflexivity.
  - by left.
  - done.
  - vm_compute. reflexivity.
Defined.

(** C10 as stated fails when no shot is run: with [nshots = 0] on the
    tensorflow backend [execute] returns (the stack of no states) and
    [final_state] then raises. *)
Lemma repeated_execution_zero_shots_counterexample :
  let B := TensorflowBackend false in
  let r := execute B PyNone (Some 0%Z) st_noise in
  repeated_execution (self st_noise) = true
  ∧ r.2 = Ok (RState {| dtype := DTYPE; shape := [0]; data := [] |})
  ∧ final_state r.1
    = (r.1, Raise (RuntimeError
                     "Cannot access final state before the circuit is executed."))
  ∧ ¬ (∀ (i : pyval) (n : Z) (st st' : St) (res : ExecResult),
         repeated_execution (self st) = true →
         execute B i (Some n) st = (st', Ok res) →
         ∃ s, final_state st' = (st', Ok s)).
Proof.
  intros B r. split_and!; [vm_compute; reflexivity..|].
  intros H.
  destruct (H PyNone 0%Z st_noise r.1
              (RState {| dtype := DTYPE; shape := [0]; data := [] |}))
    as [s Hs]; [vm_compute; reflexivity..|].
  vm_compute in Hs. discriminate Hs.
Qed.

(** *** Executions that return *)

Lemma numel_replicate n : numel (replicate n 2) = 2 ^ n.
Proof. induction n as [|n IH]; simpl; [done|]. rewrite IH. lia. Qed.

Lemma pow2_pos n : 0 < 2 ^ n.
Proof. induction n; simpl; lia. Qed.

Lemma get_initial_state_valid i st :
  state_vector_circuit (self st) → valid_initial_state (self st) i →
  ∃ s, get_initial_state i st = (st, Ok s)
       ∧ shape s = [2 ^ nqubits (self st)]
       ∧ length (data s) = 2 ^ nqubits (self st).
Proof.
  intros Hsv [->|(x & -> & Hx & Hl)].
  - eexists. unfold get_initial_state, bind, get_self, ret. simpl.
    destruct Hsv as [Hc _]. unfold is_DensityMatrixCircuit. rewrite Hc.
    split; [done|]. split; [done|]. simpl. rewrite length_replicate.
    pose proof (pow2_pos (nqubits (self st))). lia.
  - eexists. rewrite get_initial_state_tensor by done.
    rewrite decide_True by done. split; [done|]. simpl.
    by rewrite length_fmap.
Qed.

Lemma reshape_to_total key sh state st :
  shapes (self st) !! key = Some sh → numel sh = length (data state) →
  ∃ s, reshape_to key state st = (st, Ok s)
       ∧ shape s = sh ∧ data s = data state.
Proof.
  intros Hk Hn. unfold reshape_to, bind, get_self, lift, K.reshape. simpl.
  rewrite Hk. rewrite decide_True by done. eauto.
Qed.

Lemma call_gate_total a state st :
  gates_total (world st) [a] →
  ∃ st' s, call_gate a state st = (st', Ok s)
    ∧ self st' = self st ∧ gates (world st') = gates (world st)
    ∧ shape s = shape state ∧ length (data s) = length (data state).
Proof.
  intros Ht. destruct (Ht a) as (g & Hg & _ & Hcall); [by left|].
  destruct (Hcall state (env (world st))) as (e' & s' & Hc & Hs & Hl).
  unfold call_gate, bind, deref. rewrite Hg, Hc. eauto 10.
Qed.

Lemma gates_total_cons w a q :
  gates_total w (a :: q) → gates_total w [a] ∧ gates_total w q.
Proof.
  intros H. split; intros b Hb; apply H.
  - apply list_elem_of_singleton in Hb as ->. by left.
  - by right.
Qed.

Lemma eager_execute_total q : ∀ state st,
  gates_total (world st) q →
  ∃ st' s, fold_m (λ state gate, call_gate gate state) q state st
           = (st', Ok s)
    ∧ self st' = self st ∧ gates (world st') = gates (world st)
    ∧ shape s = shape state ∧ length (data s) = length (data state).
Proof.
  induction q as [|a q IH]; intros state st Ht; simpl.
  { eexists _, _. by split_and!. }
  apply gates_total_cons in Ht as [Ha Hq].
  destruct (call_gate_total a state st Ha)
    as (st1 & s1 & H1 & Hs1 & Hg1 & Hsh1 & Hl1).
  rewrite (bind_ok _ _ _ _ _ H1).
  destruct (IH s1 st1) as (st2 & s2 & H2 & Hs2 & Hg2 & Hsh2 & Hl2).
  { unfold gates_total. by rewrite Hg1. }
  eexists _, _. split; [done|]. split_and!; congruence.
Qed.

Lemma callback_results_total q : ∀ d st,
  gates_total (world st) q →
  ∃ d', fold_m _callback_results_gate q d st = (st, Ok d')
    ∧ (∀ cb, is_Some (d !! cb) → is_Some (d' !! cb))
    ∧ (∀ a g cb, a ∈ q → gates (world st) !! a = Some g →
         Gate.callback g = Some cb → is_Some (d' !! cb)).
Proof.
  induction q as [|a q IH]; intros d st Ht; simpl.
  { exists d. split_and!; [done..|]. intros a g cb Ha. by apply elem_of_nil in Ha. }
  apply gates_total_cons in Ht as [Ha Hq].
  destruct (Ha a) as (g & Hg & _); [by left|].
  assert (_callback_results_gate d a st
          = (st, Ok (match Gate.callback g with
                     | Some cb => <[cb := []]> d
                     | None => d
                     end))) as H1.
  { unfold _callback_results_gate.
    rewrite (bind_ok _ _ st st g) by (unfold deref; by rewrite Hg).
    by destruct (Gate.callback g). }
  rewrite (bind_ok _ _ _ _ _ H1).
  set (d1 := match Gate.callback g with
             | Some cb => <[cb := []]> d
             | None => d
             end).
  destruct (IH d1 st Hq) as (d' & H & Hmono & Hall).
  exists d'. split; [done|]. split.
  - intros cb' Hs. apply Hmono. unfold d1.
    destruct (Gate.callback g) as [cb|]; [|done].
    rewrite lookup_insert_is_Some.
    destruct (decide (cb = cb')); [by left | by right].
  - intros b gb cb' Hb Hgb Hcb'. apply elem_of_cons in Hb as [->|Hb].
    + rewrite Hg in Hgb. injection Hgb as <-. apply Hmono. unfold d1.
      rewrite Hcb'. rewrite lookup_insert_is_Some. by left.
    + by eapply Hall.
Qed.

Lemma execute_for_compile_loop_total q : ∀ acc st,
  gates_total (world st) q →
  (∀ a g cb, a ∈ q → gates (world st) !! a = Some g →
     Gate.callback g = Some cb → is_Some (acc.2 !! cb)) →
  ∃ st' r, fold_m _execute_for_compile_gate q acc st = (st', Ok r)
    ∧ self st' = self st ∧ gates (world st') = gates (world st)
    ∧ shape r.1 = shape acc.1 ∧ length (data r.1) = length (data acc.1).
Proof.
  induction q as [|a q IH]; intros [state d] st Ht Hd; simpl.
  { eexists _, _. by split_and!. }
  destruct (gates_total_cons _ _ _ Ht) as [Ha Hq].
  destruct (Ha a) as (g & Hg & Hcbg & _); [by left|].
  assert (∃ st1 r1, _execute_for_compile_gate (state, d) a st = (st1, Ok r1)
            ∧ self st1 = self st ∧ gates (world st1) = gates (world st)
            ∧ shape r1.1 = shape state
            ∧ length (data r1.1) = length (data state)
            ∧ (∀ cb, is_Some (d !! cb) → is_Some (r1.2 !! cb)))
    as (st1 & r1 & H1 & Hs1 & Hg1 & Hsh1 & Hl1 & Hmono).
  { unfold _execute_for_compile_gate.
    rewrite (bind_ok _ _ st st g) by (unfold deref; by rewrite Hg).
    destruct (Gate.is_callback_gate g) eqn:Hcg.
    - destruct (Hcbg eq_refl) as [cb Hcb]. rewrite Hcb.
      destruct (Hd a g cb) as [l Hl]; [by left|done..|]. simpl in Hl.
      rewrite Hl. eexists _, _. split; [done|]. split_and!; [done..|].
      intros cb' Hs. simpl. rewrite lookup_insert_is_Some.
      destruct (decide (cb = cb')); [by left | by right].
    - destruct (call_gate_total a state st Ha)
        as (st1 & s1 & H1 & Hs1 & Hg1 & Hsh1 & Hl1).
      rewrite (bind_ok _ _ _ _ _ H1). eexists _, _. split; [done|].
      by split_and!. }
  rewrite (bind_ok _ _ _ _ _ H1).
  destruct (IH r1 st1) as (st2 & r2 & H2 & Hs2 & Hg2 & Hsh2 & Hl2).
  { unfold gates_total. by rewrite Hg1. }
  { intros b gb cb Hb Hgb Hcb. apply Hmono. rewrite Hg1 in Hgb.
    apply (Hd b gb cb); [by right|done..]. }
  eexists _, _. split; [done|]. split_and!; simpl in *; congruence.
Qed.

Lemma apply_queue_total B i st :
  ready i st →
  ∃ st' s, apply_queue B i st = (st', Ok s)
    ∧ self st' = self st ∧ gates (world st') = gates (world st).
Proof.
  intros (Hsv & Hi & Hgt & _).
  destruct (get_initial_state_valid i st Hsv Hi) as (s0 & H0 & Hsh0 & Hl0).
  unfold apply_queue. rewrite (bind_ok _ _ _ _ _ H0).
  assert (shapes (self st) !! "TENSOR" = Some (replicate (nqubits (self st)) 2)
          ∧ shapes (self st) !! "TENSOR_FLAT" = Some [2 ^ nqubits (self st)])
    as [Htensor Hflat].
  { destruct Hsv as [Hc [-> _]]. by rewrite Hc. }
  assert (∃ s1, (if negb (K.custom_gates B) then reshape_to "TENSOR" s0
                 else ret s0) st = (st, Ok s1)
                ∧ length (data s1) = 2 ^ nqubits (self st))
    as (s1 & H1 & Hl1).
  { destruct (K.custom_gates B); simpl; [by exists s0|].
    destruct (reshape_to_total "TENSOR" _ s0 st Htensor) as (s1 & H1 & _ & Hd).
    { by rewrite numel_replicate. }
    exists s1. split; [done|]. by rewrite Hd. }
  rewrite (bind_ok _ _ _ _ _ H1).
  rewrite (bind_ok _ _ st st (self st)) by done.
  assert (∃ st2 s2, (match _compiled_execute (self st) with
                     | None => _eager_execute s1
                     | Some _ =>
                         let* r := _execute_for_compile s1 in
                         extend_callbacks r.2 ;;; ret r.1
                     end) st = (st2, Ok s2)
            ∧ self st2 = self st ∧ gates (world st2) = gates (world st)
            ∧ length (data s2) = 2 ^ nqubits (self st))
    as (st2 & s2 & H2 & Hs2 & Hg2 & Hl2).
  { destruct (_compiled_execute (self st)).
    - destruct (callback_results_total (queue (self st)) ∅ st Hgt)
        as (d & Hd & _ & Hall).
      destruct (execute_for_compile_loop_total (queue (self st)) (s1, d) st Hgt)
        as (st2 & r & Hr & Hs & Hg & _ & Hl); [done|].
      unfold _execute_for_compile.
      erewrite bind_ok;
        [|rewrite (bind_ok _ _ st st (self st)) by done;
          rewrite (bind_ok _ _ _ _ _ Hd); exact Hr].
      eexists _, _. split; [done|]. simpl in *. split_and!; congruence.
    - destruct (eager_execute_total (queue (self st)) s1 st Hgt)
        as (st2 & s2 & H2 & Hs & Hg & _ & Hl).
      unfold _eager_execute. rewrite (bind_ok _ _ st st (self st)) by done.
      eexists _, _. split; [done|]. split_and!; congruence. }
  rewrite (bind_ok _ _ _ _ _ H2).
  destruct (K.custom_gates B); simpl; [by eexists _, _|].
  destruct (reshape_to_total "TENSOR_FLAT" [2 ^ nqubits (self st)] s2 st2)
    as (s3 & H3 & _).
  { by rewrite Hs2. }
  { simpl. lia. }
  eexists _, _. split; [done|]. done.
Qed.

Lemma _device_execute_total B i st :
  ready i st →
  ∃ st' s, _device_execute B i st = (st', Ok s)
    ∧ self st' = with_final_state (Some s) (self st)
    ∧ gates (world st') = gates (world st).
Proof.
  intros Hr.
  destruct (apply_queue_total B i
              {| self := with_final_state None (self st); world := world st |})
    as (st1 & s & H1 & Hs1 & Hg1).
  { destruct Hr as (Hsv & Hi & Hgt & Hmt). by split_and!. }
  unfold _device_execute, except_oom. rewrite _execute_unfold.
  rewrite (bind_ok _ _ st _ tt) by done.
  rewrite (bind_ok _ _ _ _ _ H1). simpl.
  eexists _, _. split; [done|]. simpl. split; [|done]. by rewrite Hs1.
Qed.

Lemma record_shot_total s st :
  measurement_total (world st) (self st) →
  ∃ st' r, record_shot s st = (st', Ok r)
    ∧ self st' = self st ∧ gates (world st') = gates (world st).
Proof.
  intros Hm. unfold record_shot.
  rewrite (bind_ok _ _ st st (self st)) by done.
  destruct (measurement_gate (self st)) as [m|] eqn:Em; [|by eexists _, _].
  destruct (Hm m Em) as (g & Hg & Hsample).
  destruct (Hsample s (env (world st))) as (e' & t & Ht & Hne).
  assert (call_measurement m s 1 st
          = ({| self := self st; world := with_env e' (world st) |},
             Ok {| gr_qubits := Gate.qubits g; decimal_samples := t |})) as Hc.
  { unfold call_measurement, bind, deref. by rewrite Hg, Ht. }
  rewrite (bind_ok _ _ _ _ _ Hc). unfold lift, getitem0. simpl.
  destruct (data t); [done|]. by eexists _, _.
Qed.

Lemma ready_frame i st st' :
  with_final_state None (self st') = with_final_state None (self st) →
  gates (world st') = gates (world st) →
  ready i st → ready i st'.
Proof.
  intros Hf Hg (Hsv & Hi & Hgt & Hmt).
  pose proof (f_equal cls Hf) as E1. pose proof (f_equal nqubits Hf) as E2.
  pose proof (f_equal shapes Hf) as E3.
  pose proof (f_equal check_initial_state_shape Hf) as E4.
  pose proof (f_equal queue Hf) as E5.
  pose proof (f_equal measurement_gate Hf) as E6. simpl in *.
  unfold ready, state_vector_circuit, well_formed, valid_initial_state,
    gates_total, measurement_total in *.
  rewrite E1, E2, E3, E4, E5, E6, Hg. done.
Qed.

Lemma shots_total B i k : ∀ st,
  ready i st → ∃ ss rs st', shots B i st ss rs st' ∧ length ss = k.
Proof.
  induction k as [|k IH]; intros st Hr.
  { exists [], [], st. split; [constructor|done]. }
  destruct (_device_execute_total B i st Hr) as (st1 & s & H1 & Hs1 & Hg1).
  assert (ready i st1) as Hr1.
  { eapply ready_frame; [| |done]; [by rewrite Hs1|done]. }
  destruct (record_shot_total s st1) as (st2 & r & H2 & Hs2 & Hg2).
  { apply Hr1. }
  destruct (IH st2) as (ss & rs & st3 & H3 & Hl).
  { eapply ready_frame; [| |exact Hr1]; [by rewrite Hs2|done]. }
  exists (s :: ss), (r :: rs), st3. split; [by econstructor|].
  simpl. by rewrite Hl.
Qed.

Lemma gates_total_shape_preserving w q :
  gates_total w q → shape_preserving w q.
Proof.
  intros Ht a g Ha Hg s e s' e' Hcall.
  destruct (Ht a Ha) as (g' & Hg' & _ & Htot).
  rewrite Hg in Hg'. injection Hg' as <-.
  destruct (Htot s e) as (e2 & s2 & H2 & Hs & _).
  rewrite Hcall in H2. by injection H2 as <- <-.
Qed.

(** C2 (as amended). On a state-vector circuit in the repeated-execution
    mode, with gates and a measurement gate that return and a valid initial
    state, [execute] with [nshots >= 1] returns; it has run the whole queue
    [nshots] times, each time from the initial state given, each run giving a
    state of shape [(2^n,)]. Without a measurement gate the result is the
    stack of these states, of shape [(nshots, 2^n)]; with one it is a single
    result record that holds one sample per shot, each the first sample of a
    one-shot measurement of that shot's state. *)
Theorem repeated_execution_runs_nshots_shots
    (B : K.Backend) (i : pyval) (n : Z) (st : St) :
  ready i st →
  repeated_execution (self st) = true →
  (0 < n)%Z →
  ∃ st' r ss rs,
    execute B i (Some n) st = (st', Ok r)
    ∧ shots B i {| self := with_final_state None (self st); world := world st |}
        ss rs st'
    ∧ length ss = Z.to_nat n
    ∧ Forall (λ s, shape s = [2 ^ nqubits (self st)]) ss
    ∧ match measurement_gate (self st) with
      | None =>
          rs = ss
          ∧ ∃ t, r = RState t
                 ∧ shape t = [Z.to_nat n; 2 ^ nqubits (self st)]
                 ∧ data t = concat (data <$> ss)
      | Some m =>
          ∃ g t, gates (world st) !! m = Some g
                 ∧ r = RResult
                         {| register_qubits := measurement_tuples (self st);
                            measurement_gate_result :=
                              {| gr_qubits := Gate.qubits g;
                                 decimal_samples := t |} |}
                 ∧ shape t = [Z.to_nat n]
                 ∧ data t = concat (data <$> rs)
                 ∧ Forall (λ r, shape r = [] ∧ length (data r) = 1) rs
      end.
Proof.
  intros Hr Hrep Hn.
  set (st0 := {| self := with_final_state None (self st); world := world st |}).
  assert (ready i st0) as Hr0 by by eapply ready_frame.
  destruct (shots_total B i (Z.to_nat n) st0 Hr0) as (ss & rs & st' & Hs & Hl).
  pose proof (shots_repeated_shots _ _ _ _ _ _ Hs []) as Hrs.
  rewrite Hl in Hrs. simpl in Hrs.
  destruct (shots_frame _ _ _ _ _ _ Hs) as [Hf Hg].
  destruct (shots_results _ _ _ _ _ _ Hs) as [Hres Hlen]. simpl in Hres.
  assert (Forall (λ s, shape s = [2 ^ nqubits (self st)]) ss) as Hsh.
  { apply (shots_shapes _ _ _ _ _ _ Hs); [apply Hr0|].
    right. apply gates_total_shape_preserving, Hr0. }
  assert (rs ≠ []) as Hne.
  { intros ->. simpl in Hlen. lia. }
  assert (measurement_gate (self st') = measurement_gate (self st)
          ∧ measurement_tuples (self st') = measurement_tuples (self st))
    as [Hm Hmt].
  { pose proof (f_equal measurement_gate Hf).
    pose proof (f_equal measurement_tuples Hf). done. }
  assert (execute B i (Some n) st
          = (let* results := lift (K.stack B rs) in
             let* c := get_self in
             match measurement_gate c with
             | None => ret (RState results)
             | Some m =>
                 let* g := deref m in
                 ret (RResult
                        {| register_qubits := measurement_tuples c;
                           measurement_gate_result :=
                             {| gr_qubits := Gate.qubits g;
                                decimal_samples := results |} |})
             end) st') as Hex.
  { unfold execute. cbv zeta.
    rewrite (bind_ok _ _ st st (self st)) by done. rewrite Hrep.
    rewrite (bind_ok _ _ st st0 tt) by done.
    unfold _repeated_execute. by rewrite (bind_ok _ _ _ _ _ Hrs). }
  rewrite Hex. clear Hex.
  destruct (measurement_gate (self st)) as [m|] eqn:Em.
  - destruct (stack_ok B rs [] Hne) as (t & Ht & Hsht & Hdt).
    { eapply Forall_impl; [done|]. by intros r [? _]. }
    rewrite (bind_ok _ _ st' st' t) by (unfold lift; by rewrite Ht).
    rewrite (bind_ok _ _ st' st' (self st')) by done. rewrite Hm.
    destruct Hr as (_ & _ & _ & Hmtot).
    destruct (Hmtot m Em) as (g & Hgm & _).
    rewrite (bind_ok _ _ st' st' g)
      by (unfold deref; rewrite Hg; simpl; by rewrite Hgm).
    eexists st', _, ss, rs. split; [done|]. split_and!; [done..|].
    exists g, t. rewrite Hmt. split_and!; try done. by rewrite Hsht, Hlen, Hl.
  - assert (Forall (λ r, shape r = [2 ^ nqubits (self st)]) rs) as Hshr
      by by rewrite Hres.
    destruct (stack_ok B rs _ Hne Hshr) as (t & Ht & Hsht & Hdt).
    rewrite (bind_ok _ _ st' st' t) by (unfold lift; by rewrite Ht).
    rewrite (bind_ok _ _ st' st' (self st')) by done. rewrite Hm.
    eexists st', _, ss, rs. split; [done|]. split_and!; [done..|].
    exists t. split_and!; [done| |by rewrite <- Hres].
    by rewrite Hsht, Hlen, Hl.
Qed.

Lemma flip_shape x : shape (flip x) = shape x.
Proof. done. Qed.

Lemma flip_length x : length (data (flip x)) = length (data x).
Proof. simpl. apply length_reverse. Qed.

Lemma st_noise_ready : ready PyNone st_noise.
Proof.
  split_and!.
  - split; [vm_compute; reflexivity|]. split; vm_compute; reflexivity.
  - by left.
  - intros a Ha. vm_compute in Ha.
    apply list_elem_of_singleton in Ha as ->.
    exists (Gate.prepare (Gate.set_nqubits 1 noise_gate)).
    split; [vm_compute; reflexivity|]. split; [done|].
    intros s e. eexists _, _. split; [reflexivity|].
    destruct (N.even (rng e)); [done|].
    split; [apply flip_shape | apply flip_length].
  - intros m Hm. by vm_compute in Hm.
Qed.

Lemma st_noise_M_ready : ready PyNone st_noise_M.
Proof.
  split_and!.
  - split; [vm_compute; reflexivity|]. split; vm_compute; reflexivity.
  - by left.
  - intros a Ha. vm_compute in Ha.
    apply list_elem_of_singleton in Ha as ->.
    exists (Gate.prepare (Gate.set_nqubits 1 noise_gate)).
    split; [vm_compute; reflexivity|]. split; [done|].
    intros s e. eexists _, _. split; [reflexivity|].
    destruct (N.even (rng e)); [done|].
    split; [apply flip_shape | apply flip_length].
  - intros m Hm. vm_compute in Hm. injection Hm as <-.
    exists M_gate. split; [vm_compute; reflexivity|].
    intros s e. eexists _, _. split; [reflexivity|]. done.
Qed.

(** C2, at the noisy one-qubit circuit run for three shots, without and with
    a measurement gate. *)
Lemma repeated_execution_runs_nshots_shots_witness :
  let B := TensorflowBackend false in
  (∃ st' r ss rs,
     execute B PyNone (Some 3%Z) st_noise = (st', Ok r)
     ∧ shots B PyNone
         {| self := with_final_state None (self st_noise);
            world := world st_noise |} ss rs st'
     ∧ length ss = Z.to_nat 3
     ∧ Forall (λ s, shape s = [2 ^ nqubits (self st_noise)]) ss
     ∧ match measurement_gate (self st_noise) with
       | None =>
           rs = ss
           ∧ ∃ t, r = RState t
                  ∧ shape t = [Z.to_nat 3; 2 ^ nqubits (self st_noise)]
                  ∧ data t = concat (data <$> ss)
       | Some m =>
           ∃ g t, gates (world st_noise) !! m = Some g
                  ∧ r = RResult
                          {| register_qubits := measurement_tuples (self st_noise);
                             measurement_gate_result :=
                               {| gr_qubits := Gate.qubits g;
                                  decimal_samples := t |} |}
                  ∧ shape t = [Z.to_nat 3]
                  ∧ data t = concat (data <$> rs)
                  ∧ Forall (λ r, shape r = [] ∧ length (data r) = 1) rs
       end)
  ∧ (execute B PyNone (Some 3%Z) st_noise).2
    = Ok (RState {| dtype := DTYPECPX; shape := [3; 2];
                    data := [c1; c0; c0; c1; c1; c0] |}).
Proof.
  intros B. split.
  - apply (repeated_execution_runs_nshots_shots B PyNone 3 st_noise).
    + exact st_noise_ready.
    + vm_compute. reflexivity.
    + done.
  - vm_compute. reflexivity.
Defined.

(** C2 as stated fails when [nshots] is 0: no shot is run, and the result is
    what the backend makes of an empty stack, the empty tensor of shape
    [(0,)] on tensorflow, not one of shape [(0, 2^n)], and an error on
    numpy. *)
Lemma repeated_execution_zero_shots_shape_counterexample :
  let B := TensorflowBackend false in
  ready PyNone st_noise
  ∧ repeated_execution (self st_noise) = true
  ∧ measurement_gate (self st_noise) = None
  ∧ (execute B PyNone (Some 0%Z) st_noise).2
    = Ok (RState {| dtype := DTYPE; shape := [0]; data := [] |})
  ∧ (execute (NumpyBackend false) PyNone (Some 0%Z) st_noise).2
    = Raise (ValueError "need at least one array to stack")
  ∧ ¬ (∀ (n : Z) (st : St),
         ready PyNone st → repeated_execution (self st) = true →
         measurement_gate (self st) = None →
         ∃ st' t, execute B PyNone (Some n) st = (st', Ok (RState t))
                  ∧ shape t = [Z.to_nat n; 2 ^ nqubits (self st)]).
Proof.
  intros B. split; [exact st_noise_ready|].
  split_and!; [vm_compute; reflexivity..|].
  intros H.
  destruct (H 0%Z st_noise st_noise_ready) as (st' & t & Hex & Hsh);
    [vm_compute; reflexivity..|].
  assert ((execute B PyNone (Some 0%Z) st_noise).2
          = Ok (RState {| dtype := DTYPE; shape := [0]; data := [] |})) as Hr
    by (vm_compute; reflexivity).
  rewrite Hex in Hr. simpl in Hr. injection Hr as ->.
  vm_compute in Hsh. discriminate Hsh.
Qed.

Import MoreExamples.

(** * Further properties of the execution engine *)

(** ** Errors of the device *)

Lemma execute_standard_unfold B i n st :
  repeated_execution (self st) = false →
  execute B i (Some n) st
  = (let* state := _device_execute B i in
     let* c := get_self in
     match measurement_gate c with
     | Some m =>
         let* mgate_result := call_measurement m state n in
         let* c := get_self in
         ret (RResult {| register_qubits := measurement_tuples c;
                         measurement_gate_result := mgate_result |})
     | None => ret (RState state)
     end) st.
Proof.
  intros Hrep. unfold execute. cbv zeta.
  rewrite (bind_ok _ _ st st (self st)) by done. rewrite Hrep.
  apply bind_cong; [done|]. intros s st1 _.
  apply bind_cong; [done|]. intros c st2 _. by destruct (measurement_gate c).
Qed.

(** X1. An out-of-memory error of the backend never leaves [_device_execute]: it
    is turned into a [RuntimeError]. Sampling the measurements is outside of it:
    when the queue has been applied and the sampling then raises, also out of
    memory, [execute] raises that very error, and the final state of the run can
    still be read. *)
Theorem out_of_memory_converted_in_queue_only
    (B : K.Backend) (i : pyval) (st : St) :
  (∀ st' e, _device_execute B i st = (st', Raise e) → is_oom_error e = false)
  ∧ (∀ st' e, _execute B i st = (st', Raise e) → is_oom_error e = true →
       ∃ msg, _device_execute B i st = (st', Raise (RuntimeError msg)))
  ∧ (∀ n m st1 st2 s e,
       repeated_execution (self st) = false →
       _device_execute B i st = (st1, Ok s) →
       measurement_gate (self st1) = Some m →
       call_measurement m s n st1 = (st2, Raise e) →
       execute B i (Some n) st = (st2, Raise e)
       ∧ final_state st2 = (st2, Ok s)).
Proof.
  split_and!.
  - intros st' e. unfold _device_execute, except_oom.
    destruct (_execute B i st) as [st1 [s|e1]]; [done|].
    destruct (is_oom_error e1) eqn:Ho.
    + unfold raise, raise_error. by intros [= <- <-].
    + intros [= <- <-]. done.
  - intros st' e H Ho. unfold _device_execute, except_oom. rewrite H, Ho.
    by eexists.
  - intros n m st1 st2 s e Hrep H1 Hm H2.
    rewrite execute_standard_unfold by done.
    rewrite (bind_ok _ _ _ _ _ H1).
    rewrite (bind_ok _ _ st1 st1 (self st1)) by done. rewrite Hm.
    rewrite (bind_raise _ _ _ _ _ H2). split; [done|].
    apply final_state_set.
    rewrite (keeps_run _ _ _ _ _ (keeps_self_call_measurement _ _ _) H2).
    apply _device_execute_ok, _execute_ok in H1 as [-> _]. done.
Qed.

(** The circuit [X; oom] raises a [RuntimeError]; the circuit [X] with the
    measurement gate that runs out of memory raises the backend's error. *)
Lemma out_of_memory_converted_in_queue_only_witness :
  let B := TensorflowBackend false in
  (∃ msg, (_device_execute B PyNone st_oom).2 = Raise (RuntimeError msg))
  ∧ (execute B PyNone (Some 10%Z) st_oom_M).2
    = Raise (ResourceExhaustedError "OOM when allocating tensor")
  ∧ final_state (execute B PyNone (Some 10%Z) st_oom_M).1
    = ((execute B PyNone (Some 10%Z) st_oom_M).1, Ok ket1).
Proof.
  intros B.
  destruct (out_of_memory_converted_in_queue_only B PyNone st_oom)
    as (_ & Hq & _).
  destruct (out_of_memory_converted_in_queue_only B PyNone st_oom_M)
    as (_ & _ & Hm).
  split.
  - destruct (Hq (_execute B PyNone st_oom).1
                (ResourceExhaustedError "OOM when allocating tensor"))
      as [msg Hmsg]; [vm_compute; reflexivity | done |].
    exists msg. by rewrite Hmsg.
  - destruct (Hm 10%Z 3%positive (_device_execute B PyNone st_oom_M).1
                (execute B PyNone (Some 10%Z) st_oom_M).1 ket1
                (ResourceExhaustedError "OOM when allocating tensor"))
      as [H1 H2]; [vm_compute; reflexivity..|].
    split; [by rewrite H1 | done].
Defined.

(** ** The final state of an earlier execution *)

(** X2. What [execute] returns and the state it leaves behind do not depend on
    the final state stored by an earlier execution: every call starts by
    discarding it. *)
Theorem execute_ignores_stored_final_state
    (B : K.Backend) (i : pyval) (nshots : option Z) (c : Circuit) (w : World)
    (x : option tensor) :
  execute B i nshots {| self := with_final_state x c; world := w |}
  = execute B i nshots {| self := c; world := w |}.
Proof.
  assert (∀ k : tensor → M ExecResult,
            bind (_device_execute B i) k
              {| self := with_final_state x c; world := w |}
            = bind (_device_execute B i) k {| self := c; world := w |}) as Hstd.
  { intros k. unfold bind. by rewrite _device_execute_ignores_final_state. }
  unfold execute. cbv zeta.
  rewrite (bind_ok _ _ {| self := with_final_state x c; world := w |}
             {| self := with_final_state x c; world := w |}
             (with_final_state x c)) by done.
  rewrite (bind_ok _ _ {| self := c; world := w |} {| self := c; world := w |}
             c) by done.
  simpl. destruct nshots as [n|]; [|apply Hstd].
  destruct (repeated_execution c); [done | apply Hstd].
Qed.

(** ** The shape of the final state *)

Lemma well_formed_tensor_flat c :
  well_formed c →
  shapes c !! "TENSOR_FLAT"
  = Some (match cls c with
          | ClsCircuit => [2 ^ nqubits c]
          | ClsDensityMatrixCircuit => [2 ^ nqubits c; 2 ^ nqubits c]
          end).
Proof. intros [-> _]. by destruct (cls c). Qed.

(** X3. With the standard gates of the backend (no custom operators), a run that
    returns gives a state of exactly the flat shape of the circuit's class,
    [(2^n,)] for a state-vector circuit and [(2^n, 2^n)] for a density-matrix
    circuit, with as many entries, whatever shapes the gates return; this state
    is what [final_state] then gives. *)
Theorem final_state_has_flat_shape
    (B : K.Backend) (i : pyval) (st st' : St) (s : tensor) :
  well_formed (self st) →
  K.custom_gates B = false →
  _execute B i st = (st', Ok s) →
  shape s = match cls (self st) with
            | ClsCircuit => [2 ^ nqubits (self st)]
            | ClsDensityMatrixCircuit =>
                [2 ^ nqubits (self st); 2 ^ nqubits (self st)]
            end
  ∧ length (data s) = numel (shape s)
  ∧ final_state st' = (st', Ok s).
Proof.
  intros Hwf Hk H.
  assert (final_state st' = (st', Ok s)) as Hfin.
  { apply final_state_set. apply _execute_ok in H as [-> _]. done. }
  split_and!; [| |done].
  - rewrite _execute_unfold in H.
    apply bind_inv_ok in H as (st1 & [] & H1 & H). injection H1 as <-.
    apply bind_inv_ok in H as (st2 & s2 & H2 & H).
    apply bind_inv_ok in H as (st3 & [] & _ & H). injection H as <- <-.
    pose proof (keeps_run _ _ _ _ _ (keeps_self_apply_queue B i) H2) as Hs.
    unfold apply_queue in H2. rewrite Hk in H2. simpl in H2.
    apply bind_inv_ok in H2 as (sa & s0 & _ & H2).
    apply bind_inv_ok in H2 as (sb & s1 & _ & H2).
    apply bind_inv_ok in H2 as (sc & c & _ & H2).
    apply bind_inv_ok in H2 as (sd & s3 & H3 & H2).
    pose proof (keeps_run _ _ _ _ _ (keeps_self_reshape_to _ _) H2) as Hs'.
    apply reshape_to_ok in H2 as (-> & Hsh & _).
    rewrite Hs in Hsh. simpl in Hsh.
    rewrite (well_formed_tensor_flat _ Hwf) in Hsh. by injection Hsh as <-.
  - rewrite _execute_unfold in H.
    apply bind_inv_ok in H as (st1 & [] & H1 & H). injection H1 as <-.
    apply bind_inv_ok in H as (st2 & s2 & H2 & H).
    apply bind_inv_ok in H as (st3 & [] & _ & H). injection H as <- <-.
    unfold apply_queue in H2. rewrite Hk in H2. simpl in H2.
    apply bind_inv_ok in H2 as (sa & s0 & _ & H2).
    apply bind_inv_ok in H2 as (sb & s1 & _ & H2).
    apply bind_inv_ok in H2 as (sc & c & _ & H2).
    apply bind_inv_ok in H2 as (sd & s3 & H3 & H2).
    unfold reshape_to, bind, get_self, lift, raise, K.reshape in H2.
    simpl in H2. destruct (shapes (self sd) !! "TENSOR_FLAT"); [|done].
    case_decide; [|done]. by injection H2 as <- <-.
Qed.

(** A one-qubit density-matrix circuit holding an X gate, run on |1>. *)
Lemma final_state_has_flat_shape_witness :
  let B := TensorflowBackend false in
  let st := (add 1%positive {| self := DensityMatrixCircuit_init 1;
                               world := world0 |}).1 in
  let r := _execute B (PyTensor ket1) st in
  ∃ s, r.2 = Ok s
       ∧ shape s = [2; 2] ∧ length (data s) = numel (shape s)
       ∧ final_state r.1 = (r.1, Ok s).
Proof.
  intros B st r.
  exists {| dtype := DTYPECPX; shape := [2; 2]; data := [c1; c0; c0; c0] |}.
  split; [vm_compute; reflexivity|].
  apply (final_state_has_flat_shape B (PyTensor ket1) st r.1).
  - split; vm_compute; reflexivity.
  - reflexivity.
  - vm_compute. reflexivity.
Defined.

(** ** Repeated execution without shots *)

(** X4. In the repeated-execution mode a call with [nshots <= 0] runs nothing:
    the initial state is not even checked, no gate is applied, only the stored
    final state is discarded, so that [final_state] raises afterwards; what is
    returned is what the backend makes of an empty stack. *)
Theorem repeated_execution_without_shots
    (B : K.Backend) (i : pyval) (n : Z) (st : St) :
  repeated_execution (self st) = true →
  (n ≤ 0)%Z →
  let st0 := {| self := with_final_state None (self st); world := world st |} in
  (∃ msg, final_state (execute B i (Some n) st).1
          = ((execute B i (Some n) st).1, Raise (RuntimeError msg)))
  ∧ (execute B i (Some n) st).1 = st0
  ∧ (measurement_gate (self st) = None →
     (execute B i (Some n) st).2
     = match K.stack_empty B with
       | Ok t => Ok (RState t)
       | Raise e => Raise e
       end).
Proof.
  intros Hrep Hn st0.
  assert (Z.to_nat n = 0) as Hz by lia.
  assert (execute B i (Some n) st
          = (let* results := lift (K.stack_empty B) in
             let* c := get_self in
             match measurement_gate c with
             | None => ret (RState results)
             | Some m =>
                 let* g := deref m in
                 ret (RResult
                        {| register_qubits := measurement_tuples c;
                           measurement_gate_result :=
                             {| gr_qubits := Gate.qubits g;
                                decimal_samples := results |} |})
             end) st0) as Hex.
  { unfold execute. cbv zeta.
    rewrite (bind_ok _ _ st st (self st)) by done. rewrite Hrep.
    rewrite (bind_ok _ _ st st0 tt) by done.
    unfold _repeated_execute. rewrite Hz. simpl.
    by rewrite (bind_ok _ _ st0 st0 []) by done. }
  assert ((execute B i (Some n) st).1 = st0) as Hst.
  { rewrite Hex. unfold bind, lift, get_self, deref, ret. simpl.
    destruct (K.stack_empty B); [|done]. simpl.
    destruct (measurement_gate (self st)) as [m|]; [|done].
    by destruct (gates (world st0) !! m). }
  split_and!; [|done|].
  - rewrite Hst. eexists. by apply final_state_unset.
  - intros Hm. rewrite Hex. unfold bind, lift, get_self, ret. simpl.
    destruct (K.stack_empty B); [|done]. simpl. by rewrite Hm.
Qed.

(** The noisy one-qubit circuit asked for no shot, on tensorflow. *)
Lemma repeated_execution_without_shots_witness :
  let B := TensorflowBackend false in
  let r := execute B (PyObject None None) (Some 0%Z) st_noise in
  (∃ msg, final_state r.1 = (r.1, Raise (RuntimeError msg)))
  ∧ r.1 = {| self := with_final_state None (self st_noise);
             world := world st_noise |}
  ∧ (measurement_gate (self st_noise) = None →
     r.2 = match K.stack_empty B with
           | Ok t => Ok (RState t)
           | Raise e => Raise e
           end).
Proof.
  intros B r.
  apply (repeated_execution_without_shots B (PyObject None None) 0 st_noise).
  - vm_compute. reflexivity.
  - done.
Defined.

(** ** The default initial state *)

Lemma cast_initial_state n m :
  K.cast (K.initial_state n m) DTYPECPX = K.initial_state n m.
Proof. unfold K.cast. simpl. by rewrite list_fmap_id. Qed.

Lemma get_initial_state_default st :
  well_formed (self st) →
  get_initial_state PyNone st
  = get_initial_state
      (PyTensor (K.initial_state (nqubits (self st))
                   (is_DensityMatrixCircuit (self st)))) st.
Proof.
  intros Hwf. unfold is_DensityMatrixCircuit.
  destruct (cls (self st)) eqn:Hc.
  - rewrite get_initial_state_tensor by done.
    rewrite decide_True by done. rewrite cast_initial_state.
    unfold get_initial_state, bind, get_self, ret, is_DensityMatrixCircuit.
    simpl. by rewrite Hc.
  - rewrite get_initial_state_density_matrix by done.
    rewrite cast_initial_state.
    unfold get_initial_state, bind, get_self, ret, is_DensityMatrixCircuit.
    simpl. by rewrite Hc.
Qed.

(** X5. Executing a circuit without an initial state is executing it on the
    state [K.initial_state(nqubits, is_matrix)] given explicitly, a vector for a
    state-vector circuit and a matrix for a density-matrix circuit: the result,
    the state left behind and the final state are the same, in every mode of
    [execute]. *)
Theorem default_initial_state_is_backend_zero_state
    (B : K.Backend) (st : St) (nshots : option Z) :
  well_formed (self st) →
  let zero := K.initial_state (nqubits (self st))
                (is_DensityMatrixCircuit (self st)) in
  get_initial_state PyNone st = (st, Ok zero)
  ∧ execute B PyNone nshots st = execute B (PyTensor zero) nshots st.
Proof.
  intros Hwf zero. split; [done|].
  apply (execute_same B _ _
           (λ c, well_formed c ∧ nqubits c = nqubits (self st)
                 ∧ cls c = cls (self st))); [done| |done].
  intros st0 (Hwf0 & Hn & Hc). rewrite get_initial_state_default by done.
  unfold zero, is_DensityMatrixCircuit. by rewrite Hn, Hc.
Qed.

(** The one-qubit circuit holding an X gate, on tensorflow. *)
Lemma default_initial_state_is_backend_zero_state_witness :
  let B := TensorflowBackend false in
  get_initial_state PyNone st_Xp = (st_Xp, Ok ket0)
  ∧ execute B PyNone None st_Xp = execute B (PyTensor ket0) None st_Xp.
Proof.
  intros B.
  apply (default_initial_state_is_backend_zero_state B st_Xp None).
  split; vm_compute; reflexivity.
Defined.

(** *** The zero vector promoted *)

Lemma cmul_c1_conj a : cmul c1 (cconj a) = cconj a.
Proof. destruct a as [x y]. unfold cmul, cconj, c1. simpl. f_equal; lia. Qed.

Lemma cmul_c0 a : cmul c0 a = c0.
Proof. destruct a as [x y]. unfold cmul, c0. simpl. f_equal; lia. Qed.

Lemma bind_replicate_c0 k (l : list Cplx) :
  (replicate k c0 ≫= λ a, cmul a <$> l) = replicate (k * length l) c0.
Proof.
  induction k as [|k IH]; [done|].
  change (replicate (S k) c0) with (c0 :: replicate k c0).
  rewrite bind_cons, IH.
  change (S k * length l) with (length l + k * length l).
  rewrite replicate_add. f_equal.
  clear IH. induction l as [|b l IHl]; [done|]. rewrite fmap_cons, cmul_c0, IHl. done.
Qed.

Lemma outer_zero_vector n :
  K.cast (K.outer (K.initial_state n false) (K.conj (K.initial_state n false)))
    DTYPECPX
  = K.initial_state n true.
Proof.
  unfold K.cast, K.outer, K.conj, K.initial_state.
  cbn [dtype shape data app]. f_equal.
  change (K.cast_entry DTYPECPX) with (λ a : Cplx, a). rewrite list_fmap_id.
  rewrite bind_cons, bind_replicate_c0, !fmap_cons, !fmap_replicate.
  rewrite !cmul_c1_conj.
  change (cconj c1) with c1. change (cconj c0) with c0.
  cbn [length app]. rewrite length_replicate. f_equal.
  rewrite <- replicate_add. f_equal.
  unfold numel. cbn [foldr]. pose proof (pow2_pos n). nia.
Qed.

(** X6. A density-matrix circuit run without an initial state, on the zero state
    vector [K.initial_state(nqubits)] and on the zero density matrix
    [K.initial_state(nqubits, is_matrix=True)] is the same execution: the
    promotion of the zero vector is the default matrix. *)
Theorem density_matrix_default_state_is_promoted_zero_vector
    (B : K.Backend) (st : St) (nshots : option Z) :
  density_matrix_circuit (self st) →
  let v := K.initial_state (nqubits (self st)) false in
  get_initial_state (PyTensor v) st = get_initial_state PyNone st
  ∧ execute B (PyTensor v) nshots st = execute B PyNone nshots st.
Proof.
  intros Hdm v.
  assert (∀ st0, (density_matrix_circuit (self st0)
                  ∧ nqubits (self st0) = nqubits (self st)) →
            get_initial_state (PyTensor v) st0
            = get_initial_state PyNone st0) as Hsame.
  { intros st0 [Hdm0 Hn].
    rewrite get_initial_state_promotes; [|done|by rewrite Hn].
    unfold v. rewrite outer_zero_vector.
    unfold get_initial_state, bind, get_self, ret. simpl.
    unfold is_DensityMatrixCircuit. destruct Hdm0 as [-> _]. by rewrite Hn. }
  split; [by apply Hsame|].
  apply (execute_same B _ _
           (λ c, density_matrix_circuit c ∧ nqubits c = nqubits (self st)));
    [|done|done].
  intros c s [H1 H2]. done.
Qed.

(** A one-qubit density-matrix circuit holding an X gate. *)
Lemma density_matrix_default_state_is_promoted_zero_vector_witness :
  let B := TensorflowBackend false in
  let st := (add 1%positive {| self := DensityMatrixCircuit_init 1;
                               world := world0 |}).1 in
  get_initial_state (PyTensor ket0) st = get_initial_state PyNone st
  ∧ execute B (PyTensor ket0) None st = execute B PyNone None st.
Proof.
  intros B st.
  apply (density_matrix_default_state_is_promoted_zero_vector B st None).
  split; [vm_compute; reflexivity|]. split; vm_compute; reflexivity.
Defined.

(** ** Initial states of a density-matrix circuit *)

Lemma get_initial_state_dm_no_shape st conv :
  cls (self st) = ClsDensityMatrixCircuit →
  get_initial_state (PyObject None conv) st
  = (st, Raise (AttributeError "object has no attribute 'shape'")).
Proof.
  intros Hc. unfold get_initial_state, _cast_initial_state,
    DensityMatrixCircuit_cast_initial_state, bind, get_self.
  simpl. by rewrite Hc.
Qed.

Lemma get_initial_state_dm_object st sh conv :
  density_matrix_circuit (self st) →
  sh ≠ [2 ^ nqubits (self st)] →
  get_initial_state (PyObject (Some sh) conv) st
  = (st, Raise (TypeError "Initial state type {} is not recognized.")).
Proof.
  intros Hdm Hsh. destruct (density_matrix_flat _ Hdm) as [Hflat Hvec].
  destruct Hdm as [Hc _].
  unfold get_initial_state, _cast_initial_state,
    DensityMatrixCircuit_cast_initial_state, bind, get_self, ret.
  simpl. rewrite Hc. simpl. rewrite Hvec. simpl.
  by rewrite bool_decide_false by done.
Qed.

Lemma get_initial_state_dm_object_vector st x :
  density_matrix_circuit (self st) →
  shape x = [2 ^ nqubits (self st)] →
  get_initial_state (PyObject (Some (shape x)) (Some x)) st
  = (st, Ok (K.cast (K.outer x (K.conj x)) DTYPECPX)).
Proof.
  intros Hdm Hv. destruct (density_matrix_flat _ Hdm) as [Hflat Hvec].
  destruct Hdm as [Hc [_ Hchk]].
  unfold get_initial_state, _cast_initial_state,
    DensityMatrixCircuit_cast_initial_state, bind, get_self, ret. simpl.
  rewrite Hc. simpl. rewrite Hvec. simpl.
  rewrite bool_decide_true by done. simpl.
  rewrite Hchk, Hflat, Hv. simpl.
  by rewrite bool_decide_false by (intros H; by apply H).
Qed.

Lemma get_initial_state_dm_tensor_shape st x :
  density_matrix_circuit (self st) →
  shape x ≠ [2 ^ nqubits (self st)] →
  shape x ≠ [2 ^ nqubits (self st); 2 ^ nqubits (self st)] →
  get_initial_state (PyTensor x) st
  = (st, Raise (ValueError
       "Invalid initial state shape {} for circuit with {} qubits.")).
Proof.
  intros Hdm H1 H2. destruct (density_matrix_flat _ Hdm) as [Hflat Hvec].
  destruct Hdm as [Hc [_ Hchk]].
  unfold get_initial_state, _cast_initial_state,
    DensityMatrixCircuit_cast_initial_state, bind, get_self, ret. simpl.
  rewrite Hc. simpl. rewrite Hvec. simpl.
  rewrite bool_decide_false by done. simpl.
  rewrite Hchk, Hflat. simpl.
  rewrite bool_decide_true; [done|]. intros [= H]. done.
Qed.

(** X7. What a density-matrix circuit of [n] qubits does with an initial state,
    in the order of the code: the [shape] attribute is read first, so an object
    without one (a Python list, say) is refused with an [AttributeError], not a
    [TypeError]; an object that is not a tensor and whose shape is not [(2^n,)]
    is refused with a [TypeError]; such an object of shape [(2^n,)] that the
    backend can convert is accepted and promoted, the type check seeing only the
    promoted tensor; a tensor whose shape is neither [(2^n,)] nor [(2^n, 2^n)]
    is refused with a [ValueError]. A refusal fails the execution with the same
    error. *)
Theorem density_matrix_initial_state_checks (B : K.Backend) (st : St) :
  density_matrix_circuit (self st) →
  let n := nqubits (self st) in
  (∀ conv, ∃ msg,
     get_initial_state (PyObject None conv) st
     = (st, Raise (AttributeError msg))
     ∧ (_device_execute B (PyObject None conv) st).2
       = Raise (AttributeError msg))
  ∧ (∀ sh conv, sh ≠ [2 ^ n] → ∃ msg,
       get_initial_state (PyObject (Some sh) conv) st
       = (st, Raise (TypeError msg))
       ∧ (_device_execute B (PyObject (Some sh) conv) st).2
         = Raise (TypeError msg))
  ∧ (∀ x, shape x = [2 ^ n] →
       get_initial_state (PyObject (Some (shape x)) (Some x)) st
       = (st, Ok (K.cast (K.outer x (K.conj x)) DTYPECPX)))
  ∧ (∀ x, shape x ≠ [2 ^ n] → shape x ≠ [2 ^ n; 2 ^ n] → ∃ msg,
       get_initial_state (PyTensor x) st = (st, Raise (ValueError msg))
       ∧ (_device_execute B (PyTensor x) st).2 = Raise (ValueError msg)).
Proof.
  intros Hdm n. split_and!.
  - intros conv. eexists. split.
    + apply get_initial_state_dm_no_shape, Hdm.
    + erewrite get_initial_state_raise_execute; [done| |done].
      intros s. apply get_initial_state_dm_no_shape, Hdm.
  - intros sh conv Hsh. eexists. split.
    + by apply get_initial_state_dm_object.
    + erewrite get_initial_state_raise_execute; [done| |done].
      intros s. by apply get_initial_state_dm_object.
  - intros x Hx. by apply get_initial_state_dm_object_vector.
  - intros x H1 H2. eexists. split.
    + by apply get_initial_state_dm_tensor_shape.
    + erewrite get_initial_state_raise_execute; [done| |done].
      intros s. by apply get_initial_state_dm_tensor_shape.
Qed.

(** At a one-qubit density-matrix circuit holding an X gate: a Python list,
    and a vector of length 4. *)
Lemma density_matrix_initial_state_checks_witness :
  let B := TensorflowBackend false in
  let st := (add 1%positive {| self := DensityMatrixCircuit_init 1;
                               world := world0 |}).1 in
  let x4 := {| dtype := DTYPECPX; shape := [4]; data := [c1; c0; c0; c0] |} in
  (∃ msg, get_initial_state (PyObject None None) st
          = (st, Raise (AttributeError msg))
          ∧ (_device_execute B (PyObject None None) st).2
            = Raise (AttributeError msg))
  ∧ (∃ msg, get_initial_state (PyTensor x4) st
            = (st, Raise (ValueError msg))
            ∧ (_device_execute B (PyTensor x4) st).2
              = Raise (ValueError msg)).
Proof.
  intros B st x4.
  assert (density_matrix_circuit (self st)) as Hdm.
  { split; [vm_compute; reflexivity|]. split; vm_compute; reflexivity. }
  destruct (density_matrix_initial_state_checks B st Hdm)
    as (Hno & _ & _ & Hsh).
  split; [apply Hno|]. apply Hsh; vm_compute; discriminate.
Defined.

(** ** Gates and the size of their circuit *)

Lemma refused_gate_sized n g :
  refused_gate n (Gate.prepare (Gate.set_nqubits n g)) = false.
Proof. unfold refused_gate. simpl. by rewrite bool_decide_true. Qed.

Lemma sized_refl n w : sized n w w.
Proof. intros a. by left. Qed.

Lemma sized_trans n w1 w2 w3 : sized n w1 w2 → sized n w2 w3 → sized n w1 w3.
Proof.
  intros H12 H23 a.
  destruct (H23 a) as [E|(g2 & Hg2 & Hr2 & E)].
  - rewrite E. apply H12.
  - destruct (H12 a) as [E1|(g1 & Hg1 & Hr1 & E1)].
    + right. exists g2. rewrite <- E1. done.
    + right. exists g1. split_and!; [done..|].
      rewrite E, E1 in *. by injection Hg2 as <-.
Qed.

Lemma sized_refused n w w' a : sized n w w' → refused n w' a = refused n w a.
Proof.
  intros H. unfold refused.
  destruct (H a) as [->|(g & -> & Hr & ->)]; [done|].
  by rewrite refused_gate_sized.
Qed.

Lemma sized_attributes n w w' a g :
  sized n w w' → gates w !! a = Some g →
  ∃ g', gates w' !! a = Some g'
        ∧ Gate.unitaries g' = Gate.unitaries g
        ∧ Gate.additional_unitary g' = Gate.additional_unitary g.
Proof.
  intros H Hg. destruct (H a) as [E|(g1 & Hg1 & _ & E)].
  - exists g. by rewrite E.
  - rewrite Hg in Hg1. injection Hg1 as <-. eexists. by split.
Qed.

Lemma set_nqubits_accepts gate st :
  refused (nqubits (self st)) (world st) gate = false →
  ∃ w', set_nqubits gate st = ({| self := self st; world := w' |}, Ok tt)
        ∧ sized (nqubits (self st)) (world st) w'
        ∧ refused (nqubits (self st)) w' gate = false.
Proof.
  unfold refused, refused_gate. intros Hr.
  pose proof (set_nqubits_cases gate st) as H.
  destruct (gates (world st) !! gate) as [g|] eqn:Hg; [|done].
  rewrite Hr in H. eexists. split; [done|]. simpl. split.
  - intros a. destruct (decide (a = gate)) as [->|Hne].
    + right. exists g. simpl. by rewrite lookup_insert_eq.
    + left. simpl. by rewrite lookup_insert_ne.
  - simpl. rewrite lookup_insert_eq. simpl. by rewrite bool_decide_true.
Qed.

Lemma set_nqubits_refuses gate st :
  refused (nqubits (self st)) (world st) gate = true →
  ∃ e, set_nqubits gate st = (st, Raise e)
       ∧ (is_Some (gates (world st) !! gate) → ∃ msg, e = RuntimeError msg).
Proof.
  unfold refused, refused_gate. intros Hr.
  pose proof (set_nqubits_cases gate st) as H.
  destruct (gates (world st) !! gate) as [g|] eqn:Hg.
  - rewrite Hr in H. eexists. split; [done|]. intros _. by eexists.
  - eexists. split; [done|]. by intros [? ?].
Qed.

(** X8. Once [set_nqubits] has taken a gate for a circuit, the gate is tied to
    the number of qubits of that circuit: [set_nqubits] takes it again for any
    circuit of as many qubits, changing nothing, and refuses it with a
    [RuntimeError] for a circuit of any other number of qubits. *)
Theorem gate_is_tied_to_first_circuit_size
    (st st1 : St) (gate : addr) (c2 : Circuit) :
  set_nqubits gate st = (st1, Ok tt) →
  (nqubits c2 = nqubits (self st) →
   set_nqubits gate {| self := c2; world := world st1 |}
   = ({| self := c2; world := world st1 |}, Ok tt))
  ∧ (nqubits c2 ≠ nqubits (self st) →
     ∃ msg, set_nqubits gate {| self := c2; world := world st1 |}
            = ({| self := c2; world := world st1 |},
               Raise (RuntimeError msg))).
Proof.
  intros H. pose proof (set_nqubits_cases gate st) as Hc.
  destruct (gates (world st) !! gate) as [g|] eqn:Hg;
    [|by rewrite H in Hc].
  destruct (Gate.is_prepared g && _) eqn:Hm; rewrite H in Hc; [done|].
  injection Hc as ->.
  pose proof (set_nqubits_cases gate
                {| self := c2;
                   world := with_gates
                     (<[gate := Gate.prepare
                                  (Gate.set_nqubits (nqubits (self st)) g)]>
                        (gates (world st))) (world st) |}) as Hc2.
  simpl in Hc2. rewrite lookup_insert_eq in Hc2. simpl in Hc2. simpl.
  split.
  - intros Hn. rewrite Hn in Hc2. rewrite bool_decide_true in Hc2 by done.
    simpl in Hc2. rewrite Hc2. do 2 f_equal.
    unfold with_gates. simpl. f_equal. by rewrite insert_insert_eq.
  - intros Hn. rewrite bool_decide_false in Hc2 by congruence.
    simpl in Hc2. by eexists.
Qed.

(** The X gate taken by a one-qubit circuit, then offered to a one-qubit
    density-matrix circuit and to a two-qubit circuit. *)
Lemma gate_is_tied_to_first_circuit_size_witness :
  let st := {| self := Circuit_init 1; world := world0 |} in
  let st1 := (set_nqubits 1%positive st).1 in
  set_nqubits 1%positive
    {| self := DensityMatrixCircuit_init 1; world := world st1 |}
  = ({| self := DensityMatrixCircuit_init 1; world := world st1 |}, Ok tt)
  ∧ ∃ msg, set_nqubits 1%positive
             {| self := Circuit_init 2; world := world st1 |}
           = ({| self := Circuit_init 2; world := world st1 |},
              Raise (RuntimeError msg)).
Proof.
  intros st st1. split.
  - apply (gate_is_tied_to_first_circuit_size st st1 1%positive
             (DensityMatrixCircuit_init 1)); [vm_compute; reflexivity|].
    reflexivity.
  - apply (gate_is_tied_to_first_circuit_size st st1 1%positive
             (Circuit_init 2)); [vm_compute; reflexivity|].
    discriminate.
Defined.

(** ** Adding a layer *)

Lemma for_each_app {A} (l1 l2 : list A) body st :
  for_each (l1 ++ l2) body st = (for_each l1 body ;;; for_each l2 body) st.
Proof.
  revert st. induction l1 as [|x l1 IH]; intros st; simpl; [done|].
  unfold bind in *. destruct (body x st) as [st1 [[]|e]]; [|done].
  apply IH.
Qed.

Lemma layer_step_accepts u st :
  refused (nqubits (self st)) (world st) u = false →
  ∃ w', (set_nqubits u ;;; queue_append u) st
        = ({| self := with_queue (queue (self st) ++ [u]) (self st);
              world := w' |}, Ok tt)
        ∧ sized (nqubits (self st)) (world st) w'.
Proof.
  intros Hr. destruct (set_nqubits_accepts u st Hr) as (w' & H & Hs & _).
  exists w'. by rewrite (bind_ok _ _ _ _ _ H).
Qed.

Lemma layer_step_refuses u st :
  refused (nqubits (self st)) (world st) u = true →
  ∃ e, (set_nqubits u ;;; queue_append u) st = (st, Raise e)
       ∧ (is_Some (gates (world st) !! u) → ∃ msg, e = RuntimeError msg).
Proof.
  intros Hr. destruct (set_nqubits_refuses u st Hr) as (e & H & He).
  exists e. by rewrite (bind_raise _ _ _ _ _ H).
Qed.

Lemma layer_loop_sized l : ∀ st,
  sized (nqubits (self st)) (world st)
    (world (for_each l (λ u, set_nqubits u ;;; queue_append u) st).1).
Proof.
  induction l as [|u l IH]; intros st; simpl; [apply sized_refl|].
  destruct (refused (nqubits (self st)) (world st) u) eqn:Hr.
  - destruct (layer_step_refuses u st Hr) as (e & H & _).
    rewrite (bind_raise _ _ _ _ _ H). apply sized_refl.
  - destruct (layer_step_accepts u st Hr) as (w' & H & Hs).
    rewrite (bind_ok _ _ _ _ _ H).
    eapply sized_trans; [done|].
    apply (IH {| self := with_queue (queue (self st) ++ [u]) (self st);
                 world := w' |}).
Qed.

Lemma layer_loop_accepts l : ∀ st,
  Forall (λ u, refused (nqubits (self st)) (world st) u = false) l →
  ∃ w', for_each l (λ u, set_nqubits u ;;; queue_append u) st
        = ({| self := with_queue (queue (self st) ++ l) (self st);
              world := w' |}, Ok tt).
Proof.
  induction l as [|u l IH]; intros st Hl; simpl.
  { exists (world st). rewrite app_nil_r. by destruct st as [[] ?]. }
  apply Forall_cons in Hl as [Hu Hl].
  destruct (layer_step_accepts u st Hu) as (w' & H & Hs).
  rewrite (bind_ok _ _ _ _ _ H).
  destruct (IH {| self := with_queue (queue (self st) ++ [u]) (self st);
                  world := w' |}) as (w'' & ->).
  { simpl. eapply Forall_impl; [done|]. intros a Ha. simpl in Ha.
    by rewrite (sized_refused _ _ _ _ Hs). }
  exists w''. simpl. by rewrite <- app_assoc.
Qed.

Lemma layer_loop_refuses l1 u l2 : ∀ st,
  Forall (λ u, refused (nqubits (self st)) (world st) u = false) l1 →
  refused (nqubits (self st)) (world st) u = true →
  ∃ w' e, for_each (l1 ++ u :: l2) (λ u, set_nqubits u ;;; queue_append u) st
          = ({| self := with_queue (queue (self st) ++ l1) (self st);
                world := w' |}, Raise e)
          ∧ (is_Some (gates (world st) !! u) → ∃ msg, e = RuntimeError msg).
Proof.
  induction l1 as [|v l1 IH]; intros st Hl Hu; simpl.
  { destruct (layer_step_refuses u st Hu) as (e & H & He).
    rewrite (bind_raise _ _ _ _ _ H). exists (world st), e.
    rewrite app_nil_r. split; [by destruct st as [[] ?] | done]. }
  apply Forall_cons in Hl as [Hv Hl].
  destruct (layer_step_accepts v st Hv) as (w' & H & Hs).
  rewrite (bind_ok _ _ _ _ _ H).
  destruct (IH {| self := with_queue (queue (self st) ++ [v]) (self st);
                  world := w' |}) as (w'' & e & -> & He).
  { simpl. eapply Forall_impl; [done|]. intros a Ha. simpl in Ha.
    by rewrite (sized_refused _ _ _ _ Hs). }
  { simpl. by rewrite (sized_refused _ _ _ _ Hs). }
  exists w'', e. simpl. rewrite <- app_assoc. split; [done|].
  intros Hsome. apply He. simpl.
  destruct Hsome as [gu Hgu].
  destruct (sized_attributes _ _ _ _ _ Hs Hgu) as (g' & -> & _). by eexists.
Qed.

Lemma _add_layer_as_loop gate g st :
  gates (world st) !! gate = Some g →
  _add_layer gate st
  = for_each (layer_unitaries g) (λ u, set_nqubits u ;;; queue_append u)
      {| self := self st;
         world := with_gates (<[gate := Gate.prepare g]> (gates (world st)))
                    (world st) |}.
Proof.
  intros Hg. unfold _add_layer, layer_unitaries.
  rewrite (bind_ok _ _ st st g) by (unfold deref; by rewrite Hg).
  set (st1 := {| self := self st; world := _ |}).
  rewrite (bind_ok _ _ st st1 tt) by done.
  rewrite (bind_ok _ _ st1 st1 (Gate.prepare g))
    by (unfold deref; simpl; by rewrite lookup_insert_eq).
  rewrite for_each_app. change (Gate.unitaries (Gate.prepare g))
    with (Gate.unitaries g).
  apply bind_cong; [done|]. intros [] st2 H2.
  pose proof (layer_loop_sized (Gate.unitaries g) st1) as Hs.
  rewrite H2 in Hs. simpl in Hs.
  destruct (sized_attributes _ _ _ gate (Gate.prepare g) Hs)
    as (g2 & Hg2 & _ & Ha); [simpl; by rewrite lookup_insert_eq|].
  rewrite (bind_ok _ _ st2 st2 g2) by (unfold deref; by rewrite Hg2).
  rewrite Ha. simpl. destruct (Gate.additional_unitary g) as [u|]; [|done].
  simpl. unfold bind.
  destruct (set_nqubits u st2) as [st3 [[]|e]]; [|done].
  by destruct (queue_append u st3) as [st4 [[]|e]].
Qed.

(** X9. [_add_layer] adds the unitaries of the layer in their order, and then
    its additional unitary, as long as [set_nqubits] takes them: when all are
    taken the queue is extended by all of them; at the first one that is refused
    (a gate prepared for another number of qubits) the call raises, and the
    unitaries before it stay in the queue. *)
Theorem add_layer_stops_at_first_refused_unitary
    (st : St) (gate : addr) (g : Gate.t) :
  gates (world st) !! gate = Some g →
  let n := nqubits (self st) in
  let w1 := with_gates (<[gate := Gate.prepare g]> (gates (world st)))
              (world st) in
  (Forall (λ u, refused n w1 u = false) (layer_unitaries g) →
   ∃ st', _add_layer gate st = (st', Ok tt)
          ∧ self st'
            = with_queue (queue (self st) ++ layer_unitaries g) (self st))
  ∧ (∀ l1 u l2,
       layer_unitaries g = l1 ++ u :: l2 →
       Forall (λ u, refused n w1 u = false) l1 →
       refused n w1 u = true →
       ∃ st' e, _add_layer gate st = (st', Raise e)
                ∧ self st' = with_queue (queue (self st) ++ l1) (self st)
                ∧ (is_Some (gates w1 !! u) → ∃ msg, e = RuntimeError msg)).
Proof.
  intros Hg n w1. rewrite (_add_layer_as_loop _ _ _ Hg). split.
  - intros Hl.
    destruct (layer_loop_accepts (layer_unitaries g)
                {| self := self st; world := w1 |} Hl) as (w' & Hw').
    eexists. split; [exact Hw' | done].
  - intros l1 u l2 El Hl Hu. rewrite El.
    destruct (layer_loop_refuses l1 u l2
                {| self := self st; world := w1 |} Hl Hu)
      as (w' & e & Hw' & He).
    eexists _, e. split; [exact Hw'|]. split; [done | exact He].
Qed.

(** A two-qubit circuit given the layer [X; M; picky], whose measurement gate
    is prepared for one qubit: the X gate stays in the queue. *)
Lemma add_layer_stops_at_first_refused_unitary_witness :
  let st := {| self := Circuit_init 2; world := world_layer |} in
  ∃ st' e, _add_layer 6%positive st = (st', Raise e)
           ∧ queue (self st') = [1%positive]
           ∧ ∃ msg, e = RuntimeError msg.
Proof.
  intros st.
  destruct (add_layer_stops_at_first_refused_unitary st 6%positive layer_gate)
    as [_ H]; [vm_compute; reflexivity|].
  destruct (H [1%positive] 4%positive [2%positive])
    as (st' & e & H1 & H2 & H3).
  - reflexivity.
  - constructor; [vm_compute; reflexivity | constructor].
  - vm_compute. reflexivity.
  - exists st', e. split; [done|]. split; [by rewrite H2|].
    apply H3. eexists. vm_compute. reflexivity.
Defined.

(** ** The gate lists of a copy *)

Lemma parametrized_at_extends w w' a :
  extends w w' → is_Some (gates w !! a) →
  is_parametrized_at w' a = is_parametrized_at w a
  ∧ is_trainable_at w' a = is_trainable_at w a.
Proof.
  intros He [g Hg]. unfold is_parametrized_at, is_trainable_at.
  by rewrite (extends_lookup _ _ _ _ He Hg), Hg.
Qed.

Lemma filter_at_extends w w' l :
  extends w w' → Forall (λ a, is_Some (gates w !! a)) l →
  List.filter (is_parametrized_at w') l = List.filter (is_parametrized_at w) l
  ∧ List.filter (is_trainable_at w') l = List.filter (is_trainable_at w) l.
Proof.
  intros He. induction 1 as [|a l Ha Hl [IH1 IH2]]; [done|]. simpl.
  destruct (parametrized_at_extends _ _ _ He Ha) as [-> ->].
  by rewrite IH1, IH2.
Qed.

Lemma _fuse_copy_gate_lists nc gate g st :
  gates (world st) !! gate = Some g →
  ∃ st' a',
    _fuse_copy_gate nc gate st
    = (st',
       Ok (with_trainable_gates
             (trainable_gates nc
              ++ (if Gate.is_parametrized g && Gate.trainable g
                  then [a'] else []))
             (with_parametrized_gates
                (parametrized_gates nc
                 ++ (if Gate.is_parametrized g then [a'] else []))
                (with_queue (queue nc ++ [a']) nc))))
    ∧ extends (world st) (world st')
    ∧ gates (world st') !! a' = Some g.
Proof.
  intros Hg. unfold _fuse_copy_gate.
  rewrite (bind_ok _ _ st st g) by (unfold deref; by rewrite Hg).
  destruct (Gate.is_parametrized g) eqn:Hp;
    [destruct (Gate.trainable g) eqn:Ht|]; simpl.
  - destruct (copy_copy_fresh gate g st Hg) as (a & st' & Hc & Hs & Ha & Hl & He).
    rewrite (bind_ok _ _ _ _ _ Hc). by exists st', a.
  - exists st, gate. split_and!; [|apply extends_refl|done].
    unfold ret. do 2 f_equal. destruct nc. simpl. by rewrite app_nil_r.
  - exists st, gate. split_and!; [|apply extends_refl|done].
    unfold ret. do 2 f_equal. destruct nc. simpl. by rewrite !app_nil_r.
Qed.

Lemma _fuse_copy_loop_lists q : ∀ nc st,
  (∀ a, a ∈ q → is_Some (gates (world st) !! a)) →
  ∃ st' q',
    fold_m _fuse_copy_gate q nc st
    = (st',
       Ok (with_trainable_gates
             (trainable_gates nc ++ List.filter (is_trainable_at (world st')) q')
             (with_parametrized_gates
                (parametrized_gates nc
                 ++ List.filter (is_parametrized_at (world st')) q')
                (with_queue (queue nc ++ q') nc))))
    ∧ extends (world st) (world st')
    ∧ Forall (λ a, is_Some (gates (world st') !! a)) q'.
Proof.
  induction q as [|a q IH]; intros nc st Hlive; simpl.
  { exists st, []. split_and!; [|apply extends_refl|done].
    unfold ret. do 2 f_equal. destruct nc. simpl. by rewrite !app_nil_r. }
  destruct (Hlive a) as [g Hg]; [by left|].
  destruct (_fuse_copy_gate_lists nc a g st Hg) as (st1 & a' & H1 & He1 & Ha').
  rewrite (bind_ok _ _ _ _ _ H1).
  match type of H1 with _ = (_, Ok ?c) => set (nc1 := c) end.
  destruct (IH nc1 st1) as (st2 & q' & H2 & He2 & Hq').
  { intros b Hb. destruct (Hlive b) as [gb Hgb]; [by right|].
    exists gb. by eapply extends_lookup. }
  exists st2, (a' :: q'). split_and!.
  - rewrite H2. do 2 f_equal. simpl.
    pose proof (extends_lookup _ _ _ _ He2 Ha') as Ha2.
    unfold is_trainable_at at 2, is_parametrized_at at 2. rewrite Ha2.
    destruct nc. simpl.
    destruct (Gate.is_parametrized g), (Gate.trainable g); simpl;
      by rewrite <- ?app_assoc, ?app_nil_r.
  - by eapply extends_trans.
  - constructor; [|done]. exists g. by eapply extends_lookup.
Qed.

(** X10. The copy made by [_fuse_copy] is a new circuit of the class and size of
    the original in which only the queue, the two gate lists, the measurement
    gate and the measurement registers are set: its list of parametrized gates
    holds the parametrized gates of its own queue, in their order, and its list
    of trainable gates the trainable ones among them; its measurement gate is a
    new object with the attribute values of the original's; the registers are
    the original's. Nothing else of the original is carried over: the copy is
    not compiled and has no final state. *)
Theorem fuse_copy_rebuilds_gate_lists (st : St) :
  live (self st) (world st) →
  ∃ st' nc, _fuse_copy st = (st', Ok nc)
    ∧ parametrized_gates nc
      = List.filter (is_parametrized_at (world st')) (queue nc)
    ∧ trainable_gates nc
      = List.filter (is_trainable_at (world st')) (queue nc)
    ∧ measurement_tuples nc = measurement_tuples (self st)
    ∧ match measurement_gate (self st) with
      | None => measurement_gate nc = None
      | Some m =>
          ∃ m', measurement_gate nc = Some m'
                ∧ (m' ∉ dom (gates (world st)))
                ∧ gates (world st') !! m' = gates (world st) !! m
      end
    ∧ nc = with_measurement (measurement_gate nc) (measurement_tuples nc)
             (with_trainable_gates (trainable_gates nc)
                (with_parametrized_gates (parametrized_gates nc)
                   (with_queue (queue nc)
                      (new_of_class (cls (self st)) (nqubits (self st)))))).
Proof.
  intros [Hq Hm]. unfold _fuse_copy.
  rewrite (bind_ok _ _ st st (self st)) by done.
  destruct (_fuse_copy_loop_lists (queue (self st))
              (new_of_class (cls (self st)) (nqubits (self st))) st Hq)
    as (st1 & q' & H1 & He1 & Hq').
  rewrite (bind_ok _ _ _ _ _ H1).
  assert (queue (new_of_class (cls (self st)) (nqubits (self st))) = []
          ∧ parametrized_gates
              (new_of_class (cls (self st)) (nqubits (self st))) = []
          ∧ trainable_gates
              (new_of_class (cls (self st)) (nqubits (self st))) = [])
    as (E1 & E2 & E3) by by destruct (cls (self st)).
  rewrite E1, E2, E3. simpl.
  destruct (measurement_gate (self st)) as [m|] eqn:Em.
  - destruct (Hm m eq_refl) as [g Hg].
    destruct (copy_copy_fresh m g st1) as (a & st2 & Hc & Hs & Ha & Hl & He).
    { by eapply extends_lookup. }
    rewrite (bind_ok _ _ st1 st2 (Some a)) by by rewrite (bind_ok _ _ _ _ _ Hc).
    destruct (filter_at_extends _ _ q' He Hq') as [F1 F2].
    eexists _, _. split; [done|]. simpl. rewrite F1, F2.
    split_and!; try done.
    exists a. split_and!; [done| |congruence]. by eapply extends_dom.
  - rewrite (bind_ok _ _ st1 st1 None) by done.
    eexists _, _. split; [done|]. simpl. by split_and!.
Qed.

(** The circuit that holds a trainable rotation and an X gate. *)
Lemma fuse_copy_rebuilds_gate_lists_witness :
  ∃ st' nc, _fuse_copy st_RX = (st', Ok nc)
    ∧ parametrized_gates nc
      = List.filter (is_parametrized_at (world st')) (queue nc)
    ∧ trainable_gates nc
      = List.filter (is_trainable_at (world st')) (queue nc)
    ∧ measurement_tuples nc = measurement_tuples (self st_RX)
    ∧ match measurement_gate (self st_RX) with
      | None => measurement_gate nc = None
      | Some m =>
          ∃ m', measurement_gate nc = Some m'
                ∧ (m' ∉ dom (gates (world st_RX)))
                ∧ gates (world st') !! m' = gates (world st_RX) !! m
      end
    ∧ nc = with_measurement (measurement_gate nc) (measurement_tuples nc)
             (with_trainable_gates (trainable_gates nc)
                (with_parametrized_gates (parametrized_gates nc)
                   (with_queue (queue nc)
                      (new_of_class (cls (self st_RX))
                         (nqubits (self st_RX)))))).
Proof.
  apply fuse_copy_rebuilds_gate_lists.
  split.
  - intros a Ha. vm_compute in Ha.
    apply elem_of_cons in Ha as [->|Ha];
      [eexists; vm_compute; reflexivity|].
    apply elem_of_cons in Ha as [->|Ha];
      [eexists; vm_compute; reflexivity|].
    by apply elem_of_nil in Ha.
  - intros m Hm. by vm_compute in Hm.
Defined.

(** ** Compiled and eager execution *)

Lemma callback_results_none q : ∀ d st,
  (∀ a, a ∈ q → ∃ g, gates (world st) !! a = Some g
                     ∧ Gate.is_callback_gate g = false
                     ∧ Gate.callback g = None) →
  fold_m _callback_results_gate q d st = (st, Ok d).
Proof.
  induction q as [|a q IH]; intros d st Hq; simpl; [done|].
  destruct (Hq a) as (g & Hg & _ & Hc); [by left|].
  rewrite (bind_ok _ _ st st d).
  - apply IH. intros b Hb. apply Hq. by right.
  - unfold _callback_results_gate.
    rewrite (bind_ok _ _ st st g) by (unfold deref; by rewrite Hg).
    by rewrite Hc.
Qed.

Lemma execute_for_compile_loop_eager q : ∀ state d st,
  (∀ a, a ∈ q → ∃ g, gates (world st) !! a = Some g
                     ∧ Gate.is_callback_gate g = false
                     ∧ Gate.callback g = None) →
  fold_m _execute_for_compile_gate q (state, d) st
  = (let* s := fold_m (λ state gate, call_gate gate state) q state in
     ret (s, d)) st.
Proof.
  induction q as [|a q IH]; intros state d st Hq; [done|].
  cbn [fold_m].
  destruct (Hq a) as (g & Hg & Hcb & _); [by left|].
  assert (_execute_for_compile_gate (state, d) a st
          = (let* s' := call_gate a state in ret (s', d)) st) as Hstep.
  { unfold _execute_for_compile_gate.
    rewrite (bind_ok _ _ st st g) by (unfold deref; by rewrite Hg).
    by rewrite Hcb. }
  unfold bind at 1. rewrite Hstep. unfold bind.
  destruct (call_gate a state st) as [st1 [s1|e]] eqn:H1; [|done].
  unfold ret at 1. rewrite IH; [done|]. intros b Hb.
  rewrite (keeps_run _ _ _ _ _ (keeps_gates_call_gate a state) H1).
  apply Hq. by right.
Qed.

Lemma extend_callbacks_empty st : extend_callbacks ∅ st = (st, Ok tt).
Proof.
  unfold extend_callbacks, modify_world. f_equal.
  destruct st as [c [gs ts [r cbs]]]. simpl. unfold with_env. simpl.
  do 3 f_equal. apply (right_id ∅ (union_with _)).
Qed.

Lemma compiled_body_is_eager state st :
  no_callbacks (self st) (world st) →
  (let* r := _execute_for_compile state in
   extend_callbacks r.2 ;;; ret r.1) st
  = _eager_execute state st.
Proof.
  intros Hq.
  assert (_execute_for_compile state st
          = (let* s := fold_m (λ state gate, call_gate gate state)
                         (queue (self st)) state in
             ret (s, ∅)) st) as Hc.
  { unfold _execute_for_compile.
    rewrite (bind_ok _ _ st st (self st)) by done.
    rewrite (bind_ok _ _ st st ∅) by by apply callback_results_none.
    by apply execute_for_compile_loop_eager. }
  unfold bind at 1. rewrite Hc. unfold _eager_execute.
  rewrite (bind_ok _ _ st st (self st)) by done.
  unfold bind.
  destruct (fold_m _ (queue (self st)) state st) as [st1 [s1|e]]; [|done].
  unfold ret at 1. cbn [fst snd]. by rewrite extend_callbacks_empty.
Qed.

Lemma get_initial_state_flag i h h' c w st' r :
  get_initial_state i {| self := with_compiled_execute h c; world := w |}
  = (st', r) →
  st' = {| self := with_compiled_execute h c; world := w |}
  ∧ get_initial_state i {| self := with_compiled_execute h' c; world := w |}
    = ({| self := with_compiled_execute h' c; world := w |}, r).
Proof.
  unfold get_initial_state, _cast_initial_state,
    DensityMatrixCircuit_cast_initial_state, Circuit_cast_initial_state,
    bind, get_self, ret, raise, is_DensityMatrixCircuit. simpl.
  destruct i as [|x|sa conv]; simpl;
    repeat (case_step; simpl; try done); by intros [= <- <-].
Qed.

Lemma reshape_step_flag (b : bool) key state h h' c w st' r :
  (if b then reshape_to key state else ret state)
    {| self := with_compiled_execute h c; world := w |} = (st', r) →
  st' = {| self := with_compiled_execute h c; world := w |}
  ∧ (if b then reshape_to key state else ret state)
      {| self := with_compiled_execute h' c; world := w |}
    = ({| self := with_compiled_execute h' c; world := w |}, r).
Proof.
  destruct b; [|by intros [= <- <-]].
  unfold reshape_to, bind, get_self, lift, raise. simpl.
  destruct (shapes c !! key); by intros [= <- <-].
Qed.

Lemma call_gate_flag a state h h' c w st' r :
  call_gate a state {| self := with_compiled_execute h c; world := w |}
  = (st', r) →
  ∃ w', st' = {| self := with_compiled_execute h c; world := w' |}
        ∧ call_gate a state
            {| self := with_compiled_execute h' c; world := w |}
          = ({| self := with_compiled_execute h' c; world := w' |}, r).
Proof.
  unfold call_gate, bind, deref. simpl.
  destruct (gates w !! a) as [g|]; simpl; [|intros [= <- <-]; by eexists].
  destruct (Gate.call g state (env w)) as [e' r'].
  intros [= <- <-]. by eexists.
Qed.

Lemma eager_loop_flag q : ∀ state h h' c w st' r,
  fold_m (λ state gate, call_gate gate state) q state
    {| self := with_compiled_execute h c; world := w |} = (st', r) →
  ∃ w', st' = {| self := with_compiled_execute h c; world := w' |}
        ∧ fold_m (λ state gate, call_gate gate state) q state
            {| self := with_compiled_execute h' c; world := w |}
          = ({| self := with_compiled_execute h' c; world := w' |}, r).
Proof.
  induction q as [|a q IH]; intros state h h' c w st' r.
  { intros [= <- <-]. by eexists. }
  cbn [fold_m]. intros H.
  apply bind_inv in H as [(e & H1 & ->)|(st1 & s1 & H1 & H)];
    apply (call_gate_flag _ _ _ h') in H1 as (w1 & -> & H1).
  - rewrite (bind_raise _ _ _ _ _ H1). by eexists.
  - rewrite (bind_ok _ _ _ _ _ H1). by apply IH.
Qed.

Lemma apply_queue_flag B i c w st' r :
  no_callbacks c w →
  apply_queue B i {| self := with_compiled_execute None c; world := w |}
  = (st', r) →
  apply_queue B i {| self := with_compiled_execute (Some tt) c; world := w |}
  = ({| self := with_compiled_execute (Some tt) (self st');
        world := world st' |}, r).
Proof.
  intros Hq H. unfold apply_queue in *.
  apply bind_inv in H as [(e & H1 & ->)|(st1 & s0 & H1 & H)].
  { apply (get_initial_state_flag _ _ (Some tt)) in H1 as [-> H1].
    by rewrite (bind_raise _ _ _ _ _ H1). }
  apply (get_initial_state_flag _ _ (Some tt)) in H1 as [-> H1].
  rewrite (bind_ok _ _ _ _ _ H1).
  apply bind_inv in H as [(e & H2 & ->)|(st2 & s1 & H2 & H)].
  { apply (reshape_step_flag _ _ _ _ (Some tt)) in H2 as [-> H2].
    by rewrite (bind_raise _ _ _ _ _ H2). }
  apply (reshape_step_flag _ _ _ _ (Some tt)) in H2 as [-> H2].
  rewrite (bind_ok _ _ _ _ _ H2).
  rewrite (bind_ok _ _ _ _ (with_compiled_execute None c)) in H by done.
  rewrite (bind_ok _ _ _ _ (with_compiled_execute (Some tt) c)) by done.
  cbn [_compiled_execute with_compiled_execute] in *.
  assert (∀ st' r,
            _eager_execute s1
              {| self := with_compiled_execute None c; world := w |}
            = (st', r) →
            (let* r := _execute_for_compile s1 in
             extend_callbacks r.2 ;;; ret r.1)
              {| self := with_compiled_execute (Some tt) c; world := w |}
            = ({| self := with_compiled_execute (Some tt) (self st');
                  world := world st' |}, r)
            ∧ self st' = with_compiled_execute None c) as Hmid.
  { intros st3 r3 H3. rewrite compiled_body_is_eager by done.
    unfold _eager_execute in *.
    rewrite (bind_ok _ _ _ _ (with_compiled_execute (Some tt) c)) by done.
    rewrite (bind_ok _ _ _ _ (with_compiled_execute None c)) in H3 by done.
    simpl in *.
    apply (eager_loop_flag _ _ _ (Some tt)) in H3 as (w' & -> & H3).
    by rewrite H3. }
  apply bind_inv in H as [(e & H3 & ->)|(st3 & s2 & H3 & H)].
  { apply Hmid in H3 as [H3 _]. by rewrite (bind_raise _ _ _ _ _ H3). }
  apply Hmid in H3 as [H3 Hs3]. rewrite (bind_ok _ _ _ _ _ H3).
  destruct st3 as [c3 w3]. simpl in *. subst c3.
  apply (reshape_step_flag _ _ _ _ (Some tt)) in H as [-> H].
  exact H.
Qed.

(** X11. A compiled circuit whose gates are no callback gates and carry no
    callback is executed as the circuit that is not compiled: [_execute] returns
    or raises the same, leaves the same store and the same final state; the
    circuits left behind differ in the compiled handle only. *)
Theorem compiled_execution_agrees_with_eager
    (B : K.Backend) (i : pyval) (c : Circuit) (w : World) :
  no_callbacks c w →
  let r := _execute B i {| self := with_compiled_execute None c;
                           world := w |} in
  _execute B i {| self := with_compiled_execute (Some tt) c; world := w |}
  = ({| self := with_compiled_execute (Some tt) (self r.1);
        world := world r.1 |}, r.2).
Proof.
  intros Hq r. subst r.
  destruct (_execute B i {| self := with_compiled_execute None c |})
    as [st' r] eqn:H.
  rewrite _execute_unfold in H. rewrite _execute_unfold.
  apply bind_inv in H as [(e & H1 & ->)|(st1 & [] & H1 & H)]; [done|].
  injection H1 as <-.
  rewrite (bind_ok _ _ _
             {| self := with_compiled_execute (Some tt)
                          (with_final_state None c); world := w |} tt)
    by done.
  apply bind_inv in H as [(e & H2 & ->)|(st2 & s & H2 & H)].
  - apply (apply_queue_flag B i (with_final_state None c) w) in H2; [|done].
    by rewrite (bind_raise _ _ _ _ _ H2).
  - apply (apply_queue_flag B i (with_final_state None c) w) in H2; [|done].
    rewrite (bind_ok _ _ _ _ _ H2).
    unfold bind, modify_self, ret in *. simpl in *. by injection H as <- <-.
Qed.

(** The one-qubit circuit [X; picky], compiled, on |1>: the picky gate
    raises, as it does without compiling. *)
Lemma compiled_execution_agrees_with_eager_witness :
  let B := TensorflowBackend false in
  let c := self st_Xp in
  let w := world st_Xp in
  let r := _execute B (PyTensor ket1)
             {| self := with_compiled_execute None c; world := w |} in
  _execute B (PyTensor ket1)
    {| self := with_compiled_execute (Some tt) c; world := w |}
  = ({| self := with_compiled_execute (Some tt) (self r.1);
        world := world r.1 |}, r.2).
Proof.
  intros B c w.
  apply (compiled_execution_agrees_with_eager B (PyTensor ket1) c w).
  intros a Ha. vm_compute in Ha.
  apply elem_of_cons in Ha as [->|Ha];
    [eexists; vm_compute; split_and!; reflexivity|].
  apply elem_of_cons in Ha as [->|Ha];
    [eexists; vm_compute; split_and!; reflexivity|].
  by apply elem_of_nil in Ha.
Defined.

(** * Properties of the index helpers *)

(** ** Products and indexing *)

Lemma length_product {A} (pool : list A) n :
  length (Py.product pool n) = length pool ^ n.
Proof.
  induction n as [|n IH]; [done|]. cbn [Py.product Nat.pow].
  rewrite <- IH. clear IH. generalize (Py.product pool n). intros P.
  induction pool as [|x pool IHp]; [done|].
  rewrite bind_cons, length_app, length_fmap, IHp. simpl. lia.
Qed.

Lemma lookup_bind_blocks {A B} (f : A → list B) m :
  (∀ x, length (f x) = m) →
  ∀ l d x r, l !! d = Some x → r < m → (l ≫= f) !! (d * m + r) = f x !! r.
Proof.
  intros Hf. induction l as [|a l IH]; intros d x r Hd Hr; [done|].
  rewrite bind_cons. destruct d as [|d]; simpl in *.
  - injection Hd as ->. apply lookup_app_l. by rewrite Hf.
  - rewrite lookup_app_r by (rewrite Hf; lia).
    rewrite Hf. replace (m + d * m + r - m) with (d * m + r) by lia.
    by apply IH.
Qed.

Lemma index_of_lt b ds :
  Forall (λ d, d < b) ds → index_of b ds < b ^ length ds.
Proof.
  induction 1 as [|d ds Hd _ IH]; simpl; [lia|]. nia.
Qed.

Lemma product_lookup {A} (pool : list A) ds t :
  Forall2 (λ d x, pool !! d = Some x) ds t →
  Py.product pool (length ds) !! index_of (length pool) ds = Some t.
Proof.
  induction 1 as [|d x ds t Hd Hds IH]; [done|]. simpl.
  erewrite (lookup_bind_blocks _ (length pool ^ length ds)).
  - by rewrite list_lookup_fmap, IH.
  - intros y. by rewrite length_fmap, length_product.
  - done.
  - apply index_of_lt. eapply Forall2_Forall_l; [done|].
    apply Forall_true. intros y e He. by apply lookup_lt_Some in He.
Qed.

Lemma getitem_lookup {A} (l : list A) k x :
  l !! k = Some x → Py.getitem l (Z.of_nat k) = Ok x.
Proof.
  intros H. unfold Py.getitem.
  destruct (Z.ltb_spec (Z.of_nat k) 0) as [?|_]; [lia|].
  destruct (Z.ltb_spec (Z.of_nat k) 0) as [?|_]; [lia|].
  by rewrite Nat2Z.id, H.
Qed.

Lemma getitem_negative {A} (l : list A) (k : Z) :
  (- Z.of_nat (length l) ≤ k < 0)%Z →
  Py.getitem l k = Py.getitem l (k + Z.of_nat (length l)).
Proof.
  intros H. unfold Py.getitem.
  destruct (Z.ltb_spec k 0) as [_|?]; [|lia].
  destruct (Z.ltb_spec (k + Z.of_nat (length l)) 0) as [?|_]; [lia|].
  destruct (Z.ltb_spec (k + Z.of_nat (length l)) 0) as [?|_]; [lia|done].
Qed.

Lemma getitem_in_range {A} (l : list A) (k : Z) :
  (0 ≤ k < Z.of_nat (length l))%Z → ∃ x, Py.getitem l k = Ok x.
Proof.
  intros H.
  destruct (lookup_lt_is_Some_2 l (Z.to_nat k)) as [x Hx]; [lia|].
  exists x. rewrite <- (Z2Nat.id k) by lia. by apply getitem_lookup.
Qed.

Lemma getitem_out_of_range {A} (l : list A) (k : Z) :
  (k < - Z.of_nat (length l) ∨ Z.of_nat (length l) ≤ k)%Z →
  ∃ msg, Py.getitem l k = Raise (IndexError msg).
Proof.
  intros H. unfold Py.getitem.
  destruct (Z.ltb_spec k 0) as [Hk|Hk].
  - destruct (Z.ltb_spec (k + Z.of_nat (length l)) 0) as [?|?]; [by eexists|].
    lia.
  - destruct (Z.ltb_spec k 0) as [?|_]; [lia|].
    rewrite lookup_ge_None_2 by lia. by eexists.
Qed.

(** ** Gate set tomography *)

Lemma product_repeat_nat {A} (pool : list A) (n : nat) :
  Py.product_repeat pool (Z.of_nat n) = Ok (Py.product pool n).
Proof.
  unfold Py.product_repeat.
  destruct (Z.ltb_spec (Z.of_nat n) 0) as [?|_]; [lia|].
  by rewrite Nat2Z.id.
Qed.

Ltac digits_below_four ds :=
  repeat match goal with
         | H : Forall _ (_ :: _) |- _ => apply Forall_cons in H as [? H]
         | H : Forall _ [] |- _ => clear H
         end;
  repeat match goal with
         | H : ?d < 4 |- _ =>
             is_var d;
             destruct d as [|[|[|[|d]]]]; [clear H..|exfalso; lia]
         end.

(** X12. The index of a state is read in base four, one digit for each qubit,
    the digit of qubit 0 first: digit 0 leaves the qubit in |0> (the gate I),
    digit 1 applies X, digit 2 applies H, digit 3 applies H and then S. For two
    qubits the state number [4 * a + b] prepares qubit 0 by the digit [a] and
    qubit 1 by the digit [b]. *)
Theorem prepare_state_reads_index_in_base_four (n : nat) (ds : list nat) :
  n = 1 ∨ n = 2 → length ds = n → Forall (λ d, d < 4) ds →
  GST._prepare_state (Z.of_nat (index_of 4 ds)) (Z.of_nat n)
  = Ok (concat
          (imap (λ q d,
                   (λ g, {| GST.gate_class := g; GST.gate_qubit := q |})
                   <$> default []
                         ([[GST.gates_I]; [GST.gates_X]; [GST.gates_H];
                           [GST.gates_H; GST.gates_S]] !! d))
                ds)).
Proof.
  intros [-> | ->] Hl Hd.
  - destruct ds as [|d1 [|? ?]]; try done.
    digits_below_four ds; vm_compute; reflexivity.
  - destruct ds as [|d1 [|d2 [|? ?]]]; try done.
    digits_below_four ds; vm_compute; reflexivity.
Qed.

(** The state number 13 = 4 * 3 + 1 of two qubits: H and S on qubit 0, X on
    qubit 1. *)
Lemma prepare_state_reads_index_in_base_four_witness :
  GST._prepare_state 13 2
  = Ok [{| GST.gate_class := GST.gates_H; GST.gate_qubit := 0 |};
        {| GST.gate_class := GST.gates_S; GST.gate_qubit := 0 |};
        {| GST.gate_class := GST.gates_X; GST.gate_qubit := 1 |}].
Proof.
  apply (prepare_state_reads_index_in_base_four 2 [3; 1]).
  - by right.
  - reflexivity.
  - repeat constructor.
Defined.

(** X13. The index of a measurement basis is read in base four in the same way:
    the digits 1, 2, 3 measure the qubit in the X, Y, Z basis, and the digit 0
    measures it in the Z basis as well. *)
Theorem measurement_basis_reads_index_in_base_four (n : nat) (ds : list nat) :
  n = 1 ∨ n = 2 → length ds = n → Forall (λ d, d < 4) ds →
  GST._measurement_basis (Z.of_nat (index_of 4 ds)) (Z.of_nat n)
  = Ok (imap (λ q d,
                {| GST.m_qubit := q;
                   GST.m_basis :=
                     default GST.gates_Z
                       ([GST.gates_Z; GST.gates_X; GST.gates_Y; GST.gates_Z]
                          !! d) |})
             ds).
Proof.
  intros [-> | ->] Hl Hd.
  - destruct ds as [|d1 [|? ?]]; try done.
    digits_below_four ds; vm_compute; reflexivity.
  - destruct ds as [|d1 [|d2 [|? ?]]]; try done.
    digits_below_four ds; vm_compute; reflexivity.
Qed.

(** The basis number 2 = 4 * 0 + 2 of two qubits: qubit 0 in Z, qubit 1 in
    Y. *)
Lemma measurement_basis_reads_index_in_base_four_witness :
  GST._measurement_basis 2 2
  = Ok [{| GST.m_qubit := 0; GST.m_basis := GST.gates_Z |};
        {| GST.m_qubit := 1; GST.m_basis := GST.gates_Y |}].
Proof.
  apply (measurement_basis_reads_index_in_base_four 2 [0; 2]).
  - by right.
  - reflexivity.
  - repeat constructor.
Defined.

(** *** Observables *)

Lemma observable_digit d :
  d < 4 →
  [GST.symbols_I; GST.symbols_Z; GST.symbols_Z; GST.symbols_Z] !! d
  = Some (if decide (d = 0) then GST.symbols_I else GST.symbols_Z).
Proof. intros H. by destruct d as [|[|[|[|d]]]]; [..|lia]. Qed.

Lemma observable_factors ds : ∀ q acc,
  foldl (λ acc (qo : nat * GST.Symbol),
           match qo.2 with
           | GST.symbols_I => acc
           | obs => acc ++ [(obs, qo.1)]
           end)
        acc
        (imap (λ i x, (q + i, x))
           ((λ d, if decide (d = 0) then GST.symbols_I else GST.symbols_Z)
            <$> ds))
  = acc ++ ((λ q, (GST.symbols_Z, q)) <$> nonzero_positions q ds).
Proof.
  induction ds as [|d ds IH]; intros q acc; simpl.
  { by rewrite app_nil_r. }
  rewrite (imap_ext _ (λ i x, (S q + i, x))) by (intros; simpl; f_equal; lia).
  rewrite IH, Nat.add_0_r.
  destruct (decide (d = 0)); simpl; [done|]. by rewrite <- app_assoc.
Qed.

Lemma index_of_zeros b n : index_of b (replicate n 0) = 0.
Proof. induction n as [|n IH]; simpl; [done|]. by rewrite IH. Qed.

Lemma nonzero_positions_zeros n : ∀ q, nonzero_positions q (replicate n 0) = [].
Proof. induction n as [|n IH]; intros q; simpl; [done|]. apply IH. Qed.

(** X14. The observable of index [j] for [n] qubits, [n] at least one and [j]
    read in base four with the digit of qubit 0 first, is the product of a Z on
    every qubit whose digit is not zero, in the order of the qubits; the digits
    1, 2 and 3 are not told apart. The index 0 gives the identity (no factor)
    for any number of qubits other than 0 and 3: for three qubits it is refused
    by [_get_observable] itself, and for no qubit by the hamiltonian, each time
    with a [ValueError]. *)
Theorem observable_has_Z_where_digit_is_not_zero (ds : list nat) :
  Forall (λ d, d < 4) ds →
  let n := length ds in
  let j := index_of 4 ds in
  (n ≠ 0 → ¬ (j = 0 ∧ n = 3) →
   GST._get_observable (Z.of_nat j) (Z.of_nat n)
   = Ok {| GST.factors :=
             (λ q, (GST.symbols_Z, q)) <$> nonzero_positions 0 ds;
           GST.obs_nqubits := Z.of_nat n |})
  ∧ (j = 0 ∧ n = 3 →
     GST._get_observable (Z.of_nat j) (Z.of_nat n)
     = Raise (ValueError "Invalid parameters: j=0 and nqubits=3"))
  ∧ (∀ m, m ≠ 0 → m ≠ 3 →
       GST._get_observable 0 (Z.of_nat m)
       = Ok {| GST.factors := []; GST.obs_nqubits := Z.of_nat m |})
  ∧ (∃ msg, GST._get_observable 0 0 = Raise (ValueError msg)).
Proof.
  assert (∀ ds, Forall (λ d, d < 4) ds →
            length ds ≠ 0 →
            ¬ (index_of 4 ds = 0 ∧ length ds = 3) →
            GST._get_observable (Z.of_nat (index_of 4 ds))
              (Z.of_nat (length ds))
            = Ok {| GST.factors :=
                      (λ q, (GST.symbols_Z, q)) <$> nonzero_positions 0 ds;
                    GST.obs_nqubits := Z.of_nat (length ds) |}) as Hgen.
  2:{ intros Hd n j. split_and!.
      - by apply Hgen.
      - intros [Hj Hn]. unfold GST._get_observable.
        by rewrite bool_decide_true by lia.
      - intros m Hm0 Hm.
        specialize (Hgen (replicate m 0)).
        rewrite index_of_zeros, length_replicate, nonzero_positions_zeros
          in Hgen.
        apply Hgen; [|lia..]. apply Forall_replicate. lia.
      - eexists. vm_compute. reflexivity. }
  clear ds. intros ds Hd Hn Hj. unfold GST._get_observable.
  rewrite bool_decide_false by lia.
  unfold GST._observables. rewrite product_repeat_nat. simpl.
  rewrite (getitem_lookup _ _
             ((λ d, if decide (d = 0) then GST.symbols_I
                    else GST.symbols_Z) <$> ds)).
  - simpl. unfold GST.SymbolicHamiltonian.
    destruct (Z.ltb_spec (Z.of_nat (length ds)) 1) as [Hlt|_]; [lia|].
    do 2 f_equal. apply (observable_factors ds 0 []).
  - apply (product_lookup
             [GST.symbols_I; GST.symbols_Z; GST.symbols_Z; GST.symbols_Z]).
    apply Forall2_fmap_r, Forall_Forall2_diag.
    eapply Forall_impl; [done|]. intros d Hlt. by apply observable_digit.
Qed.

(** The index 6 = 4 * 1 + 2 of two qubits: Z on both qubits. The index 0 of
    three qubits is refused, and so is the index 0 of no qubit. *)
Lemma observable_has_Z_where_digit_is_not_zero_witness :
  GST._get_observable 6 2
  = Ok {| GST.factors := [(GST.symbols_Z, 0); (GST.symbols_Z, 1)];
          GST.obs_nqubits := 2 |}
  ∧ GST._get_observable 0 3
    = Raise (ValueError "Invalid parameters: j=0 and nqubits=3")
  ∧ ∃ msg, GST._get_observable 0 0 = Raise (ValueError msg).
Proof.
  split_and!.
  - destruct (observable_has_Z_where_digit_is_not_zero [1; 2])
      as (H & _); [repeat constructor|].
    apply H; simpl; lia.
  - destruct (observable_has_Z_where_digit_is_not_zero [0; 0; 0])
      as (_ & H & _); [repeat constructor|].
    by apply H.
  - destruct (observable_has_Z_where_digit_is_not_zero [])
      as (_ & _ & _ & H); [constructor|].
    exact H.
Defined.

(** *** The range of the indices *)

(** X15. [_prepare_state] and [_measurement_basis] refuse a number of qubits
    other than 1 and 2 with a [ValueError]. For 1 or 2 qubits they return for
    the indices from [-4^n] up to [4^n - 1]: a negative index counts from the
    end, so that [k - 4^n] gives what [k] gives; any other index raises an
    [IndexError]. *)
Theorem tomography_index_range (k nqubits : Z) :
  (nqubits ≠ 1%Z ∧ nqubits ≠ 2%Z →
   (∃ msg, GST._prepare_state k nqubits = Raise (ValueError msg))
   ∧ (∃ msg, GST._measurement_basis k nqubits = Raise (ValueError msg)))
  ∧ (nqubits = 1%Z ∨ nqubits = 2%Z →
     ((0 ≤ k < 4 ^ nqubits)%Z →
      (∃ l, GST._prepare_state k nqubits = Ok l)
      ∧ (∃ l, GST._measurement_basis k nqubits = Ok l)
      ∧ GST._prepare_state (k - 4 ^ nqubits) nqubits
        = GST._prepare_state k nqubits
      ∧ GST._measurement_basis (k - 4 ^ nqubits) nqubits
        = GST._measurement_basis k nqubits)
     ∧ ((k < - 4 ^ nqubits ∨ 4 ^ nqubits ≤ k)%Z →
        (∃ msg, GST._prepare_state k nqubits = Raise (IndexError msg))
        ∧ (∃ msg, GST._measurement_basis k nqubits
                  = Raise (IndexError msg)))).
Proof.
  split.
  - intros [H1 H2]. unfold GST._prepare_state, GST._measurement_basis.
    rewrite bool_decide_false by lia. simpl. split; by eexists.
  - intros Hn.
    assert (∃ n : nat, (n = 1 ∨ n = 2) ∧ nqubits = Z.of_nat n) as (n & Hn' & ->).
    { destruct Hn as [-> | ->]; [exists 1 | exists 2]; split; auto. }
    unfold GST._prepare_state, GST._measurement_basis, GST._gates,
      GST._measurements.
    rewrite bool_decide_true by lia. simpl negb. cbv iota.
    rewrite !product_repeat_nat. cbn [Py.rbind].
    set (G := Py.product _ n). set (Ms := Py.product _ n).
    assert (Z.of_nat (length G) = (4 ^ Z.of_nat n)%Z
            ∧ Z.of_nat (length Ms) = (4 ^ Z.of_nat n)%Z) as [HG HM].
    { by destruct Hn' as [-> | ->]. }
    split.
    + intros Hk.
      destruct (getitem_in_range G k) as [g Hg]; [lia|].
      destruct (getitem_in_range Ms k) as [m Hm]; [lia|].
      rewrite (getitem_negative G (k - 4 ^ Z.of_nat n)) by lia.
      rewrite (getitem_negative Ms (k - 4 ^ Z.of_nat n)) by lia.
      rewrite HG, HM, Z.sub_add, Hg, Hm. simpl.
      split_and!; [by eexists | by eexists | done | done].
    + intros Hk.
      destruct (getitem_out_of_range G k) as [msg1 ->]; [lia|].
      destruct (getitem_out_of_range Ms k) as [msg2 ->]; [lia|].
      split; by eexists.
Qed.

(** One qubit: the index -1 gives the state number 3, and the index 4
    raises. *)
Lemma tomography_index_range_witness :
  GST._prepare_state (3 - 4 ^ 1) 1 = GST._prepare_state 3 1
  ∧ ∃ msg, GST._prepare_state 4 1 = Raise (IndexError msg).
Proof.
  destruct (tomography_index_range 3 1) as [_ H3].
  destruct (tomography_index_range 4 1) as [_ H4].
  destruct H3 as [H3 _]; [by left|].
  destruct H4 as [_ H4]; [by left|].
  split.
  - apply H3. lia.
  - apply H4. lia.
Defined.

(** ** Operator indices of the double-bracket utilities *)

Lemma elem_of_combinations {A} (pool : list A) : ∀ r qs,
  qs ∈ Py.combinations pool r ↔ length qs = r ∧ sublist qs pool.
Proof.
  induction pool as [|x pool IH]; intros [|r] qs; simpl.
  - rewrite list_elem_of_singleton, sublist_nil_r.
    split; [by intros ->|by intros [_ ->]].
  - rewrite elem_of_nil, sublist_nil_r. split; [done|]. by intros [? ->].
  - rewrite list_elem_of_singleton. split.
    + intros ->. split; [done|]. apply sublist_nil_l.
    + intros [H _]. by destruct qs.
  - rewrite elem_of_app, list_elem_of_fmap, sublist_cons_r. split.
    + intros [(t & -> & Ht)|Hqs].
      * apply IH in Ht as [<- Ht]. split; [done|]. right. by exists t.
      * apply IH in Hqs as [Hl Hs]. by split; [|left].
    + intros [Hl [Hs|(t & -> & Ht)]].
      * right. by apply IH.
      * left. exists t. split; [done|]. apply IH. simpl in Hl.
        split; [congruence|done].
Qed.

Lemma NoDup_combinations {A} (pool : list A) : ∀ r,
  NoDup pool → NoDup (Py.combinations pool r).
Proof.
  induction pool as [|x pool IH]; intros [|r] Hp; simpl.
  - apply NoDup_singleton.
  - apply NoDup_nil_2.
  - apply NoDup_singleton.
  - apply NoDup_cons in Hp as [Hx Hp]. apply NoDup_app. split_and!.
    + apply (NoDup_fmap_2 _). by apply IH.
    + intros qs [t [-> Ht]]%list_elem_of_fmap Hqs.
      apply elem_of_combinations in Hqs as [_ Hs].
      apply Hx. apply (sublist_subseteq _ _ Hs). by left.
    + by apply IH.
Qed.

Lemma sublist_seq n : ∀ a qs,
  sublist qs (seq a n)
  ↔ StronglySorted lt qs ∧ Forall (λ q, a ≤ q < a + n) qs.
Proof.
  induction n as [|n IH]; intros a qs; simpl.
  - rewrite sublist_nil_r. split.
    + intros ->. split; constructor.
    + intros [_ H]. destruct qs as [|q qs]; [done|].
      apply Forall_cons in H as [? _]. lia.
  - rewrite sublist_cons_r. split.
    + intros [H|(t & -> & H)]; apply IH in H as [Hs Hf].
      * split; [done|]. eapply Forall_impl; [done|]. simpl. lia.
      * split.
        -- constructor; [done|]. eapply Forall_impl; [done|]. simpl. lia.
        -- constructor; [lia|]. eapply Forall_impl; [done|]. simpl. lia.
    + intros [Hs Hf]. destruct qs as [|q qs].
      { left. apply sublist_nil_l. }
      apply Forall_cons in Hf as [Hq Hf].
      apply StronglySorted_inv in Hs as [Hs Hlt].
      destruct (decide (q = a)) as [->|Hne].
      * right. exists qs. split; [done|]. apply IH. split; [done|].
        apply Forall_forall. intros y Hy.
        rewrite Forall_forall in Hlt, Hf.
        specialize (Hlt y Hy). specialize (Hf y Hy). lia.
      * left. apply IH. split; [by constructor|].
        constructor; [lia|].
        apply Forall_forall. intros y Hy.
        rewrite Forall_forall in Hlt, Hf.
        specialize (Hlt y Hy). specialize (Hf y Hy). lia.
Qed.

(** X16. [generate_pauli_index] refuses an order below 1 with a [ValueError].
    For an order of at least 1 it lists every qubit below [nqubits] as a plain
    index, and every tuple of between 2 and [order] qubits below [nqubits] in
    increasing order, each of them once, and nothing else; so an order above
    [nqubits] adds nothing. *)
Theorem pauli_index_lists_each_increasing_tuple_once (nqubits order : Z) :
  ((order < 1)%Z →
   ∃ msg, DBI.generate_pauli_index nqubits order = Raise (ValueError msg))
  ∧ ((1 ≤ order)%Z →
     ∃ l, DBI.generate_pauli_index nqubits order = Ok l
          ∧ NoDup l
          ∧ (∀ q, DBI.Qubit q ∈ l ↔ (Z.of_nat q < nqubits)%Z)
          ∧ (∀ qs, DBI.Qubits qs ∈ l
                   ↔ 2 ≤ length qs
                     ∧ (Z.of_nat (length qs) ≤ order)%Z
                     ∧ StronglySorted lt qs
                     ∧ Forall (λ q, (Z.of_nat q < nqubits)%Z) qs)).
Proof.
  unfold DBI.generate_pauli_index. split.
  - intros H. rewrite !bool_decide_false by lia. by eexists.
  - intros H.
    assert (Inj (=) (=) DBI.Qubit) as HQ by by intros ?? [=].
    assert (Inj (=) (=) DBI.Qubits) as HQs by by intros ?? [=].
    assert (∀ q, q ∈ Py.range nqubits ↔ (Z.of_nat q < nqubits)%Z) as Hrange.
    { intros q. unfold Py.range. rewrite elem_of_seq. lia. }
    assert (∀ qs, sublist qs (Py.range nqubits)
                  ↔ StronglySorted lt qs
                    ∧ Forall (λ q, (Z.of_nat q < nqubits)%Z) qs) as Hsub.
    { intros qs. unfold Py.range. rewrite sublist_seq.
      split; intros [Hs Hf]; (split; [done|]);
        (eapply Forall_impl; [done|]); simpl; lia. }
    assert (NoDup (DBI.Qubit <$> Py.range nqubits)) as Hnd.
    { apply (NoDup_fmap_2 _). apply NoDup_seq. }
    case_bool_decide as H1.
    + eexists. split; [done|]. split_and!; [done| |].
      * intros q. rewrite list_elem_of_fmap. split.
        -- intros (q' & [= ->] & Hq). by apply Hrange.
        -- intros Hq. exists q. split; [done|]. by apply Hrange.
      * intros qs. rewrite list_elem_of_fmap. split.
        -- by intros (q' & [=] & _).
        -- lia.
    + rewrite bool_decide_true by lia.
      eexists. split; [done|]. split_and!.
      * apply NoDup_app. split_and!; [done| |].
        -- intros x (q & -> & _)%list_elem_of_fmap
             (i & (qs & [=] & _)%list_elem_of_fmap & _)%list_elem_of_bind.
        -- apply NoDup_bind.
           ++ intros i1 i2 y _ _ (qs1 & -> & H1')%list_elem_of_fmap
                (qs2 & [= <-] & H2')%list_elem_of_fmap.
              apply elem_of_combinations in H1' as [<- _].
              by apply elem_of_combinations in H2' as [<- _].
           ++ intros i _. apply (NoDup_fmap_2 _).
              apply NoDup_combinations, NoDup_seq.
           ++ apply NoDup_seq.
      * intros q. rewrite elem_of_app, list_elem_of_fmap. split.
        -- intros [(q' & [= ->] & Hq)|Hq]; [by apply Hrange|].
           apply list_elem_of_bind in Hq
             as (i & (qs & [=] & _)%list_elem_of_fmap & _).
        -- intros Hq. left. exists q. split; [done|]. by apply Hrange.
      * intros qs. rewrite elem_of_app, list_elem_of_fmap, list_elem_of_bind.
        split.
        -- intros [(q' & [=] & _)|(i & Hqs & Hi)].
           apply list_elem_of_fmap in Hqs as (qs' & [= <-] & Hqs).
           apply elem_of_combinations in Hqs as [<- Hs].
           unfold Py.range2 in Hi. apply elem_of_seq in Hi.
           apply Hsub in Hs as [Hs Hf]. split_and!; [lia|lia|done|done].
        -- intros (Hl & Ho & Hs & Hf). right. exists (length qs). split.
           ++ apply list_elem_of_fmap. exists qs. split; [done|].
              apply elem_of_combinations. split; [done|]. by apply Hsub.
           ++ unfold Py.range2. apply elem_of_seq. lia.
Qed.

(** Three qubits and order 2: the pair (0, 2) is listed, the triple
    (0, 1, 2) is not. *)
Lemma pauli_index_lists_each_increasing_tuple_once_witness :
  ∃ l, DBI.generate_pauli_index 3 2 = Ok l
       ∧ DBI.Qubits [0; 2] ∈ l ∧ DBI.Qubits [0; 1; 2] ∉ l.
Proof.
  destruct (pauli_index_lists_each_increasing_tuple_once 3 2) as [_ H].
  destruct H as (l & Hl & _ & _ & Ht); [lia|].
  exists l. split; [done|]. split.
  - apply Ht. split_and!; [simpl; lia | simpl; lia | |].
    + repeat constructor.
    + repeat constructor.
  - intros H. apply Ht in H as (_ & H & _). simpl in H. lia.
Defined.

(** *** The products of Z operators *)

Lemma elem_of_product {A} (pool : list A) n : ∀ t,
  t ∈ Py.product pool n ↔ length t = n ∧ Forall (λ x, x ∈ pool) t.
Proof.
  induction n as [|n IH]; intros t; simpl.
  - rewrite list_elem_of_singleton. split.
    + by intros ->.
    + intros [H _]. by destruct t.
  - rewrite list_elem_of_bind. split.
    + intros (x & (t' & -> & Ht)%list_elem_of_fmap & Hx).
      apply IH in Ht as [<- Ht]. split; [done|]. by constructor.
    + intros [Hl Ht]. destruct t as [|x t]; [done|].
      apply Forall_cons in Ht as [Hx Ht]. exists x. split; [|done].
      apply list_elem_of_fmap. exists t. split; [done|]. apply IH.
      simpl in Hl. split; [congruence|done].
Qed.

Lemma NoDup_product {A} (pool : list A) n :
  NoDup pool → NoDup (Py.product pool n).
Proof.
  intros Hp. induction n as [|n IH]; simpl; [apply NoDup_singleton|].
  apply NoDup_bind; [| |done].
  - intros x1 x2 t _ _ (t1 & -> & _)%list_elem_of_fmap
      (t2 & [= -> _] & _)%list_elem_of_fmap. done.
  - intros x _. apply NoDup_fmap_2; [|done]. by intros ?? [=].
Qed.

Lemma str_to_symbolic_loop s : ∀ q acc,
  Forall (λ c, DBI.is_pauli_letter c = true) s →
  foldl (λ tensor_op (qc : nat * ascii),
           Py.rbind tensor_op (λ op,
             if DBI.is_pauli_letter qc.2 then Ok (op ++ [(qc.2, qc.1)])
             else Raise (AttributeError
                    "module 'qibo.symbols' has no attribute")))
        (Ok acc) (imap (λ i c, (q + i, c)) s)
  = Ok (acc ++ imap (λ i c, (c, q + i)) s).
Proof.
  induction s as [|c s IH]; intros q acc Hs; simpl.
  { by rewrite app_nil_r. }
  apply Forall_cons in Hs as [Hc Hs]. rewrite Hc.
  rewrite (imap_ext _ (λ i x, (S q + i, x))) by (intros; simpl; f_equal; lia).
  rewrite IH by done. rewrite <- app_assoc. simpl.
  do 3 f_equal. apply imap_ext. intros. simpl. f_equal. lia.
Qed.

Lemma str_to_symbolic_letters s :
  Forall (λ c, DBI.is_pauli_letter c = true) s →
  DBI.str_to_symbolic (String.string_of_list_ascii s)
  = Ok (imap (λ q c, (c, q)) s).
Proof.
  intros Hs. unfold DBI.str_to_symbolic, Py.enumerate.
  rewrite String.list_ascii_of_string_of_list_ascii.
  apply (str_to_symbolic_loop s 0 [] Hs).
Qed.

Lemma Z_operators_loop l : ∀ d,
  Forall (Forall (λ c, DBI.is_pauli_letter c = true)) l →
  ∃ d', foldl DBI.generate_Z_operators_step (Ok d) l = Ok d'
        ∧ dom d'
          = dom d ∪ list_to_set
                      (String.string_of_list_ascii
                       <$> filter (λ s, "Z"%char ∈ s) l)
        ∧ ∀ k v, d' !! k = Some v →
                 d !! k = Some v
                 ∨ v = imap (λ q c, (c, q)) (String.list_ascii_of_string k).
Proof.
  induction l as [|s l IH]; intros d Hl.
  { exists d. split; [done|]. split; [|by left].
    simpl. by rewrite (right_id_L ∅ (∪)). }
  apply Forall_cons in Hl as [Hs Hl]. cbn [foldl].
  rewrite filter_cons. destruct (decide ("Z"%char ∈ s)) as [HZ|HZ].
  - assert (DBI.generate_Z_operators_step (Ok d) s
            = Ok (<[String.string_of_list_ascii s
                    := imap (λ q c, (c, q)) s]> d)) as ->.
    { unfold DBI.generate_Z_operators_step. simpl.
      rewrite bool_decide_true by done.
      by rewrite str_to_symbolic_letters. }
    destruct (IH (<[String.string_of_list_ascii s
                    := imap (λ q c, (c, q)) s]> d) Hl)
      as (d' & -> & Hdom & Hval).
    exists d'. split; [done|]. split.
    + rewrite Hdom, dom_insert_L, fmap_cons. simpl.
      rewrite (comm_L (∪) _ (dom d)). by rewrite <- (assoc_L (∪)).
    + intros k v Hk. destruct (Hval k v Hk) as [Hi|Hv]; [|by right].
      destruct (decide (k = String.string_of_list_ascii s)) as [->|Hne].
      * rewrite lookup_insert_eq in Hi. injection Hi as <-. right.
        by rewrite String.list_ascii_of_string_of_list_ascii.
      * rewrite lookup_insert_ne in Hi by done. by left.
  - assert (DBI.generate_Z_operators_step (Ok d) s = Ok d) as ->.
    { unfold DBI.generate_Z_operators_step. simpl.
      by rewrite bool_decide_false by done. }
    by apply IH.
Qed.

Lemma count_with_Z P :
  length (filter (λ s : list ascii, "Z"%char ∈ s)
            ((λ t, "Z"%char :: t) <$> P)) = length P.
Proof.
  induction P as [|t P IH]; [done|]. rewrite fmap_cons, filter_cons.
  rewrite decide_True by by left. simpl. by rewrite IH.
Qed.

Lemma count_with_I P :
  length (filter (λ s : list ascii, "Z"%char ∈ s)
            ((λ t, "I"%char :: t) <$> P))
  = length (filter (λ s : list ascii, "Z"%char ∈ s) P).
Proof.
  induction P as [|t P IH]; [done|]. rewrite fmap_cons, !filter_cons.
  destruct (decide ("Z"%char ∈ t)) as [Ht|Ht].
  - rewrite decide_True by by right. simpl. by rewrite IH.
  - rewrite decide_False; [done|].
    intros [E|H]%elem_of_cons; [discriminate E | done].
Qed.

Lemma count_ZI_strings n :
  length (filter (λ s : list ascii, "Z"%char ∈ s)
            (Py.product ["Z"%char; "I"%char] n)) = 2 ^ n - 1.
Proof.
  induction n as [|n IH]; [done|]. cbn [Py.product].
  rewrite !bind_cons. change (@nil ascii ≫= _) with (@nil (list ascii)).
  rewrite app_nil_r, filter_app, length_app.
  rewrite count_with_Z, count_with_I, IH, length_product. simpl.
  pose proof (pow2_pos n). lia.
Qed.

(** X17. [generate_Z_operators] refuses a negative number of qubits with a
    [ValueError]. For [n] qubits it returns a dictionary of [2^n - 1] operators:
    its names are the strings of [n] letters Z and I that hold at least one Z,
    the identity alone being left out, and the operator stored under a name has,
    on every qubit, the factor the name has at the position of that qubit. *)
Theorem Z_operators_are_named_by_ZI_strings_with_a_Z (nqubits : Z) :
  ((nqubits < 0)%Z →
   ∃ msg, DBI.generate_Z_operators nqubits = Raise (ValueError msg))
  ∧ ((0 ≤ nqubits)%Z →
     ∃ d, DBI.generate_Z_operators nqubits = Ok d
          ∧ size d = 2 ^ Z.to_nat nqubits - 1
          ∧ (∀ name,
               is_Some (d !! name)
               ↔ length (String.list_ascii_of_string name) = Z.to_nat nqubits
                 ∧ Forall (λ c, c = "Z"%char ∨ c = "I"%char)
                     (String.list_ascii_of_string name)
                 ∧ "Z"%char ∈ String.list_ascii_of_string name)
          ∧ (∀ name op,
               d !! name = Some op →
               op = imap (λ q c, (c, q)) (String.list_ascii_of_string name))).
Proof.
  unfold DBI.generate_Z_operators, Py.product_repeat. split.
  - intros H. destruct (Z.ltb_spec nqubits 0) as [_|?]; [|lia]. by eexists.
  - intros H. destruct (Z.ltb_spec nqubits 0) as [?|_]; [lia|].
    set (n := Z.to_nat nqubits). simpl.
    assert (Inj (=) (=) String.string_of_list_ascii) as Hinj.
    { intros s1 s2 E.
      rewrite <- (String.list_ascii_of_string_of_list_ascii s1), E.
      apply String.list_ascii_of_string_of_list_ascii. }
    destruct (Z_operators_loop (Py.product ["Z"%char; "I"%char] n) ∅)
      as (d & Hd & Hdom & Hval).
    { apply Forall_forall. intros s [_ Hs]%elem_of_product.
      eapply Forall_impl; [done|]. intros c Hc.
      apply elem_of_cons in Hc as [->|Hc]; [done|].
      by apply list_elem_of_singleton in Hc as ->. }
    exists d. split; [done|]. split_and!.
    + rewrite <- size_dom, Hdom, dom_empty_L, (left_id_L ∅ (∪)).
      rewrite size_list_to_set.
      * by rewrite length_fmap, count_ZI_strings.
      * apply (NoDup_fmap_2 _), NoDup_filter, NoDup_product.
        apply NoDup_cons. split; [|apply NoDup_singleton].
        by intros [=]%list_elem_of_singleton.
    + intros name. rewrite <- elem_of_dom, Hdom, dom_empty_L.
      rewrite (left_id_L ∅ (∪)), elem_of_list_to_set, list_elem_of_fmap.
      split.
      * intros (s & -> & Hs). apply list_elem_of_filter in Hs as [HZ Hs].
        apply elem_of_product in Hs as [Hl Hs].
        rewrite String.list_ascii_of_string_of_list_ascii.
        split_and!; [done| |done].
        eapply Forall_impl; [done|]. intros c Hc.
        apply elem_of_cons in Hc as [->|Hc]; [by left|].
        apply list_elem_of_singleton in Hc as ->. by right.
      * intros (Hl & Hs & HZ).
        exists (String.list_ascii_of_string name). split.
        { by rewrite String.string_of_list_ascii_of_string. }
        apply list_elem_of_filter. split; [done|].
        apply elem_of_product. split; [done|].
        eapply Forall_impl; [done|]. intros c [-> | ->]; [by left|].
        right. by left.
    + intros name op Hop. by destruct (Hval name op Hop).
Qed.

(** Two qubits: three operators, "ZI" among them and "II" not. *)
Lemma Z_operators_are_named_by_ZI_strings_with_a_Z_witness :
  ∃ d, DBI.generate_Z_operators 2 = Ok d
       ∧ size d = 3 ∧ is_Some (d !! "ZI") ∧ d !! "II" = None.
Proof.
  destruct (Z_operators_are_named_by_ZI_strings_with_a_Z 2) as [_ H].
  destruct H as (d & Hd & Hsize & Hname & _); [lia|].
  exists d. split_and!; [done|done| |].
  - apply Hname. split_and!; [done| |by left].
    constructor; [by left|]. constructor; [by right|]. constructor.
  - apply eq_None_not_Some. intros H%Hname. destruct H as (_ & _ & H).
    simpl in H. apply elem_of_cons in H as [E|H]; [discriminate E|].
    apply elem_of_cons in H as [E|H]; [discriminate E|].
    by apply elem_of_nil in H.
Defined.

(** ** Running the tomography *)

Section GateSetTomography.

Context {Σ O : Type}.
Variable L : GSTRun.Library Σ O.

Lemma never_returns_bind_l {A B} (m : GSTRun.P Σ A) (k : A → GSTRun.P Σ B) :
  GSTRun.never_returns m → GSTRun.never_returns (GSTRun.bind m k).
Proof.
  intros Hm s. destruct (Hm s) as (s' & cls & msg & E).
  exists s', cls, msg. unfold GSTRun.bind. by rewrite E.
Qed.

Lemma never_returns_bind_r {A B} (m : GSTRun.P Σ A) (k : A → GSTRun.P Σ B) :
  (∀ a, GSTRun.never_returns (k a)) →
  GSTRun.never_returns (GSTRun.bind m k).
Proof.
  intros Hk s. unfold GSTRun.bind.
  destruct (m s) as [s1 [a|cls msg]]; [apply Hk | by eexists _, _, _].
Qed.

Lemma never_returns_for_each {A} (x : A) xs (body : A → GSTRun.P Σ unit) :
  GSTRun.never_returns (body x) →
  GSTRun.never_returns (GSTRun.for_each (x :: xs) body).
Proof. intros H. simpl. by apply never_returns_bind_l. Qed.

Lemma never_returns_fold_gates {A B} (f : B → A → GSTRun.P Σ B) x xs acc :
  GSTRun.never_returns (f acc x) →
  GSTRun.never_returns (GSTRun.fold_gates f (x :: xs) acc).
Proof. intros H. simpl. by apply never_returns_bind_l. Qed.

Lemma expectation_value_call (new_circ nshots backend : GSTRun.value O)
    (k j : Z) :
  GSTRun._expectation_value L
    [new_circ; GSTRun.PyInt k; GSTRun.PyInt j; nshots]
    [("backend", backend)]
  = GSTRun.raise "TypeError"
      "_expectation_value() got multiple values for argument".
Proof. reflexivity. Qed.

Lemma gate_tomography_rounds n :
  n = 1%Z ∨ n = 2%Z → ∃ l, Py.range (4 ^ n) = 0 :: l.
Proof. intros [-> | ->]; by eexists. Qed.

Lemma never_returns_bind {A B} (m : GSTRun.P Σ A) (k : A → GSTRun.P Σ B) :
  (∀ s s' a, m s = (s', GSTRun.Returned a) → GSTRun.never_returns (k a)) →
  GSTRun.never_returns (GSTRun.bind m k).
Proof.
  intros Hk s. unfold GSTRun.bind.
  destruct (m s) as [s1 [a|cls msg]] eqn:E; [|by eexists _, _, _].
  by apply (Hk s s1 a).
Qed.

Lemma gate_tomography_never_returns_aux nqubits gate nshots invert_register
    noise_model backend :
  GSTRun.never_returns
    (GSTRun._gate_tomography L nqubits gate nshots invert_register
       noise_model backend).
Proof.
  unfold GSTRun._gate_tomography.
  apply never_returns_bind. intros s s' n Hn.
  assert (n = 1%Z ∨ n = 2%Z) as Hn'.
  { destruct nqubits as [n'|]; [|done].
    case_bool_decide; [|done]. by injection Hn as <- <-. }
  destruct (gate_tomography_rounds n Hn') as [l ->]. cbn [GSTRun.for_each].
  do 3 (apply never_returns_bind_r; intros ?).
  apply never_returns_bind_l, never_returns_bind_l.
  do 5 (apply never_returns_bind_r; intros ?).
  apply never_returns_bind_l.
  do 4 (apply never_returns_bind_r; intros ?).
  apply never_returns_bind_l.
  rewrite expectation_value_call. intros s0. by eexists _, _, _.
Qed.

Lemma always_raises_bind_l {A B} cls (m : GSTRun.P Σ A)
    (k : A → GSTRun.P Σ B) :
  GSTRun.always_raises cls m → GSTRun.always_raises cls (GSTRun.bind m k).
Proof.
  intros Hm s. destruct (Hm s) as (s' & msg & E).
  exists s', msg. unfold GSTRun.bind. by rewrite E.
Qed.

Lemma always_raises_bind_r {A B} cls (m : GSTRun.P Σ A)
    (k : A → GSTRun.P Σ B) :
  GSTRun.returns m → (∀ a, GSTRun.always_raises cls (k a)) →
  GSTRun.always_raises cls (GSTRun.bind m k).
Proof.
  intros Hm Hk s. destruct (Hm s) as (s1 & a & E).
  unfold GSTRun.bind. rewrite E. apply Hk.
Qed.

Lemma always_raises_bind_ret {A B} cls (a : A) (k : A → GSTRun.P Σ B) :
  GSTRun.always_raises cls (k a) →
  GSTRun.always_raises cls (GSTRun.bind (GSTRun.ret a) k).
Proof. done. Qed.

Lemma returns_ret {A} (a : A) : GSTRun.returns (Σ := Σ) (GSTRun.ret a).
Proof. intros s. by eexists _, _. Qed.

Lemma returns_if {A} (b : bool) (m1 m2 : GSTRun.P Σ A) :
  GSTRun.returns m1 → GSTRun.returns m2 →
  GSTRun.returns (if b then m1 else m2).
Proof. by destruct b. Qed.

Lemma returns_bind {A B} (m : GSTRun.P Σ A) (k : A → GSTRun.P Σ B) :
  GSTRun.returns m → (∀ a, GSTRun.returns (k a)) →
  GSTRun.returns (GSTRun.bind m k).
Proof.
  intros Hm Hk s. destruct (Hm s) as (s1 & a & E).
  unfold GSTRun.bind. rewrite E. apply Hk.
Qed.

Lemma returns_first_state n :
  n = 1%Z ∨ n = 2%Z →
  GSTRun.returns (Σ := Σ)
    (GSTRun.lift (GSTRun.of_result (GST._prepare_state (Z.of_nat 0) n)))
  ∧ GSTRun.returns (Σ := Σ)
      (GSTRun.lift (GSTRun.of_result (GST._measurement_basis (Z.of_nat 0) n))).
Proof. intros [-> | ->]; split; intros s; by eexists _, _. Qed.

(** X18. No call of [_gate_tomography] and no call of [GST] returns, whatever
    the arguments and whatever the library calls do: each round of the
    tomography passes [new_circ, k, j, nshots] by position and [backend] by
    keyword to [_expectation_value(circuit, j, nshots, backend)], so that
    [backend] gets two values. When the calls that build the circuits return,
    what [_gate_tomography] raises for 1 or 2 qubits, without a gate and without
    a register to invert, is that [TypeError]. *)
Theorem gate_set_tomography_never_returns :
  (∀ nqubits gate nshots invert_register noise_model backend,
     GSTRun.never_returns
       (GSTRun._gate_tomography L nqubits gate nshots invert_register
          noise_model backend))
  ∧ (∀ gate_set nshots noise_model include_empty invert_register backend,
       GSTRun.never_returns
         (GSTRun.GST L gate_set nshots noise_model include_empty
            invert_register backend))
  ∧ (GSTRun.circuits_can_be_built L →
     ∀ n nshots noise_model backend,
       n = 1%Z ∨ n = 2%Z →
       GSTRun.always_raises "TypeError"
         (GSTRun._gate_tomography L (Some n) GSTRun.PyNone nshots
            GSTRun.PyNone noise_model backend)).
Proof.
  split_and!.
  - apply gate_tomography_never_returns_aux.
  - intros gate_set nshots noise_model include_empty invert_register backend.
    unfold GSTRun.GST.
    destruct (bool_decide (length gate_set = 0) || include_empty) eqn:Hb.
    + apply never_returns_bind_l.
      change (Py.range2 1 3) with [1; 2].
      apply never_returns_fold_gates, never_returns_bind_l.
      apply gate_tomography_never_returns_aux.
    + apply orb_false_iff in Hb as [Hb _].
      apply bool_decide_eq_false in Hb.
      destruct gate_set as [|g gate_set]; [done|].
      apply never_returns_bind_r. intros [nq ms].
      apply never_returns_bind_l, never_returns_fold_gates.
      unfold GSTRun.GST_gate.
      apply never_returns_bind_r. intros [[n|] g'];
        [|intros s0; by eexists _, _, _].
      apply never_returns_bind_l, gate_tomography_never_returns_aux.
  - intros (Hb & Hz & Hc & Hg & Hcp & Hm & Hq & Hn) n nshots noise_model
      backend Hn'.
    unfold GSTRun._gate_tomography.
    rewrite bool_decide_true by done.
    apply always_raises_bind_ret.
    apply always_raises_bind_r; [by apply returns_if, returns_ret|].
    intros backend'. cbn [GSTRun.is_None].
    apply always_raises_bind_ret.
    apply always_raises_bind_r; [apply Hz|]. intros matrix_jk.
    destruct (gate_tomography_rounds n Hn') as [l ->].
    destruct (returns_first_state n Hn') as [Hst Hms].
    cbn [GSTRun.for_each].
    do 2 apply always_raises_bind_l.
    apply always_raises_bind_r; [apply Hc|]. intros circ.
    apply always_raises_bind_r; [apply Hst|]. intros state.
    apply always_raises_bind_r; [apply Hg|]. intros [].
    do 2 apply always_raises_bind_ret.
    apply always_raises_bind_l.
    apply always_raises_bind_r; [apply Hcp|]. intros new_circ.
    apply always_raises_bind_r; [apply Hms|]. intros measurements.
    apply always_raises_bind_r; [apply Hm|]. intros [].
    apply always_raises_bind_r.
    { apply returns_if; [apply returns_ret|].
      apply returns_bind; [apply Hq|]. intros other.
      apply returns_if; [apply Hn | apply returns_ret]. }
    intros new_circ'. apply always_raises_bind_l.
    rewrite expectation_value_call. intros s. by eexists _, _.
Qed.

End GateSetTomography.

(** With the library in which every call returns, one qubit and 100
    shots. *)
Lemma gate_set_tomography_never_returns_witness :
  ∃ msg,
    GSTRun._gate_tomography GSTRun.quiet_library (Some 1%Z) GSTRun.PyNone
      (GSTRun.PyInt 100) GSTRun.PyNone GSTRun.PyNone GSTRun.PyNone tt
    = (tt, GSTRun.Raised "TypeError" msg).
Proof.
  destruct (gate_set_tomography_never_returns GSTRun.quiet_library)
    as (_ & _ & H).
  destruct (H ltac:(repeat split; intros; intros s; by eexists _, _)
              1%Z (GSTRun.PyInt 100) GSTRun.PyNone GSTRun.PyNone
              (or_introl eq_refl) tt) as ([] & msg & E).
  by exists msg.
Defined.
